(** * CacheDictionary: query pipeline, worker update and hierarchy search

    A shallow embedding of [src/Dictionaries/CacheDictionary.cpp].

    Conventions.
    - A column ([IColumn]) is the list of its rows; [MutableColumns] and
      [Columns] are lists of columns.
    - [HashMap<KeyType, size_t>] is a [gmap Key nat].
    - [size_t] and [UInt64] are integers in [Z] with the wrap-around of
      64-bit unsigned arithmetic written out where the code computes.
    - A C++ call either returns, throws, or has no defined behaviour (an
      unchecked read past the end of a vector): the three outcomes of
      [Result].
    - Profile events, metrics, logging and the locks themselves have no
      influence on the values computed and are left out.
    - The storage, the update queue, the source, the extractor of keys and
      [calculateDurationWithBackoff] are declared in files that are not
      part of the sources: they are interfaces and parameters here.  What
      had to be given a body for lack of its source says so. *)

From stdpp Require Import gmap strings list fin_maps.
From Stdlib Require Import ZArith Lia.

Open Scope Z_scope.

(** ** Outcomes of a call *)

(** The exceptions that travel through this file.  [UpdateFailed] and
    [UpdateSuppressed] are the two [CACHE_DICTIONARY_UPDATE_FAIL] messages
    of [update]: the first wraps the exception of the source, the second
    carries the time at which the next update is scheduled. *)
Inductive Exception : Type :=
| ForeignException (what : string)
| PositionOutOfBound
| ParameterOutOfBound
| UnsupportedMethod
| QueueFull
| WaitTimeout
| UpdateFailed (cause : Exception)
| UpdateSuppressed (scheduled_at : Z).

Inductive ErrorCode : Type :=
| CACHE_DICTIONARY_UPDATE_FAIL
| UNSUPPORTED_METHOD
| POSITION_OUT_OF_BOUND
| PARAMETER_OUT_OF_BOUND
| TIMEOUT_EXCEEDED
| CACHE_DICTIONARY_UPDATE_QUEUE_FULL
| OTHER_ERROR.

Definition code (e : Exception) : ErrorCode :=
  match e with
  | ForeignException _ => OTHER_ERROR
  | PositionOutOfBound => POSITION_OUT_OF_BOUND
  | ParameterOutOfBound => PARAMETER_OUT_OF_BOUND
  | UnsupportedMethod => UNSUPPORTED_METHOD
  | QueueFull => CACHE_DICTIONARY_UPDATE_QUEUE_FULL
  | WaitTimeout => TIMEOUT_EXCEEDED
  | UpdateFailed _ => CACHE_DICTIONARY_UPDATE_FAIL
  | UpdateSuppressed _ => CACHE_DICTIONARY_UPDATE_FAIL
  end.

Inductive Result (A : Type) : Type :=
| Ok (a : A)
| Throw (e : Exception)
| Undefined.

Arguments Ok {A} a.
Arguments Throw {A} e.
Arguments Undefined {A}.

#[global] Instance Result_ret : MRet Result := fun _ a => Ok a.
#[global] Instance Result_bind : MBind Result := fun _ _ f m =>
  match m with
  | Ok a => f a
  | Throw e => Throw e
  | Undefined => Undefined
  end.
#[global] Instance Result_fmap : FMap Result := fun _ _ f m =>
  match m with
  | Ok a => Ok (f a)
  | Throw e => Throw e
  | Undefined => Undefined
  end.

(** [v[i]] of a [std::vector] or a [PODArray]: unchecked. *)
Definition at_index {A} (v : list A) (i : nat) : Result A :=
  match v !! i with
  | Some a => Ok a
  | None => Undefined
  end.

(** Computations of the query thread: they read and change a world (the
    storage, the update queue, whatever the workers did meanwhile) and end
    in one of the three outcomes.  The world survives an exception. *)
Definition Exec (W A : Type) : Type := W -> Result A * W.

Definition exec_ret {W A} (a : A) : Exec W A := fun w => (Ok a, w).
Definition exec_bind {W A B} (m : Exec W A) (k : A -> Exec W B) : Exec W B :=
  fun w =>
    match m w with
    | (Ok a, w') => k a w'
    | (Throw e, w') => (Throw e, w')
    | (Undefined, w') => (Undefined, w')
    end.
Definition exec_lift {W A} (r : Result A) : Exec W A := fun w => (r, w).

Declare Scope exec_scope.
Delimit Scope exec_scope with exec.
Notation "'do' x <- m ; k" := (exec_bind m (fun x => k))
  (at level 10, x name, m at level 100, k at level 200,
   format "'[v' 'do'  x  <-  m ; '/' k ']'") : exec_scope.
Notation "'do_' m ; k" := (exec_bind m (fun _ => k))
  (at level 10, m at level 100, k at level 200,
   format "'[v' 'do_'  m ; '/' k ']'") : exec_scope.

(** The mutable members of the dictionary that [update] touches.
    [last_exception] is a [std::exception_ptr]: empty or an exception.
    Times are ticks of [std::chrono::system_clock]; the zero time point is
    [0]. *)
Record CacheDictionary (Storage Rnd : Type) : Type := {
  cache_storage : Storage;
  error_count : Z;
  last_exception : option Exception;
  backoff_end_time : Z;
  rnd_engine : Rnd
}.
Arguments cache_storage {Storage Rnd} _.
Arguments error_count {Storage Rnd} _.
Arguments last_exception {Storage Rnd} _.
Arguments backoff_end_time {Storage Rnd} _.
Arguments rnd_engine {Storage Rnd} _.

(** [DataTypePtr]: only passed around. *)
Inductive DataType : Type :=
| DataTypeUInt64
| DataTypeNamed (type_name : string).

(** ** Columns, attributes and the fetch request *)

(** A column is the list of its rows. *)
Abbreviation Column Field := (list Field) (only parsing).

(** A block of the source: its columns, the key columns first. *)
Abbreviation Block Field := (list (list Field)) (only parsing).

Section Dictionary.

Context {Field : Type}.
Context {Key : Type} `{Countable Key}.

#[local] Abbreviation Column := (list Field) (only parsing).
#[local] Abbreviation Block := (list (list Field)) (only parsing).

(** [IColumn::insertFrom (src, n)]: append row [n] of [src]. *)
Definition insertFrom (dst src : Column) (n : nat) : Result Column :=
  v ← at_index src n; Ok (dst ++ [v]).

(** [IColumn::insert (value)]. *)
Definition insert_value (dst : Column) (v : Field) : Column := dst ++ [v].

(** [IColumn::insertRangeFrom (src, 0, length)]: throws when the range
    leaves [src]. *)
Definition insertRangeFrom (dst src : Column) (length_ : nat) : Result Column :=
  if decide (length_ ≤ length src)%nat
  then Ok (dst ++ take length_ src)
  else Throw ParameterOutOfBound.

Record DictionaryAttribute : Type := {
  name : string;
  null_value : Field;
  hierarchical : bool
}.

Definition DictionaryStructure : Type := list DictionaryAttribute.

(** Modelled from the spec: [DictionaryStorageFetchRequest], declared in a
    header that is not part of the sources.  "An immutable descriptor built
    from (full schema, requested subset of attribute names).  Exposes: the
    attribute count, whether attribute i was requested, and a factory that
    constructs empty result columns of the right width matching the full
    schema (unrequested positions stay empty placeholders)", together with
    "a filter that, given a full-width result, projects it down to the
    requested subset in the caller's declared order". *)
Record DictionaryStorageFetchRequest : Type := {
  request_structure : DictionaryStructure;
  attributes_to_fetch : list string
}.

(** Modelled from the spec: "the attribute count" of the full schema. *)
Definition attributesSize (request : DictionaryStorageFetchRequest) : nat :=
  length (request_structure request).

(** Modelled from the spec: membership in the "requested subset of
    attribute names". *)
Definition containsAttribute (request : DictionaryStorageFetchRequest)
    (attribute_name : string) : bool :=
  bool_decide (attribute_name ∈ attributes_to_fetch request).

(** Modelled from the spec: "whether attribute i was requested", the
    "boolean requested-mask indexed by attribute position". *)
Definition shouldFillResultColumnWithIndex
    (request : DictionaryStorageFetchRequest) (i : nat) : bool :=
  match request_structure request !! i with
  | Some attribute => containsAttribute request (name attribute)
  | None => false
  end.

(** Modelled from the spec: the "factory that constructs empty result
    columns of the right width matching the full schema". *)
Definition makeAttributesResultColumns
    (request : DictionaryStorageFetchRequest) : list Column :=
  replicate (attributesSize request) [].

(** Modelled from the spec: the position of an attribute name in the
    schema, for the filter below. *)
Fixpoint attribute_position (structure : DictionaryStructure)
    (attribute_name : string) : option nat :=
  match structure with
  | [] => None
  | attribute :: rest =>
      if decide (name attribute = attribute_name) then Some O
      else S <$> attribute_position rest attribute_name
  end.

(** Modelled from the spec: the columns of the names, "in the caller's
    declared order"; a name that the schema does not have has no column. *)
Fixpoint filter_names (structure : DictionaryStructure) (columns : list Column)
    (names : list string) : Result (list Column) :=
  match names with
  | [] => Ok []
  | attribute_name :: rest =>
      match attribute_position structure attribute_name with
      | Some i =>
          column ← at_index columns i;
          others ← filter_names structure columns rest;
          Ok (column :: others)
      | None => filter_names structure columns rest
      end
  end.

(** Modelled from the spec: the "filter that, given a full-width result,
    projects it down to the requested subset in the caller's declared
    order". *)
Definition filterRequestedColumns (request : DictionaryStorageFetchRequest)
    (columns : list Column) : Result (list Column) :=
  filter_names (request_structure request) columns (attributes_to_fetch request).

(** Modelled from the spec: [DefaultValueProvider], from a header that is
    not part of the sources: the "null/default sentinel" of the attribute,
    or the rows of the "caller-supplied default" column when there is
    one. *)
Record DefaultValueProvider : Type := {
  default_value : Field;
  default_values_column : option Column
}.

(** Modelled from the spec: the default of a row, read unchecked from the
    caller's column. *)
Definition getDefaultValue (provider : DefaultValueProvider) (row : nat)
    : Result Field :=
  match default_values_column provider with
  | Some column => at_index column row
  | None => Ok (default_value provider)
  end.

(** ** The result of a lookup in the storage *)

Record FetchResult : Type := {
  fetched_columns : list Column;
  found_keys_to_fetched_columns_index : gmap Key nat;
  expired_keys_to_fetched_columns_index : gmap Key nat;
  not_found_or_expired_keys : list Key;
  not_found_or_expired_keys_indexes : list nat
}.

(** ** The update unit *)

Record CacheDictionaryUpdateUnit : Type := {
  requested_simple_keys : list Key;
  requested_complex_key_columns : list Column;
  requested_complex_key_rows : list nat;
  request : DictionaryStorageFetchRequest;
  fetched_columns_during_update : list Column;
  requested_keys_to_fetched_columns_during_update_index : gmap Key nat
}.

(** Modelled from the spec: the two constructors of the update unit, which
    the sources only call.  A unit is born with "an output column vector
    populated by the worker" (the empty result columns of its request) and
    an empty "mapping update_index from key to row in that output". *)
Definition make_simple_update_unit (requested_keys : list Key)
    (request_ : DictionaryStorageFetchRequest) : CacheDictionaryUpdateUnit :=
  {| requested_simple_keys := requested_keys;
     requested_complex_key_columns := [];
     requested_complex_key_rows := [];
     request := request_;
     fetched_columns_during_update := makeAttributesResultColumns request_;
     requested_keys_to_fetched_columns_during_update_index := ∅ |}.

Definition make_complex_update_unit (key_columns : list Column)
    (requested_rows : list nat) (request_ : DictionaryStorageFetchRequest)
    : CacheDictionaryUpdateUnit :=
  {| requested_simple_keys := [];
     requested_complex_key_columns := key_columns;
     requested_complex_key_rows := requested_rows;
     request := request_;
     fetched_columns_during_update := makeAttributesResultColumns request_;
     requested_keys_to_fetched_columns_during_update_index := ∅ |}.

(** ** Merging *)

(** The body of [for (auto key : keys)] with its running index. *)
Fixpoint for_each_key (body : nat -> Key -> Column -> Result Column)
    (key_index : nat) (keys : list Key) (column : Column) : Result Column :=
  match keys with
  | [] => Ok column
  | key :: rest =>
      column' ← body key_index key column;
      for_each_key body (S key_index) rest column'
  end.

(** The body of [for (fetch_request_index = 0; ...)] over the columns that
    [makeAttributesResultColumns] made: iteration [i] works on column [i]
    only. *)
Fixpoint for_each_attribute (body : nat -> Column -> Result Column)
    (fetch_request_index : nat) (aggregated_columns : list Column)
    : Result (list Column) :=
  match aggregated_columns with
  | [] => Ok []
  | aggregated_column :: rest =>
      column ← body fetch_request_index aggregated_column;
      others ← for_each_attribute body (S fetch_request_index) rest;
      Ok (column :: others)
  end.

Definition aggregateColumnsInOrderOfKeys
    (keys : list Key)
    (request_ : DictionaryStorageFetchRequest)
    (fetched_columns_ : list Column)
    (found_index expired_index : gmap Key nat) : Result (list Column) :=
  for_each_attribute
    (fun fetch_request_index aggregated_column =>
       if negb (shouldFillResultColumnWithIndex request_ fetch_request_index)
       then Ok aggregated_column
       else
         fetched_column ← at_index fetched_columns_ fetch_request_index;
         for_each_key
           (fun _ key column =>
              match expired_index !! key with
              | Some row => insertFrom column fetched_column row
              | None =>
                  match found_index !! key with
                  | Some row => insertFrom column fetched_column row
                  | None => Ok column
                  end
              end)
           O keys aggregated_column)
    O (makeAttributesResultColumns request_).

Definition aggregateColumns
    (keys : list Key)
    (request_ : DictionaryStorageFetchRequest)
    (fetched_columns_from_storage : list Column)
    (found_keys_to_fetched_columns_from_storage_index : gmap Key nat)
    (fetched_columns_during_update_ : list Column)
    (found_keys_to_fetched_columns_during_update_index : gmap Key nat)
    (default_value_providers : list DefaultValueProvider)
    : Result (list Column) :=
  for_each_attribute
    (fun fetch_request_index aggregated_column =>
       if negb (shouldFillResultColumnWithIndex request_ fetch_request_index)
       then Ok aggregated_column
       else
         fetched_column_from_storage ←
           at_index fetched_columns_from_storage fetch_request_index;
         fetched_column_during_update ←
           at_index fetched_columns_during_update_ fetch_request_index;
         default_value_provider ←
           at_index default_value_providers fetch_request_index;
         for_each_key
           (fun key_index key column =>
              match found_keys_to_fetched_columns_from_storage_index !! key with
              | Some row => insertFrom column fetched_column_from_storage row
              | None =>
                  match found_keys_to_fetched_columns_during_update_index !! key with
                  | Some row => insertFrom column fetched_column_during_update row
                  | None =>
                      insert_value column <$>
                        getDefaultValue default_value_provider key_index
                  end
              end)
           O keys aggregated_column)
    O (makeAttributesResultColumns request_).

(** ** The query pipeline *)

Inductive DictionaryKeyType : Type := simple | complex.

Record CacheDictionaryConfiguration : Type := {
  dictionary_key_type : DictionaryKeyType;
  dict_struct : DictionaryStructure;
  allow_read_expired_keys : bool
}.

(** [DictionaryKeysExtractor (key_columns).getKeys ()], from a header that
    is not part of the sources: taken as given. *)
Class DictionaryKeysExtractor : Type :=
  getKeys : list Column -> list Key.

(** What a query sees of the rest of the dictionary: the lookup in the
    storage (under the write lock) and the two calls into the update queue.
    [waitForCurrentUpdateFinish] answers with the unit as the worker left
    it: the unit is one object shared by the query and the worker. *)
Class CacheDictionaryWorld (World : Type) : Type := {
  fetchColumnsForKeys :
    list Key -> DictionaryStorageFetchRequest -> Exec World FetchResult;
  returnsFetchedColumnsInOrderOfRequestedKeys : World -> bool;
  tryPushToUpdateQueueOrThrow : CacheDictionaryUpdateUnit -> Exec World unit;
  waitForCurrentUpdateFinish :
    CacheDictionaryUpdateUnit -> Exec World CacheDictionaryUpdateUnit
}.

(** [a - b] on [size_t]. *)
Definition size_t_sub (a b : Z) : Z := (a - b) mod 2 ^ 64.

(** The loop that builds [default_value_providers]: the columns of defaults
    are consumed in the order of the attributes of the structure. *)
Fixpoint make_default_value_providers
    (attributes : list DictionaryAttribute)
    (request_ : DictionaryStorageFetchRequest)
    (default_values_columns : list (option Column))
    (default_values_column_index : nat) : Result (list DefaultValueProvider) :=
  match attributes with
  | [] => Ok []
  | dictionary_attribute :: rest =>
      if containsAttribute request_ (name dictionary_attribute) then
        column ← at_index default_values_columns default_values_column_index;
        others ← make_default_value_providers rest request_
                   default_values_columns (S default_values_column_index);
        Ok ({| default_value := null_value dictionary_attribute;
               default_values_column := column |} :: others)
      else
        others ← make_default_value_providers rest request_
                   default_values_columns default_values_column_index;
        Ok ({| default_value := null_value dictionary_attribute;
               default_values_column := None |} :: others)
  end.

Section Query.

Context {World : Type} `{!CacheDictionaryWorld World}.
Context `{!DictionaryKeysExtractor}.
Variable config : CacheDictionaryConfiguration.

Definition make_update_unit (key_columns : list Column)
    (result_of_fetch_from_storage : FetchResult)
    (request_ : DictionaryStorageFetchRequest) : CacheDictionaryUpdateUnit :=
  match dictionary_key_type config with
  | simple =>
      make_simple_update_unit
        (not_found_or_expired_keys result_of_fetch_from_storage) request_
  | complex =>
      make_complex_update_unit key_columns
        (not_found_or_expired_keys_indexes result_of_fetch_from_storage) request_
  end.

(** The two returns shared by the all-found and the async branch. *)
Definition columns_from_storage (keys : list Key)
    (request_ : DictionaryStorageFetchRequest)
    (result_of_fetch_from_storage : FetchResult)
    (source_returns_fetched_columns_in_order_of_keys : bool)
    : Result (list Column) :=
  if source_returns_fetched_columns_in_order_of_keys
  then filterRequestedColumns request_
         (fetched_columns result_of_fetch_from_storage)
  else
    aggregated_columns ←
      aggregateColumnsInOrderOfKeys keys request_
        (fetched_columns result_of_fetch_from_storage)
        (found_keys_to_fetched_columns_index result_of_fetch_from_storage)
        (expired_keys_to_fetched_columns_index result_of_fetch_from_storage);
    filterRequestedColumns request_ aggregated_columns.

(** What follows the sync update in [getColumnsImpl]. *)
Definition merge_after_update (keys : list Key)
    (request_ : DictionaryStorageFetchRequest)
    (result_of_fetch_from_storage : FetchResult)
    (fetched_columns_during_update_ : list Column)
    (update_index : gmap Key nat)
    (default_values_columns : list (option Column)) : Result (list Column) :=
  default_value_providers ←
    make_default_value_providers (dict_struct config) request_
      default_values_columns O;
  aggregated_columns ←
    aggregateColumns keys request_
      (fetched_columns result_of_fetch_from_storage)
      (found_keys_to_fetched_columns_index result_of_fetch_from_storage)
      fetched_columns_during_update_ update_index default_value_providers;
  filterRequestedColumns request_ aggregated_columns.

Definition getColumnsImpl
    (attribute_names : list string)
    (key_columns : list Column)
    (keys : list Key)
    (default_values_columns : list (option Column)) : Exec World (list Column) :=
  (let request_ := {| request_structure := dict_struct config;
                      attributes_to_fetch := attribute_names |} in
   do result_of_fetch_from_storage <- fetchColumnsForKeys keys request_;
   let expired_keys_size :=
     Z.of_nat (size (expired_keys_to_fetched_columns_index
                       result_of_fetch_from_storage)) in
   let found_keys_size :=
     Z.of_nat (size (found_keys_to_fetched_columns_index
                       result_of_fetch_from_storage)) in
   let not_found_keys_size :=
     size_t_sub (Z.of_nat (length keys)) (expired_keys_size + found_keys_size) in
   let update_unit :=
     make_update_unit key_columns result_of_fetch_from_storage request_ in
   fun world =>
   let source_returns_fetched_columns_in_order_of_keys :=
     returnsFetchedColumnsInOrderOfRequestedKeys world in
   (if (not_found_keys_size =? 0) && (expired_keys_size =? 0) then
      exec_lift
        (columns_from_storage keys request_ result_of_fetch_from_storage
           source_returns_fetched_columns_in_order_of_keys)
    else if (not_found_keys_size =? 0) && (0 <? expired_keys_size)
            && allow_read_expired_keys config then
      do_ tryPushToUpdateQueueOrThrow update_unit;
      exec_lift
        (columns_from_storage keys request_ result_of_fetch_from_storage
           source_returns_fetched_columns_in_order_of_keys)
    else
      do_ tryPushToUpdateQueueOrThrow update_unit;
      do updated_unit <- waitForCurrentUpdateFinish update_unit;
      exec_lift
        (merge_after_update keys request_ result_of_fetch_from_storage
           (fetched_columns_during_update updated_unit)
           (requested_keys_to_fetched_columns_during_update_index updated_unit)
           default_values_columns)) world)%exec.

(** [std::vector::front]. *)
Definition front {A} (v : list A) : Result A := at_index v O.

(** The two lists of types are unnamed parameters in the source: unused. *)
Definition getColumns
    (attribute_names : list string)
    (result_types : list DataType)
    (key_columns : list Column)
    (key_types : list DataType)
    (default_values_columns : list (option Column)) : Exec World (list Column) :=
  let keys := getKeys key_columns in
  getColumnsImpl attribute_names key_columns keys default_values_columns.

Definition getColumn
    (attribute_name : string)
    (result_type : DataType)
    (key_columns : list Column)
    (key_types : list DataType)
    (default_values_column : option Column) : Exec World Column :=
  (do columns <- getColumns [attribute_name] [result_type] key_columns
                   key_types [default_values_column];
   exec_lift (front columns))%exec.

(** The final loop of [hasKeys]. *)
Definition has_key (found_index update_index : gmap Key nat) (key : Key) : bool :=
  match found_index !! key with
  | Some _ => true
  | None =>
      match update_index !! key with
      | Some _ => true
      | None => false
      end
  end.

Definition hasKeys (key_columns : list Column) : Exec World (list bool) :=
  (let keys := getKeys key_columns in
   let request_ := {| request_structure := dict_struct config;
                      attributes_to_fetch := [] |} in
   do result_of_fetch_from_storage <- fetchColumnsForKeys keys request_;
   let expired_keys_size :=
     Z.of_nat (size (expired_keys_to_fetched_columns_index
                       result_of_fetch_from_storage)) in
   let found_keys_size :=
     Z.of_nat (size (found_keys_to_fetched_columns_index
                       result_of_fetch_from_storage)) in
   let not_found_keys_size :=
     size_t_sub (Z.of_nat (length keys)) (found_keys_size + expired_keys_size) in
   let update_unit :=
     make_update_unit key_columns result_of_fetch_from_storage request_ in
   let result_ (update_index : gmap Key nat) : list bool :=
     map (has_key (found_keys_to_fetched_columns_index
                     result_of_fetch_from_storage) update_index) keys in
   if (not_found_keys_size =? 0) && (expired_keys_size =? 0) then
     exec_ret (replicate (length keys) true)
   else if (not_found_keys_size =? 0) && (0 <? expired_keys_size)
           && allow_read_expired_keys config then
     do_ tryPushToUpdateQueueOrThrow update_unit;
     exec_ret (replicate (length keys) true)
   else if 0 <? not_found_keys_size then
     do_ tryPushToUpdateQueueOrThrow update_unit;
     do updated_unit <- waitForCurrentUpdateFinish update_unit;
     exec_ret
       (result_ (requested_keys_to_fetched_columns_during_update_index
                   updated_unit))
   else
     exec_ret (result_ ∅))%exec.

End Query.

(** ** The worker: [update] *)

(** One [stream->read ()]: a block, or an exception.  The stream ends at the
    end of the list or at the first block without columns ([Block::operator
    bool]); an exception of [readSuffix] is an exception of the read that
    follows the last block. *)
Inductive ReadEvent : Type :=
| Read (block : Block)
| ReadThrows (e : Exception).

Definition BlockInputStream : Type := list ReadEvent.

(** The external source, reached through [getSourceAndUpdateIfNeeded]; an
    exception there, in [loadIds], [loadKeys] or [readPrefix] is an
    exception of the load. *)
Class IDictionarySource (Source : Type) : Type := {
  loadIds : Source -> list Key -> Result BlockInputStream;
  loadKeys : Source -> list Column -> list nat -> Result BlockInputStream
}.

(** The storage behind [cache_storage_ptr]. *)
Class ICacheDictionaryStorage (Storage : Type) : Type := {
  storage_fetchColumnsForKeys :
    Storage -> list Key -> DictionaryStorageFetchRequest -> FetchResult * Storage;
  storage_returnsFetchedColumnsInOrderOfRequestedKeys : Storage -> bool;
  insertColumnsForKeys : Storage -> list Key -> list Column -> Storage
}.

(** [std::chrono::seconds (n)] as a duration of the system clock, whose
    tick is a nanosecond. *)
Definition seconds (n : Z) : Z := n * 1000000000.

(** [++error_count] on [size_t]. *)
Definition size_t_incr (n : Z) : Z := (n + 1) mod 2 ^ 64.

(** The loop over [fetched_columns_during_update] for one block.  What was
    appended before an exception stays appended. *)
Fixpoint insert_block_columns
    (fetch_request : DictionaryStorageFetchRequest)
    (block : Block) (skip_keys_size_offset keys_size : nat)
    (index_of_attribute : nat) (columns : list Column)
    : Result unit * list Column :=
  match columns with
  | [] => (Ok tt, [])
  | column_to_update :: rest =>
      if shouldFillResultColumnWithIndex fetch_request index_of_attribute then
        match block !! (skip_keys_size_offset + index_of_attribute)%nat with
        | None => (Throw PositionOutOfBound, columns)
        | Some column =>
            match insertRangeFrom column_to_update column keys_size with
            | Ok updated =>
                let '(outcome, rest') :=
                  insert_block_columns fetch_request block skip_keys_size_offset
                    keys_size (S index_of_attribute) rest in
                (outcome, updated :: rest')
            | Throw e => (Throw e, columns)
            | Undefined => (Undefined, columns)
            end
        end
      else
        let '(outcome, rest') :=
          insert_block_columns fetch_request block skip_keys_size_offset
            keys_size (S index_of_attribute) rest in
        (outcome, column_to_update :: rest')
  end.

(** [index[keys[i]] = found_num + i] for every [i]. *)
Fixpoint record_fetched_keys (found_num i : nat) (keys : list Key)
    (index : gmap Key nat) : gmap Key nat :=
  match keys with
  | [] => index
  | fetched_key_from_source :: rest =>
      record_fetched_keys found_num (S i) rest
        (<[fetched_key_from_source := (found_num + i)%nat]> index)
  end.

Section Worker.

Context {Storage Rnd Source : Type}.
Context `{!ICacheDictionaryStorage Storage} `{!IDictionarySource Source}.
Context `{!DictionaryKeysExtractor}.

(** [calculateDurationWithBackoff (rnd_engine, error_count)], declared
    elsewhere: the seconds to wait and the engine after the draw. *)
Variable calculateDurationWithBackoff : Rnd -> Z -> Z * Rnd.

Variable config : CacheDictionaryConfiguration.

(** [dict_struct.getKeysSize ()]. *)
Variable keys_size_of_structure : nat.

Definition load (source : Source) (update_unit : CacheDictionaryUpdateUnit)
    : Result BlockInputStream :=
  match dictionary_key_type config with
  | simple => loadIds source (requested_simple_keys update_unit)
  | complex =>
      loadKeys source (requested_complex_key_columns update_unit)
        (requested_complex_key_rows update_unit)
  end.

(** The body of [while (Block block = stream->read ())].  Taking a key
    column off a block that has none left is not defined. *)
Definition process_block (block : Block) (found_num : nat)
    (storage : Storage) (update_unit : CacheDictionaryUpdateUnit)
    : Result nat * Storage * CacheDictionaryUpdateUnit :=
  let skip_keys_size_offset := keys_size_of_structure in
  if decide (length block < skip_keys_size_offset)%nat
  then (Undefined, storage, update_unit)
  else
    let key_columns := take skip_keys_size_offset block in
    let block_columns := drop skip_keys_size_offset block in
    let keys := getKeys key_columns in
    let storage' := insertColumnsForKeys storage keys block_columns in
    let '(outcome, columns) :=
      insert_block_columns (request update_unit) block skip_keys_size_offset
        (length keys) O (fetched_columns_during_update update_unit) in
    match outcome with
    | Ok _ =>
        (Ok (found_num + length keys)%nat, storage',
         {| requested_simple_keys := requested_simple_keys update_unit;
            requested_complex_key_columns :=
              requested_complex_key_columns update_unit;
            requested_complex_key_rows := requested_complex_key_rows update_unit;
            request := request update_unit;
            fetched_columns_during_update := columns;
            requested_keys_to_fetched_columns_during_update_index :=
              record_fetched_keys found_num O keys
                (requested_keys_to_fetched_columns_during_update_index
                   update_unit) |})
    | Throw e =>
        (Throw e, storage',
         {| requested_simple_keys := requested_simple_keys update_unit;
            requested_complex_key_columns :=
              requested_complex_key_columns update_unit;
            requested_complex_key_rows := requested_complex_key_rows update_unit;
            request := request update_unit;
            fetched_columns_during_update := columns;
            requested_keys_to_fetched_columns_during_update_index :=
              requested_keys_to_fetched_columns_during_update_index
                update_unit |})
    | Undefined => (Undefined, storage', update_unit)
    end.

Fixpoint read_blocks (stream : BlockInputStream) (found_num : nat)
    (storage : Storage) (update_unit : CacheDictionaryUpdateUnit)
    : Result nat * Storage * CacheDictionaryUpdateUnit :=
  match stream with
  | [] => (Ok found_num, storage, update_unit)
  | ReadThrows e :: _ => (Throw e, storage, update_unit)
  | Read [] :: _ => (Ok found_num, storage, update_unit)
  | Read block :: rest =>
      match process_block block found_num storage update_unit with
      | (Ok found_num', storage', update_unit') =>
          read_blocks rest found_num' storage' update_unit'
      | stopped => stopped
      end
  end.

(** The [try] block up to [stream->readSuffix ()]. *)
Definition fetch_from_source (source : Source) (storage : Storage)
    (update_unit : CacheDictionaryUpdateUnit)
    : Result nat * Storage * CacheDictionaryUpdateUnit :=
  match load source update_unit with
  | Ok stream => read_blocks stream O storage update_unit
  | Throw e => (Throw e, storage, update_unit)
  | Undefined => (Undefined, storage, update_unit)
  end.

(** [update (update_unit_ptr)], run by a worker at the time [now]. *)
Definition update (now : Z) (source : Source)
    (dictionary : CacheDictionary Storage Rnd)
    (update_unit : CacheDictionaryUpdateUnit)
    : Result unit * CacheDictionary Storage Rnd * CacheDictionaryUpdateUnit :=
  if decide (now > backoff_end_time dictionary) then
    match fetch_from_source source (cache_storage dictionary) update_unit with
    | (Ok _, storage', update_unit') =>
        (Ok tt,
         {| cache_storage := storage';
            error_count := 0;
            last_exception := None;
            backoff_end_time := 0;
            rnd_engine := rnd_engine dictionary |},
         update_unit')
    | (Throw e, storage', update_unit') =>
        let error_count' := size_t_incr (error_count dictionary) in
        let '(duration, rnd_engine') :=
          calculateDurationWithBackoff (rnd_engine dictionary) error_count' in
        (Throw (UpdateFailed e),
         {| cache_storage := storage';
            error_count := error_count';
            last_exception := Some e;
            backoff_end_time := now + seconds duration;
            rnd_engine := rnd_engine' |},
         update_unit')
    | (Undefined, storage', update_unit') =>
        (Undefined,
         {| cache_storage := storage';
            error_count := error_count dictionary;
            last_exception := last_exception dictionary;
            backoff_end_time := backoff_end_time dictionary;
            rnd_engine := rnd_engine dictionary |},
         update_unit')
    end
  else
    (Throw (UpdateSuppressed (backoff_end_time dictionary)),
     dictionary, update_unit).

End Worker.

End Dictionary.

Arguments DictionaryAttribute : clear implicits.
Arguments DictionaryStructure : clear implicits.
Arguments DictionaryStorageFetchRequest : clear implicits.
Arguments DefaultValueProvider : clear implicits.
Arguments FetchResult : clear implicits.
Arguments FetchResult _ _ {_ _}.
Arguments CacheDictionaryUpdateUnit : clear implicits.
Arguments CacheDictionaryUpdateUnit _ _ {_ _}.
Arguments CacheDictionaryConfiguration : clear implicits.
Arguments DictionaryKeysExtractor : clear implicits.
Arguments CacheDictionaryWorld : clear implicits.
Arguments CacheDictionaryWorld _ _ {_ _} _.
Arguments IDictionarySource : clear implicits.
Arguments ICacheDictionaryStorage : clear implicits.
Arguments ICacheDictionaryStorage _ _ {_ _} _.
Arguments ReadEvent : clear implicits.
Arguments BlockInputStream : clear implicits.

(** ** Notions of the specification *)

Section Notions.

Context {Field Key : Type} `{Countable Key}.

(** Step 4 of the pipeline: the three ways a query goes on after the
    lookup. *)
Inductive Branch : Type := AllFound | AsyncRefresh | SyncUpdate.

Definition classify (allow_read_expired_keys_ : bool) (keys : list Key)
    (result : FetchResult Field Key) : Branch :=
  let expired_keys_size :=
    Z.of_nat (size (expired_keys_to_fetched_columns_index result)) in
  let found_keys_size :=
    Z.of_nat (size (found_keys_to_fetched_columns_index result)) in
  let not_found_keys_size :=
    size_t_sub (Z.of_nat (length keys)) (expired_keys_size + found_keys_size) in
  if (not_found_keys_size =? 0) && (expired_keys_size =? 0) then AllFound
  else if (not_found_keys_size =? 0) && (0 <? expired_keys_size)
          && allow_read_expired_keys_ then AsyncRefresh
  else SyncUpdate.

(** Step 5: "Precedence per key: found-in-storage > fetched-during-update >
    default." *)
Definition row_by_precedence
    (found_index : gmap Key nat) (column_from_storage : Column Field)
    (update_index : gmap Key nat) (column_during_update : Column Field)
    (provider : DefaultValueProvider Field)
    (key_index : nat) (key : Key) : Result Field :=
  match found_index !! key with
  | Some row => at_index column_from_storage row
  | None =>
      match update_index !! key with
      | Some row => at_index column_during_update row
      | None => getDefaultValue provider key_index
      end
  end.

(** Modelled from the spec: what the storage, which is not part of the
    sources, promises about a lookup.  "A column vector with one row per
    found-or-expired slot", "two mappings found_index and expired_index
    from key to row number in that vector", which "have disjoint key sets
    and both point within the fetched column vector's row range"; the keys
    of the mappings are keys of the lookup. *)
Record FetchResult_wf (keys : list Key)
    (request_ : DictionaryStorageFetchRequest Field)
    (result : FetchResult Field Key) : Prop := {
  wf_keys :
    dom (found_keys_to_fetched_columns_index result) ∪
    dom (expired_keys_to_fetched_columns_index result) ⊆ list_to_set keys;
  wf_disjoint :
    dom (found_keys_to_fetched_columns_index result) ##
    dom (expired_keys_to_fetched_columns_index result);
  wf_rows :
    ∀ i column,
      shouldFillResultColumnWithIndex request_ i = true ->
      fetched_columns result !! i = Some column ->
      length column =
        (size (found_keys_to_fetched_columns_index result) +
         size (expired_keys_to_fetched_columns_index result))%nat;
  wf_range :
    ∀ key row,
      found_keys_to_fetched_columns_index result !! key = Some row ∨
      expired_keys_to_fetched_columns_index result !! key = Some row ->
      (row < size (found_keys_to_fetched_columns_index result) +
             size (expired_keys_to_fetched_columns_index result))%nat
}.

(** The keys of the blocks that [read_blocks] takes from a stream. *)
Fixpoint stream_keys `{!DictionaryKeysExtractor Field Key}
    (keys_size_of_structure : nat) (stream : BlockInputStream Field)
    : list Key :=
  match stream with
  | [] => []
  | ReadThrows _ :: _ => []
  | Read [] :: _ => []
  | Read block :: rest =>
      getKeys (take keys_size_of_structure block) ++
      stream_keys keys_size_of_structure rest
  end.

(** The keys that the source returns for a unit. *)
Definition source_keys {Source : Type} `{!IDictionarySource Field Key Source}
    `{!DictionaryKeysExtractor Field Key}
    (config : CacheDictionaryConfiguration Field)
    (keys_size_of_structure : nat) (source : Source)
    (update_unit : CacheDictionaryUpdateUnit Field Key) : list Key :=
  match load config source update_unit with
  | Ok stream => stream_keys keys_size_of_structure stream
  | _ => []
  end.

(** The columns that the request fills all have [n] rows. *)
Definition filled_columns_have (n : nat)
    (update_unit : CacheDictionaryUpdateUnit Field Key) : Prop :=
  ∀ i column,
    shouldFillResultColumnWithIndex (request update_unit) i = true ->
    fetched_columns_during_update update_unit !! i = Some column ->
    length column = n.

(** The columns that the request fills all have at least [n] rows. *)
Definition filled_columns_reach (n : nat)
    (update_unit : CacheDictionaryUpdateUnit Field Key) : Prop :=
  ∀ i column,
    shouldFillResultColumnWithIndex (request update_unit) i = true ->
    fetched_columns_during_update update_unit !! i = Some column ->
    (n ≤ length column)%nat.

(** What [update] makes of the outcome of the fetch. *)
Definition outcome_of_fetch {A} (fetched : Result A) : Result unit :=
  match fetched with
  | Ok _ => Ok tt
  | Throw e => Throw (UpdateFailed e)
  | Undefined => Undefined
  end.

End Notions.

(** ** Hierarchy: [isIn] *)

(** The value [0xFF] that [isInImpl] writes for "not calculated". *)
Definition not_calculated : Z := 255.

(** [AncestorType] of [isInImpl]: an array or a single value, read through
    [getAt]. *)
Inductive Ancestors : Type :=
| AncestorVector (ancestor_ids : list Z)
| AncestorConstant (ancestor_id : Z).

Definition getAt (ancestors : Ancestors) (idx : nat) : Result Z :=
  match ancestors with
  | AncestorVector arr => at_index arr idx
  | AncestorConstant value => Ok value
  end.

Section Hierarchy.

Context {World : Type}.

(** [toParent (ids, out)]: the parents of [ids], through the query path. *)
Variable toParent : list Z -> Exec World (list Z).

(** [hierarchical_attribute->null_value.get<UInt64> ()]. *)
Variable null_value : Z.

(** [DBMS_HIERARCHICAL_DICTIONARY_MAX_DEPTH], defined elsewhere. *)
Variable MAX_DEPTH : nat.

(** One run of [while (out_idx < out_size)]: [out] from [out_idx] on,
    the array [children] as written so far and the two cursors.  Returns the
    rest of [out], [children] and [new_children_idx]. *)
Fixpoint scan_positions (ancestor_ids : Ancestors) (parents : list Z)
    (out : list Z) (children : list Z) (parents_idx new_children_idx : nat)
    : Result (list Z * list Z * nat) :=
  match out with
  | [] => Ok ([], children, new_children_idx)
  | out_value :: out_rest =>
      if decide (out_value ≠ not_calculated) then
        '(out', children', n) ←
          scan_positions ancestor_ids parents out_rest children
            parents_idx new_children_idx;
        Ok (out_value :: out', children', n)
      else
        parent ← at_index parents parents_idx;
        if decide (parent = null_value) then
          '(out', children', n) ←
            scan_positions ancestor_ids parents out_rest children
              (S parents_idx) new_children_idx;
          Ok (0 :: out', children', n)
        else
          ancestor ← getAt ancestor_ids parents_idx;
          if decide (parent = ancestor) then
            '(out', children', n) ←
              scan_positions ancestor_ids parents out_rest children
                (S parents_idx) new_children_idx;
            Ok (1 :: out', children', n)
          else
            child ← at_index children new_children_idx;
            if decide (child = parent) then
              '(out', children', n) ←
                scan_positions ancestor_ids parents out_rest children
                  (S parents_idx) new_children_idx;
              Ok (1 :: out', children', n)
            else
              '(out', children', n) ←
                scan_positions ancestor_ids parents out_rest
                  (<[new_children_idx := parent]> children)
                  (S parents_idx) (S new_children_idx);
              Ok (out_value :: out', children', n)
  end.

(** [for (size_t i = 0; i < DBMS_HIERARCHICAL_DICTIONARY_MAX_DEPTH; ++i)]
    with [remaining] iterations to go. *)
Fixpoint isIn_iterations (remaining : nat) (ancestor_ids : Ancestors)
    (out children parents : list Z) : Exec World (list Z) :=
  match remaining with
  | O => exec_ret out
  | S remaining' =>
      (do scanned <- exec_lift
                       (scan_positions ancestor_ids parents out children O O);
       let '(out', children', new_children_idx) := scanned in
       if decide (new_children_idx = O) then exec_ret out'
       else
         let children'' := take new_children_idx children' in
         do parents' <- toParent children'';
         isIn_iterations remaining' ancestor_ids out' children'' parents')%exec
  end.

Definition isInImpl (child_ids : list Z) (ancestor_ids : Ancestors)
    (out_size : nat) : Exec World (list Z) :=
  isIn_iterations MAX_DEPTH ancestor_ids
    (replicate out_size not_calculated) (replicate out_size 0) child_ids.

Definition isInVectorVector (child_ids ancestor_ids : list Z) (out_size : nat)
    : Exec World (list Z) :=
  isInImpl child_ids (AncestorVector ancestor_ids) out_size.

Definition isInVectorConstant (child_ids : list Z) (ancestor_id : Z)
    (out_size : nat) : Exec World (list Z) :=
  isInImpl child_ids (AncestorConstant ancestor_id) out_size.

(** The first loop of [isInConstantVector]: [child] and [ancestors] after
    at most [remaining] calls of [toParent]. *)
Fixpoint find_all_ancestors (remaining : nat) (child : list Z)
    (ancestors : list Z) : Exec World (list Z) :=
  match remaining with
  | O => exec_ret ancestors
  | S remaining' =>
      (do parent <- toParent child;
       do parent_0 <- exec_lift (at_index parent O);
       if decide (parent_0 = null_value) then exec_ret ancestors
       else
         find_all_ancestors remaining' (<[O := parent_0]> child)
           (ancestors ++ [parent_0]))%exec
  end.

(** The second loop: [out[i] = std::find (ancestors, ancestor_ids[i]) !=
    ancestors.end ()]. *)
Fixpoint search_ancestors (ancestors ancestor_ids : list Z) (i : nat)
    (out_size : nat) : Result (list Z) :=
  match out_size with
  | O => Ok []
  | S out_size' =>
      ancestor_id ← at_index ancestor_ids i;
      rest ← search_ancestors ancestors ancestor_ids (S i) out_size';
      Ok ((if decide (ancestor_id ∈ ancestors) then 1 else 0) :: rest)
  end.

Definition isInConstantVector (child_id : Z) (ancestor_ids : list Z)
    (out_size : nat) : Exec World (list Z) :=
  (do ancestors <- find_all_ancestors MAX_DEPTH [child_id] [child_id];
   exec_lift (search_ancestors ancestors ancestor_ids O out_size))%exec.

End Hierarchy.

(** [toParent] with a count of its calls next to the world. *)
Definition counting {World : Type} (toParent : list Z -> Exec World (list Z))
    : list Z -> Exec (World * nat) (list Z) :=
  fun ids state =>
    let '(parents, world) := toParent ids state.1 in
    (parents, (world, S state.2)).


(** [toParent] of a dictionary with simple keys: one query for the
    hierarchical attribute, with no column of defaults. *)
Section ToParent.

Context {Field World : Type}.
Context `{!CacheDictionaryWorld Field Z World}.

(** [Field::get<UInt64> ()], and the rows of a [ColumnVector<UInt64>]. *)
Variable get_UInt64 : Field -> Z.

Variable config : CacheDictionaryConfiguration Field.

(** [setupHierarchicalAttribute]: the last attribute marked hierarchical
    (the check of its type is a matter of the constructor). *)
Definition hierarchical_attribute : option (DictionaryAttribute Field) :=
  last (filter (fun attribute => hierarchical attribute = true)
          (dict_struct config)).

Definition toParent (ids : list Z) : Exec World (list Z) :=
  match dictionary_key_type config with
  | simple =>
      match hierarchical_attribute with
      | Some attribute =>
          (do columns <- getColumnsImpl config [name attribute] [[]] ids [None];
           do column <- exec_lift (front columns);
           exec_ret (map get_UInt64 column))%exec
      | None => exec_lift Undefined
      end
  | complex => exec_lift (Throw UnsupportedMethod)
  end.

End ToParent.

(** ** One query thread and one worker, run in sequence *)

Section Sequential.

Context {Field Key : Type} `{Countable Key}.
Context {Storage Rnd Source : Type}.
Context `{!ICacheDictionaryStorage Field Key Storage}.
Context `{!IDictionarySource Field Key Source}.
Context `{!DictionaryKeysExtractor Field Key}.

Variable calculateDurationWithBackoff : Rnd -> Z -> Z * Rnd.
Variable config : CacheDictionaryConfiguration Field.
Variable keys_size_of_structure : nat.

Record SequentialWorld : Type := {
  world_dictionary : CacheDictionary Storage Rnd;
  world_source : Source;
  world_clock : Z;
  world_queue : list (CacheDictionaryUpdateUnit Field Key);
  world_max_update_queue_size : nat
}.

Definition with_dictionary (world : SequentialWorld)
    (dictionary : CacheDictionary Storage Rnd)
    (queue : list (CacheDictionaryUpdateUnit Field Key)) : SequentialWorld :=
  {| world_dictionary := dictionary;
     world_source := world_source world;
     world_clock := world_clock world;
     world_queue := queue;
     world_max_update_queue_size := world_max_update_queue_size world |}.

Definition with_storage (dictionary : CacheDictionary Storage Rnd)
    (storage : Storage) : CacheDictionary Storage Rnd :=
  {| cache_storage := storage;
     error_count := error_count dictionary;
     last_exception := last_exception dictionary;
     backoff_end_time := backoff_end_time dictionary;
     rnd_engine := rnd_engine dictionary |}.

(** The worker loop over the queued units, oldest first; the outcome is
    that of the last unit, the one the query waits for. *)
Fixpoint run_worker (now : Z) (source : Source)
    (queue : list (CacheDictionaryUpdateUnit Field Key))
    (dictionary : CacheDictionary Storage Rnd)
    (last_outcome : Result (CacheDictionaryUpdateUnit Field Key))
    : Result (CacheDictionaryUpdateUnit Field Key) * CacheDictionary Storage Rnd :=
  match queue with
  | [] => (last_outcome, dictionary)
  | update_unit :: rest =>
      match update calculateDurationWithBackoff config keys_size_of_structure
              now source dictionary update_unit with
      | (Ok _, dictionary', update_unit') =>
          run_worker now source rest dictionary' (Ok update_unit')
      | (Throw e, dictionary', _) =>
          run_worker now source rest dictionary' (Throw e)
      | (Undefined, dictionary', _) => (Undefined, dictionary')
      end
  end.

(** Modelled from the spec: the update queue ([CacheDictionaryUpdateQueue],
    not part of the sources), reduced to the run of one query.  "tryPush: on
    space, enqueues, returns; on full, fails with queue-full."  "Worker
    loop: dequeue; invoke the Source Driver; on success, populate the
    unit's output and index map; on failure, transition to done(err)."
    "waitForFinish blocks until the unit's state is terminal; on terminal
    err, re-raises the captured error to this waiter."  The worker runs
    when the query waits. *)
#[local] Instance sequential_world : CacheDictionaryWorld Field Key SequentialWorld := {
  fetchColumnsForKeys keys request_ world :=
    let '(result, storage) :=
      storage_fetchColumnsForKeys
        (cache_storage (world_dictionary world)) keys request_ in
    (Ok result,
     with_dictionary world (with_storage (world_dictionary world) storage)
       (world_queue world));
  returnsFetchedColumnsInOrderOfRequestedKeys world :=
    storage_returnsFetchedColumnsInOrderOfRequestedKeys
      (cache_storage (world_dictionary world));
  tryPushToUpdateQueueOrThrow update_unit world :=
    if decide (length (world_queue world) < world_max_update_queue_size world)%nat
    then (Ok tt,
          with_dictionary world (world_dictionary world)
            (world_queue world ++ [update_unit]))
    else (Throw QueueFull, world);
  waitForCurrentUpdateFinish update_unit world :=
    let '(outcome, dictionary) :=
      run_worker (world_clock world) (world_source world) (world_queue world)
        (world_dictionary world) (Throw WaitTimeout) in
    (outcome, with_dictionary world dictionary [])
}.

End Sequential.

Arguments SequentialWorld : clear implicits.
Arguments SequentialWorld _ _ {_ _} _ _ _.

(** ** A dictionary of [UInt64] keys and [UInt64] attributes *)

Module UInt64Dictionary.

(** Keys are the rows of the first key column. *)
#[export] Instance extractor : DictionaryKeysExtractor Z Z :=
  fun key_columns => match key_columns with
                     | [] => []
                     | column :: _ => column
                     end.

(** A source that answers [loadIds] from a table, one block with the key
    column and one column per attribute, the keys it does not know left
    out; or that sends the same stream whatever it is asked; or that
    throws. *)
Inductive TableSource : Type :=
| Answers (rows : list (Z * list Z)) (attributes_size : nat)
| Streams (stream : BlockInputStream Z)
| Fails (e : Exception).

Definition rows_for (rows : list (Z * list Z)) (ids : list Z)
    : list (Z * list Z) :=
  filter (fun row => row.1 ∈ ids) rows.

Definition block_of (rows : list (Z * list Z)) (attributes_size : nat)
    : Block Z :=
  map fst rows ::
  map (fun i => map (fun row => nth i row.2 0) rows) (seq 0 attributes_size).

#[export] Instance table_source : IDictionarySource Z Z TableSource := {
  loadIds source ids :=
    match source with
    | Answers rows attributes_size =>
        Ok [Read (block_of (rows_for rows ids) attributes_size)]
    | Streams stream => Ok stream
    | Fails e => Throw e
    end;
  loadKeys source _ _ :=
    match source with
    | Answers _ _ => Ok []
    | Streams stream => Ok stream
    | Fails e => Throw e
    end
}.

(** A storage that answers every lookup from a script and keeps what the
    workers insert. *)
Record ScriptedStorage : Type := {
  script : list Z -> DictionaryStorageFetchRequest Z -> FetchResult Z Z;
  in_order_of_keys : bool;
  inserted : list (list Z * list (Column Z))
}.

#[export] Instance scripted_storage : ICacheDictionaryStorage Z Z ScriptedStorage := {
  storage_fetchColumnsForKeys storage keys request_ :=
    (script storage keys request_, storage);
  storage_returnsFetchedColumnsInOrderOfRequestedKeys := in_order_of_keys;
  insertColumnsForKeys storage keys columns :=
    {| script := script storage;
       in_order_of_keys := in_order_of_keys storage;
       inserted := inserted storage ++ [(keys, columns)] |}
}.

(** No jitter: the duration is [2 ^ (error_count - 1)] seconds, at most
    600. *)
Definition backoff_without_jitter (rnd : unit) (error_count_ : Z) : Z * unit :=
  (Z.min 600 (2 ^ (error_count_ - 1)), rnd).

Definition World : Type := SequentialWorld Z Z ScriptedStorage unit TableSource.

Definition world_of (config : CacheDictionaryConfiguration Z)
    : CacheDictionaryWorld Z Z World :=
  sequential_world backoff_without_jitter config 1.

Definition initial_world (storage : ScriptedStorage) (source : TableSource)
    (now : Z) : World :=
  {| world_dictionary :=
       {| cache_storage := storage;
          error_count := 0;
          last_exception := None;
          backoff_end_time := 0;
          rnd_engine := tt |};
     world_source := source;
     world_clock := now;
     world_queue := [];
     world_max_update_queue_size := 1000 |}.

End UInt64Dictionary.

(** ** Concrete dictionaries *)

Module Examples.

Import UInt64Dictionary.

(** One attribute [a] with null value [0]. *)
Definition structure_a : DictionaryStructure Z :=
  [{| name := "a"; null_value := 0; hierarchical := false |}].

Definition config_a (allow : bool) : CacheDictionaryConfiguration Z :=
  {| dictionary_key_type := simple;
     dict_struct := structure_a;
     allow_read_expired_keys := allow |}.

Definition request_a : DictionaryStorageFetchRequest Z :=
  {| request_structure := structure_a; attributes_to_fetch := ["a"%string] |}.

(** The lookup of the keys [5; 6; 7; 8]: [5] is found with [a = 50], [8] is
    expired with [a = 80], [6] and [7] are absent. *)
Definition mixed_keys : list Z := [5; 6; 7; 8].

Definition mixed_result (request_ : DictionaryStorageFetchRequest Z)
    : FetchResult Z Z :=
  {| fetched_columns :=
       [if shouldFillResultColumnWithIndex request_ 0 then [50; 80] else []];
     found_keys_to_fetched_columns_index := {[ 5 := 0%nat ]};
     expired_keys_to_fetched_columns_index := {[ 8 := 1%nat ]};
     not_found_or_expired_keys := [6; 7; 8];
     not_found_or_expired_keys_indexes := [1; 2; 3]%nat |}.

Definition mixed_storage : ScriptedStorage :=
  {| script := fun _ request_ => mixed_result request_;
     in_order_of_keys := false;
     inserted := [] |}.

(** The source knows [6], [8] and [9]. *)
Definition source_689 : TableSource :=
  Answers [(6, [60]); (8, [81]); (9, [91])] 1.

Definition mixed_world : World := initial_world mixed_storage source_689 100.

(** The lookup of the key [9], expired with [a = 90]. *)
Definition expired_result (request_ : DictionaryStorageFetchRequest Z)
    : FetchResult Z Z :=
  {| fetched_columns :=
       [if shouldFillResultColumnWithIndex request_ 0 then [90] else []];
     found_keys_to_fetched_columns_index := ∅;
     expired_keys_to_fetched_columns_index := {[ 9 := 0%nat ]};
     not_found_or_expired_keys := [9];
     not_found_or_expired_keys_indexes := [0%nat] |}.

Definition expired_storage : ScriptedStorage :=
  {| script := fun _ request_ => expired_result request_;
     in_order_of_keys := false;
     inserted := [] |}.

Definition expired_world : World := initial_world expired_storage source_689 100.

(** The worker, for this dictionary. *)
Definition update_a :=
  update (Storage := ScriptedStorage) (Source := TableSource)
    backoff_without_jitter (config_a false) 1.

Definition fetch_a :=
  fetch_from_source (Storage := ScriptedStorage) (Source := TableSource)
    (config_a false) 1.

Definition fresh_dictionary : CacheDictionary ScriptedStorage unit :=
  world_dictionary mixed_world.

Definition unit_for (keys : list Z) : CacheDictionaryUpdateUnit Z Z :=
  make_simple_update_unit keys request_a.

(** The dictionary after one failure of the source at the time [100]. *)
Definition failing_source : TableSource := Fails (ForeignException "down").

Definition dictionary_in_backoff : CacheDictionary ScriptedStorage unit :=
  (update_a 100 failing_source fresh_dictionary (unit_for [6])).1.2.

(** A source that sends the key [2] whatever it is asked. *)
Definition stubborn_source : TableSource := Streams [Read [[2]; [20]]].

(** A hierarchy: one attribute [parent], null value [0], every key fresh
    in the storage, which answers in the order of the keys. *)
Definition structure_parent : DictionaryStructure Z :=
  [{| name := "parent"; null_value := 0; hierarchical := true |}].

Definition config_parent : CacheDictionaryConfiguration Z :=
  {| dictionary_key_type := simple;
     dict_struct := structure_parent;
     allow_read_expired_keys := false |}.

Definition hierarchy_storage (parent_of : Z -> Z) : ScriptedStorage :=
  {| script := fun keys request_ =>
       {| fetched_columns :=
            [if shouldFillResultColumnWithIndex request_ 0
             then map parent_of keys else []];
          found_keys_to_fetched_columns_index :=
            list_to_map (zip keys (seq 0 (length keys)));
          expired_keys_to_fetched_columns_index := ∅;
          not_found_or_expired_keys := [];
          not_found_or_expired_keys_indexes := [] |};
     in_order_of_keys := true;
     inserted := [] |}.

Definition hierarchy_world (parent_of : Z -> Z) : World :=
  initial_world (hierarchy_storage parent_of) (Answers [] 1) 100.

Definition toParent_of_dictionary : list Z -> Exec World (list Z) :=
  toParent (CacheDictionaryWorld0 := world_of config_parent)
    (fun value => value) config_parent.


(** [3 -> 2 -> 1], and [1] has no parent. *)
Definition chain_321 (id : Z) : Z :=
  if decide (id = 3) then 2 else if decide (id = 2) then 1 else 0.

(** [2 -> 3 -> 4], and [1] and [4] have no parent. *)
Definition chain_234 (id : Z) : Z :=
  if decide (id = 2) then 3 else if decide (id = 3) then 4 else 0.

(** Parents answered from a function, without a dictionary. *)
Definition toParent_of_function (parent_of : Z -> Z)
    : list Z -> Exec unit (list Z) :=
  fun ids world => (Ok (map parent_of ids), world).

(** [DBMS_HIERARCHICAL_DICTIONARY_MAX_DEPTH] as [Core/Defines.h] has it. *)
Definition DBMS_HIERARCHICAL_DICTIONARY_MAX_DEPTH : nat := 1000.

End Examples.

(** ** Further notions *)

Section DefaultNotions.

Context {Field : Type}.



End DefaultNotions.


Section StreamNotions.

Context {Field Key : Type} `{Countable Key}.
Context `{!DictionaryKeysExtractor Field Key}.

(** The blocks that [read_blocks] takes from a stream, in order. *)
Fixpoint stream_blocks (stream : BlockInputStream Field) : list (list (list Field)) :=
  match stream with
  | [] => []
  | ReadThrows _ :: _ => []
  | Read [] :: _ => []
  | Read block :: rest => block :: stream_blocks rest
  end.

(** The keys of some blocks, one after the other. *)
Definition keys_of_blocks (keys_size_of_structure : nat)
    (blocks : list (list (list Field))) : list Key :=
  concat (map (fun block => getKeys (take keys_size_of_structure block)) blocks).

(** The rows of attribute [i] in some blocks, one block after the other,
    as many rows of each block as the block has keys. *)
Definition rows_of_blocks (keys_size_of_structure i : nat)
    (blocks : list (list (list Field))) : list Field :=
  concat
    (map (fun block =>
            take (length (getKeys (take keys_size_of_structure block) : list Key))
              (default [] (block !! (keys_size_of_structure + i)%nat)))
       blocks).

(** [row] is the last place of [key] in [keys]. *)
Definition last_occurrence (keys : list Key) (key : Key) (row : nat) : Prop :=
  keys !! row = Some key ∧ ∀ row', (row < row')%nat -> keys !! row' ≠ Some key.

(** The row that [aggregateColumnsInOrderOfKeys] reads for a key: the one
    of the expired index, else the one of the found index. *)
Definition row_in_order_of_keys (found_index expired_index : gmap Key nat)
    (key : Key) : option nat :=
  match expired_index !! key with
  | Some row => Some row
  | None => found_index !! key
  end.

(** The unit holds the rows and the keys of some blocks. *)
Definition holds_blocks (keys_size_of_structure : nat) (blocks : list (list (list Field)))
    (update_unit : CacheDictionaryUpdateUnit Field Key) : Prop :=
  (∀ i column,
     shouldFillResultColumnWithIndex (request update_unit) i = true ->
     fetched_columns_during_update update_unit !! i = Some column ->
     column = rows_of_blocks keys_size_of_structure i blocks ∧ length column = length (keys_of_blocks keys_size_of_structure blocks)) ∧
  (∀ key row,
     requested_keys_to_fetched_columns_during_update_index update_unit
       !! key = Some row ↔
     last_occurrence (keys_of_blocks keys_size_of_structure blocks) key row).

(** The calls of [insertColumnsForKeys] for some blocks, in order. *)
Definition insert_blocks {Storage : Type}
    `{!ICacheDictionaryStorage Field Key Storage}
    (keys_size_of_structure : nat) (storage : Storage) (blocks : list (list (list Field)))
    : Storage :=
  foldl (fun storage0 block =>
           insertColumnsForKeys storage0
             (getKeys (take keys_size_of_structure block))
             (drop keys_size_of_structure block))
    storage blocks.

End StreamNotions.

(** The calls of [update] that the workers make, one after the other: the
    time, the source and the unit of each call.  The outcomes, first call
    first, and the dictionary after the last call. *)
Section Attempts.

Context {Field Key : Type} `{Countable Key}.
Context {Storage Rnd Source : Type}.
Context `{!ICacheDictionaryStorage Field Key Storage}.
Context `{!IDictionarySource Field Key Source}.
Context `{!DictionaryKeysExtractor Field Key}.

Variable calculateDurationWithBackoff : Rnd -> Z -> Z * Rnd.
Variable config : CacheDictionaryConfiguration Field.
Variable keys_size_of_structure : nat.

Fixpoint run_updates
    (attempts : list (Z * Source * CacheDictionaryUpdateUnit Field Key))
    (dictionary : CacheDictionary Storage Rnd)
    : list (Result unit) * CacheDictionary Storage Rnd :=
  match attempts with
  | [] => ([], dictionary)
  | (now, source, update_unit) :: rest =>
      let '(outcome, dictionary', _) :=
        update calculateDurationWithBackoff config keys_size_of_structure
          now source dictionary update_unit in
      let '(outcomes, dictionary'') := run_updates rest dictionary' in
      (outcome :: outcomes, dictionary'')
  end.

End Attempts.

(** What one outcome of [update] makes of [error_count] and of
    [last_exception]. *)
Definition count_outcome (error_count_ : Z) (outcome : Result unit) : Z :=
  match outcome with
  | Ok _ => 0
  | Throw (UpdateFailed _) => size_t_incr error_count_
  | _ => error_count_
  end.

Definition keep_exception (last_exception_ : option Exception)
    (outcome : Result unit) : option Exception :=
  match outcome with
  | Ok _ => None
  | Throw (UpdateFailed e) => Some e
  | _ => last_exception_
  end.

(** The parents of [child] that [isInConstantVector] collects in at most
    [remaining] rounds: the chain stops before the null value. *)
Fixpoint ancestors_chain (null_value : Z) (parent_of : Z -> Z)
    (remaining : nat) (child : Z) : list Z :=
  match remaining with
  | O => []
  | S remaining' =>
      let parent := parent_of child in
      if decide (parent = null_value) then []
      else parent :: ancestors_chain null_value parent_of remaining' parent
  end.

(** [ancestor] is [child] or is reached from it in at most [depth] steps to
    the parent, none of which gives the null value. *)
Definition reaches (null_value : Z) (parent_of : Z -> Z) (depth : nat)
    (child ancestor : Z) : Prop :=
  ∃ steps, (steps ≤ depth)%nat ∧
    Nat.iter steps parent_of child = ancestor ∧
    ∀ step, (1 ≤ step ≤ steps)%nat ->
      Nat.iter step parent_of child ≠ null_value.

(** ** Configuration and construction *)

Module Factory.

(** The error codes of the exceptions that the parsing and the
    construction throw. *)
Inductive Code : Type :=
| TOO_SMALL_BUFFER_SIZE
| BAD_ARGUMENTS
| UNSUPPORTED_METHOD
| TYPE_MISMATCH.

(** [DB::Exception {message, code}], the two exceptions of
    [Poco::Util::AbstractConfiguration] (a property that is missing, a
    property that does not parse), and whatever a constructor that is
    declared elsewhere throws. *)
Inductive Thrown : Type :=
| DBException (message : string) (code : Code)
| NotFoundException (key : string)
| SyntaxException (key : string)
| OtherException (what : string).

Inductive Outcome (A : Type) : Type :=
| Returned (a : A)
| Raised (e : Thrown)
| NotDefined.

Arguments Returned {A} a.
Arguments Raised {A} e.
Arguments NotDefined {A}.

#[export] Instance Outcome_ret : MRet Outcome := fun _ a => Returned a.
#[export] Instance Outcome_bind : MBind Outcome := fun _ _ f m =>
  match m with
  | Returned a => f a
  | Raised e => Raised e
  | NotDefined => NotDefined
  end.

#[export] Instance Outcome_fmap : FMap Outcome := fun _ _ f m =>
  match m with
  | Returned a => Returned (f a)
  | Raised e => Raised e
  | NotDefined => NotDefined
  end.

(** Conversions between the integer types: to [size_t], to [int]. *)
Definition to_size_t (n : Z) : Z := n mod 2 ^ 64.

Definition to_int (n : Z) : Z :=
  let m := n mod 2 ^ 32 in if decide (m < 2 ^ 31) then m else m - 2 ^ 32.

(** [a % b] and [a / b] on [size_t]: not defined for [b = 0]. *)
Definition size_t_mod (a b : Z) : Outcome Z :=
  if decide (b = 0) then NotDefined else Returned (a mod b).

Definition size_t_div (a b : Z) : Outcome Z :=
  if decide (b = 0) then NotDefined else Returned (a / b).

Record DictionaryLifetime : Type := {
  min_sec : Z;
  max_sec : Z
}.

Record CacheDictionaryStorageConfiguration : Type := {
  max_size_in_cells : Z;
  strict_max_lifetime_seconds : Z;
  lifetime : DictionaryLifetime
}.

Record SSDCacheDictionaryStorageConfiguration : Type := {
  ssd_strict_max_lifetime_seconds : Z;
  ssd_lifetime : DictionaryLifetime;
  file_path : string;
  max_partitions_count : Z;
  max_stored_keys : Z;
  block_size : Z;
  file_blocks_size : Z;
  read_buffer_blocks_size : Z;
  write_buffer_blocks_size : Z
}.

Record CacheDictionaryUpdateQueueConfiguration : Type := {
  max_update_queue_size : Z;
  max_threads_for_updates : Z;
  update_queue_push_timeout_milliseconds : Z;
  query_wait_timeout_milliseconds : Z
}.

Inductive AttributeUnderlyingType : Type :=
| utUInt64
| utOther (type_name : string).

Section Configuration.

(** [Poco::Util::AbstractConfiguration]: a property is a string, parsed by
    the getter that reads it.  The parsers of Poco are taken as given; a
    number that the integer type of the getter cannot hold does not
    parse. *)
Variable parse_integer : string -> option Z.
Variable parse_bool : string -> option bool.

#[local] Abbreviation AbstractConfiguration := (gmap string string) (only parsing).

Definition parse_in_range (low high : Z) (key raw : string) : Outcome Z :=
  match parse_integer raw with
  | Some n =>
      if decide (low <= n < high) then Returned n
      else Raised (SyntaxException key)
  | None => Raised (SyntaxException key)
  end.

(** [getUInt64 (key)] and [getUInt64 (key, default)]. *)
Definition getUInt64 (config : AbstractConfiguration) (key : string) : Outcome Z :=
  match config !! key with
  | Some raw => parse_in_range 0 (2 ^ 64) key raw
  | None => Raised (NotFoundException key)
  end.

Definition getUInt64_or (config : AbstractConfiguration) (key : string)
    (default_ : Z) : Outcome Z :=
  match config !! key with
  | Some raw => parse_in_range 0 (2 ^ 64) key raw
  | None => Returned default_
  end.

(** [getInt (key, default)] and [getInt64 (key, default)]. *)
Definition getInt_or (config : AbstractConfiguration) (key : string)
    (default_ : Z) : Outcome Z :=
  match config !! key with
  | Some raw => parse_in_range (- 2 ^ 31) (2 ^ 31) key raw
  | None => Returned default_
  end.

Definition getInt64_or (config : AbstractConfiguration) (key : string)
    (default_ : Z) : Outcome Z :=
  match config !! key with
  | Some raw => parse_in_range (- 2 ^ 63) (2 ^ 63) key raw
  | None => Returned default_
  end.

(** [getBool (key, default)]. *)
Definition getBool_or (config : AbstractConfiguration) (key : string)
    (default_ : bool) : Outcome bool :=
  match config !! key with
  | Some raw =>
      match parse_bool raw with
      | Some b => Returned b
      | None => Raised (SyntaxException key)
      end
  | None => Returned default_
  end.

(** [getString (key)]. *)
Definition getString (config : AbstractConfiguration) (key : string)
    : Outcome string :=
  match config !! key with
  | Some raw => Returned raw
  | None => Raised (NotFoundException key)
  end.

Definition parseCacheStorageConfiguration (full_name : string)
    (config : AbstractConfiguration) (layout_prefix : string)
    (dict_lifetime : DictionaryLifetime) (is_complex : bool)
    : Outcome CacheDictionaryStorageConfiguration :=
  let dictionary_type_prefix :=
    if is_complex then ".complex_key_cache." else ".cache." in
  let dictionary_configuration_prefix :=
    layout_prefix +:+ dictionary_type_prefix in
  size ← getUInt64 config (dictionary_configuration_prefix +:+ "size_in_cells");
  if decide (size = 0) then
    Raised (DBException
              (full_name +:+ ": dictionary of layout 'cache' cannot have 0 cells")
              TOO_SMALL_BUFFER_SIZE)
  else
    strict_max_lifetime_seconds_ ←
      getUInt64_or config
        (dictionary_configuration_prefix +:+ "strict_max_lifetime_seconds")
        (to_size_t (max_sec dict_lifetime));
    Returned {| max_size_in_cells := size;
                strict_max_lifetime_seconds := strict_max_lifetime_seconds_;
                lifetime := dict_lifetime |}.

(** [DEFAULT_AIO_FILE_BLOCK_SIZE], defined elsewhere. *)
Variable DEFAULT_AIO_FILE_BLOCK_SIZE : Z.

Definition DEFAULT_SSD_BLOCK_SIZE_BYTES : Z := DEFAULT_AIO_FILE_BLOCK_SIZE.
Definition DEFAULT_FILE_SIZE_BYTES : Z := 4 * 1024 * 1024 * 1024.
Definition DEFAULT_READ_BUFFER_SIZE_BYTES : Z :=
  to_size_t (16 * DEFAULT_SSD_BLOCK_SIZE_BYTES).
Definition DEFAULT_WRITE_BUFFER_SIZE_BYTES : Z := DEFAULT_SSD_BLOCK_SIZE_BYTES.
Definition DEFAULT_MAX_STORED_KEYS : Z := 100000.
Definition DEFAULT_PARTITIONS_COUNT : Z := 16.

(** [directory_path.at (0) != '/'], for a path that is not empty. *)
Definition is_absolute (directory_path : string) : bool :=
  String.prefix "/" directory_path.

Definition parseSSDCacheStorageConfiguration (full_name : string)
    (config : AbstractConfiguration) (layout_prefix : string)
    (dict_lifetime : DictionaryLifetime) (is_complex : bool)
    : Outcome SSDCacheDictionaryStorageConfiguration :=
  let dictionary_type_prefix :=
    if is_complex then ".complex_key_ssd_cache." else ".ssd_cache." in
  let dictionary_configuration_prefix :=
    layout_prefix +:+ dictionary_type_prefix in
  strict_max_lifetime_seconds_ ←
    getUInt64_or config
      (dictionary_configuration_prefix +:+ "strict_max_lifetime_seconds")
      (to_size_t (max_sec dict_lifetime));
  max_partitions_count_ ←
    to_size_t <$>
      getInt_or config
        (dictionary_configuration_prefix +:+ "ssd_cache.max_partitions_count")
        (to_int DEFAULT_PARTITIONS_COUNT);
  block_size_ ←
    to_size_t <$>
      getInt_or config (dictionary_configuration_prefix +:+ "block_size")
        (to_int DEFAULT_READ_BUFFER_SIZE_BYTES);
  file_blocks_size_ ←
    to_size_t <$>
      getInt64_or config (dictionary_configuration_prefix +:+ "file_size")
        DEFAULT_FILE_SIZE_BYTES;
  file_rest ← size_t_mod file_blocks_size_ block_size_;
  if decide (file_rest ≠ 0) then
    Raised (DBException
              (full_name +:+ ": file_size must be a multiple of block_size")
              BAD_ARGUMENTS)
  else
    read_buffer_blocks_size_ ←
      to_size_t <$>
        getInt64_or config
          (dictionary_configuration_prefix +:+ "read_buffer_size")
          DEFAULT_READ_BUFFER_SIZE_BYTES;
    read_rest ← size_t_mod read_buffer_blocks_size_ block_size_;
    if decide (read_rest ≠ 0) then
      Raised (DBException
                (full_name +:+ ": read_buffer_size must be a multiple of block_size")
                BAD_ARGUMENTS)
    else
      write_buffer_blocks_size_ ←
        to_size_t <$>
          getInt64_or config
            (dictionary_configuration_prefix +:+ "write_buffer_size")
            DEFAULT_WRITE_BUFFER_SIZE_BYTES;
      write_rest ← size_t_mod write_buffer_blocks_size_ block_size_;
      if decide (write_rest ≠ 0) then
        Raised (DBException
                  (full_name +:+ ": write_buffer_size must be a multiple of block_size")
                  BAD_ARGUMENTS)
      else
        directory_path ←
          getString config (dictionary_configuration_prefix +:+ "path");
        if decide (directory_path = "") then
          Raised (DBException
                    (full_name +:+ ": dictionary of layout 'ssd_cache' cannot have empty path")
                    BAD_ARGUMENTS)
        else
          directory_path' ←
            (if is_absolute directory_path then Returned directory_path
             else
               root ← getString config "path";
               Returned (root +:+ directory_path));
          max_stored_keys_in_partition ←
            to_size_t <$>
              getInt64_or config
                (dictionary_configuration_prefix +:+ "max_stored_keys")
                DEFAULT_MAX_STORED_KEYS;
          file_blocks ← size_t_div file_blocks_size_ block_size_;
          read_blocks_ ← size_t_div read_buffer_blocks_size_ block_size_;
          write_blocks ← size_t_div write_buffer_blocks_size_ block_size_;
          Returned {| ssd_strict_max_lifetime_seconds :=
                        strict_max_lifetime_seconds_;
                      ssd_lifetime := dict_lifetime;
                      file_path := directory_path';
                      max_partitions_count := max_partitions_count_;
                      max_stored_keys := max_stored_keys_in_partition;
                      block_size := block_size_;
                      file_blocks_size := file_blocks;
                      read_buffer_blocks_size := read_blocks_;
                      write_buffer_blocks_size := write_blocks |}.

Definition parseCacheDictionaryUpdateQueueConfiguration (full_name : string)
    (config : AbstractConfiguration) (layout_prefix : string)
    (is_complex : bool) : Outcome CacheDictionaryUpdateQueueConfiguration :=
  let type := if is_complex then "complex_key_cache" else "cache" in
  max_update_queue_size_ ←
    getUInt64_or config (layout_prefix +:+ ".cache.max_update_queue_size")
      100000;
  if decide (max_update_queue_size_ = 0) then
    Raised (DBException
              (full_name +:+ ": dictionary of layout'" +:+ type +:+
               "'cannot have empty update queue of size 0")
              TOO_SMALL_BUFFER_SIZE)
  else
    update_queue_push_timeout_milliseconds_ ←
      getUInt64_or config
        (layout_prefix +:+ ".cache.update_queue_push_timeout_milliseconds") 10;
    if decide (update_queue_push_timeout_milliseconds_ < 10) then
      Raised (DBException
                (full_name +:+ ": dictionary of layout'" +:+ type +:+
                 "'have too little update_queue_push_timeout")
                BAD_ARGUMENTS)
    else
      query_wait_timeout_milliseconds_ ←
        getUInt64_or config
          (layout_prefix +:+ ".cache.query_wait_timeout_milliseconds") 60000;
      max_threads_for_updates_ ←
        getUInt64_or config (layout_prefix +:+ ".max_threads_for_updates") 4;
      if decide (max_threads_for_updates_ = 0) then
        Raised (DBException
                  (full_name +:+ ": dictionary of layout'" +:+ type +:+
                   "'cannot have zero threads for updates.")
                  BAD_ARGUMENTS)
      else
        Returned {| max_update_queue_size := max_update_queue_size_;
                    max_threads_for_updates := max_threads_for_updates_;
                    update_queue_push_timeout_milliseconds :=
                      update_queue_push_timeout_milliseconds_;
                    query_wait_timeout_milliseconds :=
                      query_wait_timeout_milliseconds_ |}.

End Configuration.

Section Construction.

Context {Field : Type}.

(** The attributes of a structure with their underlying types, and what
    else of the structure the layouts look at: whether it declares an id, a
    key, a range. *)
Record DeclaredStructure : Type := {
  declares_id : bool;
  declares_key : bool;
  declares_range_min : bool;
  declares_range_max : bool;
  typed_attributes : list (DictionaryAttribute Field * AttributeUnderlyingType)
}.

(** An attribute that is hierarchical is of type UInt64. *)
Definition hierarchical_is_UInt64
    (typed : DictionaryAttribute Field * AttributeUnderlyingType) : Prop :=
  hierarchical typed.1 = true -> typed.2 = utUInt64.

#[global] Instance hierarchical_is_UInt64_dec typed :
  Decision (hierarchical_is_UInt64 typed).
Proof.
  unfold hierarchical_is_UInt64. destruct typed as [attribute [|type_name]];
    simpl.
  - left. done.
  - destruct (hierarchical attribute).
    + right. intros Htyped. by specialize (Htyped eq_refl).
    + left. done.
Defined.

(** [setupHierarchicalAttribute], the loop from the attribute [attributes]
    starts with, with the pointer as it is so far. *)
Fixpoint setupHierarchicalAttribute_from (full_name : string)
    (attributes : list (DictionaryAttribute Field * AttributeUnderlyingType))
    (hierarchical_attribute_ : option (DictionaryAttribute Field))
    : Outcome (option (DictionaryAttribute Field)) :=
  match attributes with
  | [] => Returned hierarchical_attribute_
  | (attribute, underlying_type) :: rest =>
      if hierarchical attribute then
        match underlying_type with
        | utUInt64 =>
            setupHierarchicalAttribute_from full_name rest (Some attribute)
        | utOther _ =>
            Raised (DBException
                      (full_name +:+ ": hierarchical attribute must be UInt64.")
                      TYPE_MISMATCH)
        end
      else
        setupHierarchicalAttribute_from full_name rest hierarchical_attribute_
  end.

Definition setupHierarchicalAttribute (full_name : string)
    (dict_struct_ : DeclaredStructure)
    : Outcome (option (DictionaryAttribute Field)) :=
  setupHierarchicalAttribute_from full_name (typed_attributes dict_struct_) None.

(** What the constructor keeps. *)
Record Constructed {DictId : Type} : Type := {
  constructed_id : DictId;
  constructed_structure : DeclaredStructure;
  constructed_storage : CacheDictionaryStorageConfiguration;
  constructed_update_queue : CacheDictionaryUpdateQueueConfiguration;
  constructed_lifetime : DictionaryLifetime;
  constructed_allow_read_expired_keys : bool;
  constructed_hierarchical_attribute : option (DictionaryAttribute Field)
}.
Arguments Constructed : clear implicits.

(** The constructor of [CacheDictionary]: [supportsSelectiveLoad] is what
    the source answers, [full_name] the name that the base class keeps. *)
Definition construct {DictId : Type} (full_name : string)
    (supportsSelectiveLoad : bool) (dict_id : DictId)
    (dict_struct_ : DeclaredStructure)
    (storage_configuration : CacheDictionaryStorageConfiguration)
    (update_queue_configuration : CacheDictionaryUpdateQueueConfiguration)
    (dict_lifetime : DictionaryLifetime) (allow_read_expired_keys_ : bool)
    : Outcome (Constructed DictId) :=
  if negb supportsSelectiveLoad then
    Raised (DBException
              (full_name +:+ ": source cannot be used with CacheDictionary")
              UNSUPPORTED_METHOD)
  else
    hierarchical_attribute_ ← setupHierarchicalAttribute full_name dict_struct_;
    Returned {| constructed_id := dict_id;
                constructed_structure := dict_struct_;
                constructed_storage := storage_configuration;
                constructed_update_queue := update_queue_configuration;
                constructed_lifetime := dict_lifetime;
                constructed_allow_read_expired_keys := allow_read_expired_keys_;
                constructed_hierarchical_attribute := hierarchical_attribute_ |}.

Variable parse_integer : string -> option Z.
Variable parse_bool : string -> option bool.

(** [StorageID::fromDictionaryConfig] and the constructor of
    [DictionaryLifetime], declared elsewhere. *)
Context {DictId : Type}.
Variable fromDictionaryConfig : gmap string string -> string -> Outcome DictId.
Variable makeDictionaryLifetime :
  gmap string string -> string -> Outcome DictionaryLifetime.

Definition range_message (full_name : string) : string :=
  full_name +:+
  ": elements .structure.range_min and .structure.range_max should be defined only " +:+
  "for a dictionary of layout 'range_hashed'".

(** The layout ["cache"]. *)
Definition create_simple_cache_layout (full_name : string)
    (dict_struct_ : DeclaredStructure) (config : gmap string string)
    (config_prefix : string) (source_supportsSelectiveLoad : bool)
    : Outcome (Constructed DictId) :=
  if declares_key dict_struct_ then
    Raised (DBException "'key' is not supported for dictionary of layout 'cache'"
              UNSUPPORTED_METHOD)
  else if declares_range_min dict_struct_ || declares_range_max dict_struct_ then
    Raised (DBException (range_message full_name) BAD_ARGUMENTS)
  else
    require_nonempty ←
      getBool_or parse_bool config (config_prefix +:+ ".require_nonempty") false;
    if (require_nonempty : bool) then
      Raised (DBException
                (full_name +:+
                 ": dictionary of layout 'cache' cannot have 'require_nonempty' attribute set")
                BAD_ARGUMENTS)
    else
      let layout_prefix := config_prefix +:+ ".layout" in
      dict_id ← fromDictionaryConfig config config_prefix;
      dict_lifetime ← makeDictionaryLifetime config (config_prefix +:+ ".lifetime");
      allow_read_expired_keys_ ←
        getBool_or parse_bool config
          (layout_prefix +:+ ".cache.allow_read_expired_keys") false;
      storage_configuration ←
        parseCacheStorageConfiguration parse_integer full_name config
          layout_prefix dict_lifetime false;
      update_queue_configuration ←
        parseCacheDictionaryUpdateQueueConfiguration parse_integer full_name
          config layout_prefix false;
      construct full_name source_supportsSelectiveLoad dict_id dict_struct_
        storage_configuration update_queue_configuration dict_lifetime
        allow_read_expired_keys_.

(** The layout ["complex_key_cache"]. *)
Definition create_complex_key_cache_layout (full_name : string)
    (dict_struct_ : DeclaredStructure) (config : gmap string string)
    (config_prefix : string) (source_supportsSelectiveLoad : bool)
    : Outcome (Constructed DictId) :=
  if declares_id dict_struct_ then
    Raised (DBException
              "'id' is not supported for dictionary of layout 'complex_key_cache'"
              UNSUPPORTED_METHOD)
  else if declares_range_min dict_struct_ || declares_range_max dict_struct_ then
    Raised (DBException (range_message full_name) BAD_ARGUMENTS)
  else
    require_nonempty ←
      getBool_or parse_bool config (config_prefix +:+ ".require_nonempty") false;
    if (require_nonempty : bool) then
      Raised (DBException
                (full_name +:+
                 ": dictionary of layout 'cache' cannot have 'require_nonempty' attribute set")
                BAD_ARGUMENTS)
    else
      let layout_prefix := config_prefix +:+ ".layout" in
      dict_id ← fromDictionaryConfig config config_prefix;
      dict_lifetime ← makeDictionaryLifetime config (config_prefix +:+ ".lifetime");
      allow_read_expired_keys_ ←
        getBool_or parse_bool config
          (layout_prefix +:+ ".cache.allow_read_expired_keys") false;
      storage_configuration ←
        parseCacheStorageConfiguration parse_integer full_name config
          layout_prefix dict_lifetime true;
      update_queue_configuration ←
        parseCacheDictionaryUpdateQueueConfiguration parse_integer full_name
          config layout_prefix true;
      construct full_name source_supportsSelectiveLoad dict_id dict_struct_
        storage_configuration update_queue_configuration dict_lifetime
        allow_read_expired_keys_.

End Construction.

End Factory.


(** ** More concrete dictionaries and configurations *)

Module MoreExamples.

Import UInt64Dictionary Examples Factory.

(** The lookup of the key [5], found with [a = 50]. *)
Definition found_result (request_ : DictionaryStorageFetchRequest Z)
    : FetchResult Z Z :=
  {| fetched_columns :=
       [if shouldFillResultColumnWithIndex request_ 0 then [50] else []];
     found_keys_to_fetched_columns_index := {[ 5 := 0%nat ]};
     expired_keys_to_fetched_columns_index := ∅;
     not_found_or_expired_keys := [];
     not_found_or_expired_keys_indexes := [] |}.

Definition found_storage : ScriptedStorage :=
  {| script := fun _ request_ => found_result request_;
     in_order_of_keys := false;
     inserted := [] |}.

Definition found_world : World := initial_world found_storage source_689 100.

(** A storage that knows no key: every lookup answers that every key is
    absent. *)
Definition unknowing_storage : ScriptedStorage :=
  {| script := fun keys request_ =>
       {| fetched_columns := [[]];
          found_keys_to_fetched_columns_index := ∅;
          expired_keys_to_fetched_columns_index := ∅;
          not_found_or_expired_keys := keys;
          not_found_or_expired_keys_indexes := seq 0 (length keys) |};
     in_order_of_keys := false;
     inserted := [] |}.

(** A hierarchy whose storage and source know no key. *)
Definition unknowing_world : World :=
  initial_world unknowing_storage (Answers [] 1) 100.

(** A source that sends two blocks, the key [6] in both. *)
Definition source_in_two_blocks : TableSource :=
  Streams [Read [[6; 8]; [60; 81]]; Read [[6]; [61]]].

(** A source that sends one block and then throws. *)
Definition source_that_breaks : TableSource :=
  Streams [Read [[6]; [60]]; ReadThrows (ForeignException "lost")].

(** A parser of decimal numbers, with an optional minus sign. *)
Definition digit_of (c : Ascii.ascii) : option Z :=
  let n := Z.of_N (Ascii.N_of_ascii c) in
  if decide (48 <= n <= 57) then Some (n - 48) else None.

Fixpoint parse_digits (s : string) (so_far : Z) : option Z :=
  match s with
  | EmptyString => Some so_far
  | String c rest =>
      match digit_of c with
      | Some d => parse_digits rest (10 * so_far + d)
      | None => None
      end
  end.

Definition parse_decimal (s : string) : option Z :=
  match s with
  | EmptyString => None
  | String c rest =>
      if decide (Ascii.N_of_ascii c = 45%N) then
        match rest with
        | EmptyString => None
        | _ => Z.opp <$> parse_digits rest 0
        end
      else parse_digits s 0
  end.

Definition parse_true_false (s : string) : option bool :=
  if decide (s = "true") then Some true
  else if decide (s = "false") then Some false
  else None.

(** The file system's block, as [Core/Defines.h] has it. *)
Definition DEFAULT_AIO_FILE_BLOCK_SIZE : Z := 4096.

(** The name of the dictionary for its id, and a lifetime read from [min]
    and [max]. *)
Definition id_of_name (config : gmap string string) (config_prefix : string)
    : Outcome string :=
  getString config (config_prefix +:+ ".name").

Definition lifetime_of_min_max (config : gmap string string) (prefix : string)
    : Outcome DictionaryLifetime :=
  min_sec_ ← getUInt64_or parse_decimal config (prefix +:+ ".min") 0;
  max_sec_ ← getUInt64_or parse_decimal config (prefix +:+ ".max") 0;
  Returned {| min_sec := min_sec_; max_sec := max_sec_ |}.

Definition lifetime_300_360 : DictionaryLifetime :=
  {| min_sec := 300; max_sec := 360 |}.

(** A dictionary of layout [cache] with 1024 cells. *)
Definition cache_configuration : gmap string string :=
  list_to_map
    [("dictionary.name", "regions");
     ("dictionary.lifetime.min", "300");
     ("dictionary.lifetime.max", "360");
     ("dictionary.layout.cache.size_in_cells", "1024");
     ("dictionary.layout.cache.allow_read_expired_keys", "true");
     ("dictionary.layout.cache.max_update_queue_size", "500")].

(** The same dictionary of layout [complex_key_cache], its cells under the
    name of its layout. *)
Definition complex_key_cache_configuration : gmap string string :=
  list_to_map
    [("dictionary.name", "regions");
     ("dictionary.lifetime.min", "300");
     ("dictionary.lifetime.max", "360");
     ("dictionary.layout.complex_key_cache.size_in_cells", "2048");
     ("dictionary.layout.complex_key_cache.allow_read_expired_keys", "false");
     ("dictionary.layout.cache.allow_read_expired_keys", "true");
     ("dictionary.layout.cache.max_update_queue_size", "500")].

(** A dictionary of layout [ssd_cache] with every size configured, and one
    with the path only. *)
Definition ssd_cache_configuration : gmap string string :=
  list_to_map
    [("path", "/var/lib/clickhouse/");
     ("dictionary.layout.ssd_cache.block_size", "4096");
     ("dictionary.layout.ssd_cache.file_size", "16777216");
     ("dictionary.layout.ssd_cache.read_buffer_size", "131072");
     ("dictionary.layout.ssd_cache.write_buffer_size", "8192");
     ("dictionary.layout.ssd_cache.path", "dictionaries/regions")].

Definition ssd_cache_configuration_of_path : gmap string string :=
  list_to_map
    [("path", "/var/lib/clickhouse/");
     ("dictionary.layout.ssd_cache.path", "dictionaries/regions")].

(** Structures: [regions] with a hierarchical parent of type UInt64, and
    one whose parent is a String. *)
Definition parent_attribute : DictionaryAttribute Z :=
  {| name := "parent"; null_value := 0; hierarchical := true |}.

Definition structure_of_regions : DeclaredStructure (Field := Z) :=
  {| declares_id := true;
     declares_key := false;
     declares_range_min := false;
     declares_range_max := false;
     typed_attributes := [(parent_attribute, utUInt64)] |}.

Definition structure_of_keyed_regions : DeclaredStructure (Field := Z) :=
  {| declares_id := false;
     declares_key := true;
     declares_range_min := false;
     declares_range_max := false;
     typed_attributes := [(parent_attribute, utUInt64)] |}.

Definition structure_with_String_parent : DeclaredStructure (Field := Z) :=
  {| declares_id := true;
     declares_key := false;
     declares_range_min := false;
     declares_range_max := false;
     typed_attributes := [(parent_attribute, utOther "String")] |}.

(** What the two layouts create from these configurations. *)
Definition storage_of_1024_cells : CacheDictionaryStorageConfiguration :=
  {| max_size_in_cells := 1024;
     strict_max_lifetime_seconds := 360;
     lifetime := lifetime_300_360 |}.

Definition update_queue_of_500 : CacheDictionaryUpdateQueueConfiguration :=
  {| max_update_queue_size := 500;
     max_threads_for_updates := 4;
     update_queue_push_timeout_milliseconds := 10;
     query_wait_timeout_milliseconds := 60000 |}.

Definition regions_dictionary : @Constructed Z string :=
  {| constructed_id := "regions";
     constructed_structure := structure_of_regions;
     constructed_storage := storage_of_1024_cells;
     constructed_update_queue := update_queue_of_500;
     constructed_lifetime := lifetime_300_360;
     constructed_allow_read_expired_keys := true;
     constructed_hierarchical_attribute := Some parent_attribute |}.

Definition keyed_regions_dictionary : @Constructed Z string :=
  {| constructed_id := "regions";
     constructed_structure := structure_of_keyed_regions;
     constructed_storage :=
       {| max_size_in_cells := 2048;
          strict_max_lifetime_seconds := 360;
          lifetime := lifetime_300_360 |};
     constructed_update_queue := update_queue_of_500;
     constructed_lifetime := lifetime_300_360;
     constructed_allow_read_expired_keys := true;
     constructed_hierarchical_attribute := Some parent_attribute |}.

(** What [parseSSDCacheStorageConfiguration] returns for
    [ssd_cache_configuration]. *)
Definition ssd_storage_of_4096_blocks : SSDCacheDictionaryStorageConfiguration :=
  {| ssd_strict_max_lifetime_seconds := 360;
     ssd_lifetime := lifetime_300_360;
     file_path := "/var/lib/clickhouse/dictionaries/regions";
     max_partitions_count := 16;
     max_stored_keys := 100000;
     block_size := 4096;
     file_blocks_size := 4096;
     read_buffer_blocks_size := 32;
     write_buffer_blocks_size := 2 |}.

End MoreExamples.
(** * Properties *)

(** ** The worker and the backoff *)

Section WorkerFacts.

Context {Field Key : Type} `{Countable Key}.
Context {Storage Rnd Source : Type}.
Context `{!ICacheDictionaryStorage Field Key Storage}.
Context `{!IDictionarySource Field Key Source}.
Context `{!DictionaryKeysExtractor Field Key}.

Variable calculateDurationWithBackoff : Rnd -> Z -> Z * Rnd.
Variable config : CacheDictionaryConfiguration Field.
Variable keys_size_of_structure : nat.

#[local] Abbreviation update_ :=
  (update calculateDurationWithBackoff config keys_size_of_structure).
#[local] Abbreviation fetch_ := (fetch_from_source config keys_size_of_structure).

Lemma update_suppressed now source dictionary update_unit :
  now <= backoff_end_time dictionary ->
  update_ now source dictionary update_unit =
    (Throw (UpdateSuppressed (backoff_end_time dictionary)),
     dictionary, update_unit).
Proof.
  intros Hnow. unfold update.
  destruct (decide (now > backoff_end_time dictionary)) as [Hgt|_]; [lia|done].
Qed.

Lemma update_outcome_after_deadline now source dictionary update_unit :
  now > backoff_end_time dictionary ->
  (update_ now source dictionary update_unit).1.1 =
    outcome_of_fetch
      (fetch_ source (cache_storage dictionary) update_unit).1.1.
Proof.
  intros Hnow. unfold update.
  destruct (decide (now > backoff_end_time dictionary)) as [_|Hle]; [|lia].
  destruct (fetch_ source (cache_storage dictionary) update_unit)
    as [[[n|e|] storage'] update_unit']; simpl; try done.
  by destruct (calculateDurationWithBackoff _ _).
Qed.

(** Both failures of [update] carry [CACHE_DICTIONARY_UPDATE_FAIL]. *)
Lemma update_failures_share_code now source dictionary update_unit e :
  (update_ now source dictionary update_unit).1.1 = Throw e ->
  code e = CACHE_DICTIONARY_UPDATE_FAIL.
Proof.
  unfold update.
  destruct (decide (now > backoff_end_time dictionary)) as [_|_].
  - destruct (fetch_ source (cache_storage dictionary) update_unit)
      as [[[n|e'|] storage'] update_unit']; simpl; try done.
    destruct (calculateDurationWithBackoff _ _). simpl.
    intros Heq. by inversion Heq.
  - simpl. intros Heq. by inversion Heq.
Qed.

(** C4, as the code has it.  While the time of the worker is not after
    [backoff_end_time], [update] leaves the source alone: the unit fails
    with the suppressed-by-backoff error that carries the deadline,
    whatever the source would answer, and the dictionary and the unit are
    as before, so that a retry inside the window fails with the same
    deadline.  Once the time is after the deadline, the outcome of [update]
    is the outcome of the fetch from the source. *)
Theorem update_backoff_window now source dictionary update_unit :
  now <= backoff_end_time dictionary ->
  (∀ any_source,
     update_ now any_source dictionary update_unit =
       (Throw (UpdateSuppressed (backoff_end_time dictionary)),
        dictionary, update_unit)) ∧
  (∀ retry_time,
     retry_time <= backoff_end_time dictionary ->
     let '(_, dictionary', update_unit') :=
       update_ now source dictionary update_unit in
     update_ retry_time source dictionary' update_unit' =
       (Throw (UpdateSuppressed (backoff_end_time dictionary)),
        dictionary, update_unit)) ∧
  (∀ later,
     later > backoff_end_time dictionary ->
     (update_ later source dictionary update_unit).1.1 =
       outcome_of_fetch
         (fetch_ source (cache_storage dictionary) update_unit).1.1).
Proof.
  intros Hnow. split; [|split].
  - intros any_source. by apply update_suppressed.
  - intros retry_time Hretry. rewrite update_suppressed by done.
    by apply update_suppressed.
  - intros later Hlater. by apply update_outcome_after_deadline.
Qed.

(** C7.  When the worker does fetch (its time is after the deadline):
    after a fetch that completes, [error_count] is [0], [last_exception] is
    empty and [backoff_end_time] is the zero time point; after a fetch that
    throws, [error_count] is incremented, the exception is stored, and
    [backoff_end_time] is the time of the worker plus the seconds that
    [calculateDurationWithBackoff] draws for the new [error_count]. *)
Theorem update_backoff_state now source dictionary update_unit
    outcome storage' update_unit' :
  now > backoff_end_time dictionary ->
  fetch_ source (cache_storage dictionary) update_unit =
    (outcome, storage', update_unit') ->
  let dictionary' := (update_ now source dictionary update_unit).1.2 in
  match outcome with
  | Ok _ =>
      (update_ now source dictionary update_unit).1.1 = Ok tt ∧
      error_count dictionary' = 0 ∧
      last_exception dictionary' = None ∧
      backoff_end_time dictionary' = 0
  | Throw e =>
      (update_ now source dictionary update_unit).1.1 = Throw (UpdateFailed e) ∧
      error_count dictionary' = size_t_incr (error_count dictionary) ∧
      last_exception dictionary' = Some e ∧
      backoff_end_time dictionary' =
        now + seconds (calculateDurationWithBackoff (rnd_engine dictionary)
                         (error_count dictionary')).1
  | Undefined => True
  end.
Proof.
  intros Hnow Hfetch. unfold update.
  destruct (decide (now > backoff_end_time dictionary)) as [_|Hle]; [|lia].
  rewrite Hfetch. destruct outcome as [n|e|]; simpl; [done| |done].
  destruct (calculateDurationWithBackoff _ _) as [duration rnd'] eqn:Hcalc.
  simpl. by rewrite Hcalc.
Qed.

(** *** The index of the unit *)

Lemma insert_block_columns_spec (fetch_request : DictionaryStorageFetchRequest Field)
    (block : Block Field) (skip n : nat) (columns : list (Column Field)) :
  ∀ i outcome columns',
    insert_block_columns fetch_request block skip n i columns
      = (outcome, columns') ->
    length columns' = length columns ∧
    ∀ j c', columns' !! j = Some c' ->
      ∃ c, columns !! j = Some c ∧
           (length c ≤ length c')%nat ∧
           (outcome = Ok tt ->
            shouldFillResultColumnWithIndex fetch_request (i + j) = true ->
            length c' = (length c + n)%nat).
Proof.
  induction columns as [|column rest IH]; intros i outcome columns' Hrun;
    simpl in Hrun.
  - inversion Hrun; subst. split; [done|]. intros j c' Hj. by destruct j.
  - destruct (shouldFillResultColumnWithIndex fetch_request i) eqn:Hfill.
    + destruct (block !! (skip + i)%nat) as [source_column|] eqn:Hblock.
      * unfold insertRangeFrom in Hrun.
        destruct (decide (n ≤ length source_column)%nat) as [Hn|Hn].
        -- destruct (insert_block_columns fetch_request block skip n (S i) rest)
             as [outcome0 rest'] eqn:Hrest.
           inversion Hrun; subst. destruct (IH _ _ _ Hrest) as [Hlen Hcols].
           split; [simpl; lia|]. intros [|j] c' Hj; simpl in Hj.
           ++ inversion Hj; subst. exists column. split; [done|].
              rewrite length_app, length_take. split; [lia|]. intros _ _. lia.
           ++ destruct (Hcols j c' Hj) as (c & Hc & Hle & Hok).
              exists c. split; [done|]. split; [done|].
              intros Hout Hf. apply Hok; [done|].
              by replace (S i + j)%nat with (i + S j)%nat by lia.
        -- inversion Hrun; subst. split; [done|]. intros j c' Hj.
           exists c'. split; [done|]. split; [lia|]. intros Hout; discriminate.
      * inversion Hrun; subst. split; [done|]. intros j c' Hj.
        exists c'. split; [done|]. split; [lia|]. intros Hout; discriminate.
    + destruct (insert_block_columns fetch_request block skip n (S i) rest)
        as [outcome0 rest'] eqn:Hrest.
      inversion Hrun; subst. destruct (IH _ _ _ Hrest) as [Hlen Hcols].
      split; [simpl; lia|]. intros [|j] c' Hj; simpl in Hj.
      * inversion Hj; subst. exists c'. split; [done|]. split; [lia|].
        intros _ Hf. rewrite Nat.add_0_r in Hf. congruence.
      * destruct (Hcols j c' Hj) as (c & Hc & Hle & Hok).
        exists c. split; [done|]. split; [done|].
        intros Hout Hf. apply Hok; [done|].
        by replace (S i + j)%nat with (i + S j)%nat by lia.
Qed.

Lemma record_fetched_keys_lookup (found_num : nat) (keys : list Key) :
  ∀ i (index : gmap Key nat) key row,
    record_fetched_keys found_num i keys index !! key = Some row ->
    index !! key = Some row ∨
    (key ∈ keys ∧ (found_num + i ≤ row < found_num + i + length keys)%nat).
Proof.
  induction keys as [|k rest IH]; intros i index key row Hrow; simpl in Hrow.
  - by left.
  - destruct (IH _ _ _ _ Hrow) as [Hold|[Hin Hrange]].
    + destruct (decide (k = key)) as [->|Hne].
      * rewrite lookup_insert_eq in Hold. inversion Hold; subst.
        right. split; [left|]. simpl. lia.
      * rewrite lookup_insert_ne in Hold by done. by left.
    + right. split; [by right|]. simpl. lia.
Qed.

Lemma process_block_spec (block : Block Field) (found_num : nat)
    (storage : Storage) (update_unit : CacheDictionaryUpdateUnit Field Key)
    outcome storage' update_unit' :
  process_block keys_size_of_structure block found_num storage update_unit
    = (outcome, storage', update_unit') ->
  filled_columns_have found_num update_unit ->
  request update_unit' = request update_unit ∧
  requested_simple_keys update_unit' = requested_simple_keys update_unit ∧
  filled_columns_reach found_num update_unit' ∧
  match outcome with
  | Ok found_num' =>
      (found_num ≤ found_num')%nat ∧
      filled_columns_have found_num' update_unit' ∧
      ∀ key row,
        requested_keys_to_fetched_columns_during_update_index update_unit'
          !! key = Some row ->
        requested_keys_to_fetched_columns_during_update_index update_unit
          !! key = Some row ∨
        (key ∈ getKeys (take keys_size_of_structure block) ∧
         (found_num ≤ row < found_num')%nat)
  | _ =>
      requested_keys_to_fetched_columns_during_update_index update_unit' =
      requested_keys_to_fetched_columns_during_update_index update_unit
  end.
Proof.
  intros Hrun Hhave. unfold process_block in Hrun.
  destruct (decide (length block < keys_size_of_structure)%nat) as [Hshort|_].
  { inversion Hrun; subst. repeat split; try done.
    intros i c Hf Hc. rewrite (Hhave i c Hf Hc). lia. }
  destruct (insert_block_columns _ _ _ _ _ _) as [outcome0 columns'] eqn:Hcols.
  destruct (insert_block_columns_spec _ _ _ _ _ _ _ _ Hcols) as [_ Hspec].
  assert (Hreach : ∀ i c,
    shouldFillResultColumnWithIndex (request update_unit) i = true ->
    columns' !! i = Some c -> (found_num ≤ length c)%nat).
  { intros i c' Hf Hc'. destruct (Hspec i c' Hc') as (c & Hc & Hle & _).
    rewrite <- (Hhave i c Hf Hc). lia. }
  destruct outcome0 as [[]|e|]; inversion Hrun; subst; simpl.
  - repeat split; try done; [lia| |].
    + intros i c' Hf Hc'. simpl in *.
      destruct (Hspec i c' Hc') as (c & Hc & _ & Hok).
      rewrite (Hok eq_refl Hf), (Hhave i c Hf Hc). done.
    + intros key row Hrow.
      destruct (record_fetched_keys_lookup _ _ _ _ _ _ Hrow) as [Hold|[Hin Hr]].
      * by left.
      * right. split; [done|lia].
  - repeat split; done.
  - repeat split; try done.
    intros i c Hf Hc. rewrite (Hhave i c Hf Hc). lia.
Qed.

Lemma read_blocks_spec (stream : BlockInputStream Field) :
  ∀ found_num (storage : Storage)
    (update_unit : CacheDictionaryUpdateUnit Field Key)
    outcome storage' update_unit',
    read_blocks keys_size_of_structure stream found_num storage update_unit
      = (outcome, storage', update_unit') ->
    filled_columns_have found_num update_unit ->
    request update_unit' = request update_unit ∧
    filled_columns_reach found_num update_unit' ∧
    ∀ key row,
      requested_keys_to_fetched_columns_during_update_index update_unit'
        !! key = Some row ->
      requested_keys_to_fetched_columns_during_update_index update_unit
        !! key = Some row ∨
      (key ∈ stream_keys keys_size_of_structure stream ∧
       filled_columns_reach (S row) update_unit').
Proof.
  induction stream as [|event rest IH];
    intros found_num storage update_unit outcome storage' update_unit' Hrun Hhave;
    simpl in Hrun.
  - inversion Hrun; subst. repeat split; [|by left..].
    intros i c Hf Hc. rewrite (Hhave i c Hf Hc). lia.
  - assert (Hstay : (outcome, storage', update_unit')
                      = (outcome, storage, update_unit) ->
      request update_unit' = request update_unit ∧
      filled_columns_reach found_num update_unit' ∧
      ∀ key row,
        requested_keys_to_fetched_columns_during_update_index update_unit'
          !! key = Some row ->
        requested_keys_to_fetched_columns_during_update_index update_unit
          !! key = Some row ∨
        (key ∈ stream_keys keys_size_of_structure (event :: rest) ∧
         filled_columns_reach (S row) update_unit')).
    { intros Heq. inversion Heq; subst. repeat split; [|by left..].
      intros i c Hf Hc. rewrite (Hhave i c Hf Hc). lia. }
    destruct event as [block|e]; [|inversion Hrun; subst; by apply Hstay].
    destruct block as [|column block]; [inversion Hrun; subst; by apply Hstay|].
    destruct (process_block _ (column :: block) _ _ _)
      as [[outcome1 storage1] unit1] eqn:Hblock.
    destruct (process_block_spec _ _ _ _ _ _ _ Hblock Hhave)
      as (Hreq & _ & Hreach & Hout).
    destruct outcome1 as [found_num'|e|].
    + destruct Hout as (Hle & Hhave' & Hindex).
      destruct (IH _ _ _ _ _ _ Hrun Hhave') as (Hreq' & Hreach' & Hindex').
      split; [congruence|]. split.
      { intros i c Hf Hc. specialize (Hreach' i c Hf Hc). lia. }
      intros key row Hrow.
      destruct (Hindex' key row Hrow) as [Hold|[Hin Hr]].
      * destruct (Hindex key row Hold) as [Hold'|[Hin Hr]]; [by left|].
        right. split; [cbn [stream_keys]; apply elem_of_app; by left|].
        intros i c Hf Hc. specialize (Hreach' i c Hf Hc). lia.
      * right. split; [cbn [stream_keys]; apply elem_of_app; by right|done].
    + inversion Hrun; subst. split; [done|]. split; [done|].
      intros key row Hrow. left. by rewrite <- Hout.
    + inversion Hrun; subst. split; [done|]. split; [done|].
      intros key row Hrow. left. by rewrite <- Hout.
Qed.

Lemma update_unit_after now source dictionary update_unit :
  (update_ now source dictionary update_unit).2 =
    if decide (now > backoff_end_time dictionary)
    then (fetch_ source (cache_storage dictionary) update_unit).2
    else update_unit.
Proof.
  unfold update.
  destruct (decide (now > backoff_end_time dictionary)) as [_|_]; [|done].
  destruct (fetch_ source (cache_storage dictionary) update_unit)
    as [[[n|e|] storage'] update_unit']; simpl; try done.
  by destruct (calculateDurationWithBackoff _ _).
Qed.

(** The units that the queries make are fresh. *)
Lemma make_update_unit_fresh key_columns (result : FetchResult Field Key)
    request_ :
  let update_unit := make_update_unit config key_columns result request_ in
  requested_keys_to_fetched_columns_during_update_index update_unit = ∅ ∧
  filled_columns_have O update_unit.
Proof.
  unfold make_update_unit.
  destruct (dictionary_key_type config); simpl; (split; [done|]);
    intros i column _ Hcolumn; simpl in Hcolumn;
    unfold makeAttributesResultColumns in Hcolumn;
    apply lookup_replicate_1 in Hcolumn as [-> _]; done.
Qed.

(** C5, as the code has it.  A unit enters [update] as its constructor made
    it: an empty index and empty output columns.  Whatever the outcome,
    every entry of the index afterwards is for a key of a block that the
    source returned for this unit, and its row lies inside every output
    column that the request fills.  The worker does not compare the keys of
    the source with the keys of the unit: the entries are requested keys
    when the source returns requested keys only. *)
Theorem update_index_entries now source dictionary update_unit key row :
  requested_keys_to_fetched_columns_during_update_index update_unit = ∅ ->
  filled_columns_have O update_unit ->
  let update_unit' := (update_ now source dictionary update_unit).2 in
  requested_keys_to_fetched_columns_during_update_index update_unit'
    !! key = Some row ->
  key ∈ source_keys config keys_size_of_structure source update_unit ∧
  (∀ i column,
     shouldFillResultColumnWithIndex (request update_unit) i = true ->
     fetched_columns_during_update update_unit' !! i = Some column ->
     (row < length column)%nat) ∧
  ((∀ returned,
      returned ∈ source_keys config keys_size_of_structure source update_unit ->
      returned ∈ requested_simple_keys update_unit) ->
   key ∈ requested_simple_keys update_unit).
Proof.
  intros Hempty Hhave update_unit' Hrow. subst update_unit'.
  assert (Hnone : ∀ P : Prop,
    requested_keys_to_fetched_columns_during_update_index update_unit
      !! key = Some row -> P).
  { intros P Hold. rewrite Hempty in Hold. by rewrite lookup_empty in Hold. }
  rewrite update_unit_after in Hrow |- *.
  destruct (decide (now > backoff_end_time dictionary)) as [_|_];
    [|by eapply Hnone].
  unfold source_keys. unfold fetch_from_source in Hrow |- *.
  destruct (load config source update_unit) as [stream|e|] eqn:Hload;
    simpl in Hrow |- *; [|by eapply Hnone..].
  destruct (read_blocks _ stream _ _ _) as [[outcome storage'] unit'] eqn:Hread.
  destruct (read_blocks_spec _ _ _ _ _ _ _ Hread Hhave)
    as (Hreq & _ & Hindex).
  simpl in Hrow |- *.
  destruct (Hindex key row Hrow) as [Hold|[Hin Hreach]]; [by eapply Hnone|].
  split; [done|]. split.
  - intros i column Hf Hc. rewrite <- Hreq in Hf.
    specialize (Hreach i column Hf Hc). lia.
  - intros Honly. by apply Honly.
Qed.

End WorkerFacts.

(** ** The merge *)

Section MergeFacts.

Context {Field Key : Type} `{Countable Key}.

Lemma insertFrom_Ok (column source_column column' : Column Field) row :
  insertFrom column source_column row = Ok column' ->
  ∃ v, column' = column ++ [v].
Proof.
  unfold insertFrom, at_index.
  destruct (_ !! row) as [v|]; simpl; [|done].
  intros Heq. inversion Heq. by exists v.
Qed.

Lemma for_each_key_rows (row : nat -> Key -> Result Field)
    (body : nat -> Key -> Column Field -> Result (Column Field)) :
  (∀ i key column,
     body i key column = (v ← row i key; Ok (column ++ [v]))) ->
  ∀ (keys : list Key) i (column column' : Column Field),
    for_each_key body i keys column = Ok column' ->
    ∃ rows,
      column' = column ++ rows ∧ length rows = length keys ∧
      ∀ j key, keys !! j = Some key ->
        ∃ v, rows !! j = Some v ∧ row (i + j)%nat key = Ok v.
Proof.
  intros Hbody keys. induction keys as [|key rest IH];
    intros i column column' Hrun; simpl in Hrun.
  - inversion Hrun; subst. exists []. rewrite app_nil_r.
    repeat split. intros j key Hj. by destruct j.
  - rewrite Hbody in Hrun. destruct (row i key) as [v|e|] eqn:Hrow;
      simpl in Hrun; try done.
    destruct (IH _ _ _ Hrun) as (rows & -> & Hlen & Hrows).
    exists (v :: rows). rewrite <- app_assoc. simpl.
    repeat split; [lia|]. intros [|j] key' Hj; simpl in Hj.
    + inversion Hj; subst. exists v. by rewrite Nat.add_0_r.
    + destruct (Hrows j key' Hj) as (v' & Hv' & Hrow').
      exists v'. split; [done|].
      by replace (i + S j)%nat with (S i + j)%nat by lia.
Qed.

Lemma for_each_attribute_columns
    (body : nat -> Column Field -> Result (Column Field)) :
  ∀ (columns : list (Column Field)) i result,
    for_each_attribute body i columns = Ok result ->
    length result = length columns ∧
    ∀ j column, columns !! j = Some column ->
      ∃ column', result !! j = Some column' ∧
                 body (i + j)%nat column = Ok column'.
Proof.
  induction columns as [|column rest IH]; intros i result Hrun; simpl in Hrun.
  - inversion Hrun; subst. split; [done|]. intros j c Hj. by destruct j.
  - destruct (body i column) as [column'|e|] eqn:Hbody; simpl in Hrun; try done.
    destruct (for_each_attribute body (S i) rest) as [others|e|] eqn:Hrest;
      simpl in Hrun; try done.
    inversion Hrun; subst. destruct (IH _ _ Hrest) as [Hlen Hcols].
    split; [simpl; lia|]. intros [|j] c Hj; simpl in Hj.
    + inversion Hj; subst. exists column'. by rewrite Nat.add_0_r.
    + destruct (Hcols j c Hj) as (c' & Hc' & Hb). exists c'. split; [done|].
      by replace (i + S j)%nat with (S i + j)%nat by lia.
Qed.

Lemma makeAttributesResultColumns_lookup
    (request_ : DictionaryStorageFetchRequest Field) i :
  shouldFillResultColumnWithIndex request_ i = true ->
  makeAttributesResultColumns request_ !! i = Some [].
Proof.
  intros Hfill. unfold makeAttributesResultColumns, attributesSize.
  apply lookup_replicate_2. unfold shouldFillResultColumnWithIndex in Hfill.
  destruct (request_structure request_ !! i) eqn:Hi; [|done].
  by apply lookup_lt_Some in Hi.
Qed.

(** The rows of [aggregateColumns]: one per key, chosen by precedence. *)
Lemma aggregateColumns_rows (keys : list Key)
    (request_ : DictionaryStorageFetchRequest Field)
    (columns_from_storage_ : list (Column Field)) (found_index : gmap Key nat)
    (columns_during_update : list (Column Field)) (update_index : gmap Key nat)
    (providers : list (DefaultValueProvider Field)) aggregated i :
  aggregateColumns keys request_ columns_from_storage_ found_index
    columns_during_update update_index providers = Ok aggregated ->
  shouldFillResultColumnWithIndex request_ i = true ->
  ∃ column column_from_storage column_during_update provider,
    aggregated !! i = Some column ∧
    columns_from_storage_ !! i = Some column_from_storage ∧
    columns_during_update !! i = Some column_during_update ∧
    providers !! i = Some provider ∧
    length column = length keys ∧
    ∀ j key, keys !! j = Some key ->
      ∃ v, column !! j = Some v ∧
           row_by_precedence found_index column_from_storage
             update_index column_during_update provider j key = Ok v.
Proof.
  intros Hrun Hfill. unfold aggregateColumns in Hrun.
  destruct (for_each_attribute_columns _ _ _ _ Hrun) as [_ Hcols].
  destruct (Hcols i [] (makeAttributesResultColumns_lookup _ _ Hfill))
    as (column & Hcolumn & Hbody).
  simpl in Hbody. rewrite Hfill in Hbody. simpl in Hbody.
  unfold at_index in Hbody.
  destruct (columns_from_storage_ !! i) as [cs|] eqn:Hcs; [|done].
  destruct (columns_during_update !! i) as [cu|] eqn:Hcu; [|done].
  destruct (providers !! i) as [p|] eqn:Hp; [|done]. simpl in Hbody.
  exists column, cs, cu, p. repeat split; try done.
  - eapply (for_each_key_rows
      (row_by_precedence found_index cs update_index cu p)) in Hbody.
    + destruct Hbody as (rows & -> & Hlen & _). by rewrite app_nil_l.
    + intros j key c. unfold row_by_precedence, insertFrom, insert_value.
      destruct (found_index !! key); [done|].
      destruct (update_index !! key); [done|].
      by destruct (getDefaultValue p j).
  - intros j key Hj.
    eapply (for_each_key_rows
      (row_by_precedence found_index cs update_index cu p)) in Hbody.
    + destruct Hbody as (rows & -> & _ & Hrows). rewrite app_nil_l.
      destruct (Hrows j key Hj) as (v & Hv & Hrow). by exists v.
    + intros j' key' c. unfold row_by_precedence, insertFrom, insert_value.
      destruct (found_index !! key'); [done|].
      destruct (update_index !! key'); [done|].
      by destruct (getDefaultValue p j').
Qed.

(** The rows of [aggregateColumnsInOrderOfKeys]: one for every key that one
    of the two indexes knows. *)
Lemma for_each_key_known (fetched_column : Column Field)
    (found_index expired_index : gmap Key nat) :
  ∀ (keys : list Key) i (column column' : Column Field),
    (∀ key, key ∈ keys ->
       is_Some (expired_index !! key) ∨ is_Some (found_index !! key)) ->
    for_each_key
      (fun _ key column =>
         match expired_index !! key with
         | Some row => insertFrom column fetched_column row
         | None =>
             match found_index !! key with
             | Some row => insertFrom column fetched_column row
             | None => Ok column
             end
         end) i keys column = Ok column' ->
    length column' = (length column + length keys)%nat.
Proof.
  induction keys as [|key rest IH]; intros i column column' Hknown Hrun;
    simpl in Hrun.
  - inversion Hrun; subst. simpl. lia.
  - assert (Hrest : ∀ k, k ∈ rest ->
      is_Some (expired_index !! k) ∨ is_Some (found_index !! k)).
    { intros k Hk. apply Hknown. by right. }
    assert (Hstep : ∀ row,
      (insertFrom column fetched_column row ≫=
         for_each_key
           (fun _ key column =>
              match expired_index !! key with
              | Some row => insertFrom column fetched_column row
              | None =>
                  match found_index !! key with
                  | Some row => insertFrom column fetched_column row
                  | None => Ok column
                  end
              end) (S i) rest) = Ok column' ->
      length column' = (length column + S (length rest))%nat).
    { intros row Hr.
      destruct (insertFrom column fetched_column row) as [c1|e|] eqn:Hins;
        simpl in Hr; try done.
      destruct (insertFrom_Ok _ _ _ _ Hins) as [v ->].
      rewrite (IH _ _ _ Hrest Hr), length_app. simpl. lia. }
    destruct (Hknown key) as [[row Hrow]|[row Hrow]]; [by left|..].
    + rewrite Hrow in Hrun. by apply (Hstep row).
    + rewrite Hrow in Hrun. destruct (expired_index !! key) as [row'|].
      * by apply (Hstep row').
      * by apply (Hstep row).
Qed.

Lemma aggregateColumnsInOrderOfKeys_lengths (keys : list Key)
    (request_ : DictionaryStorageFetchRequest Field)
    (fetched_columns_ : list (Column Field))
    (found_index expired_index : gmap Key nat) aggregated i column :
  (∀ key, key ∈ keys ->
     is_Some (expired_index !! key) ∨ is_Some (found_index !! key)) ->
  aggregateColumnsInOrderOfKeys keys request_ fetched_columns_
    found_index expired_index = Ok aggregated ->
  shouldFillResultColumnWithIndex request_ i = true ->
  aggregated !! i = Some column ->
  length column = length keys.
Proof.
  intros Hknown Hrun Hfill Hcolumn. unfold aggregateColumnsInOrderOfKeys in Hrun.
  destruct (for_each_attribute_columns _ _ _ _ Hrun) as [_ Hcols].
  destruct (Hcols i [] (makeAttributesResultColumns_lookup _ _ Hfill))
    as (column' & Hcolumn' & Hbody).
  rewrite Hcolumn in Hcolumn'. inversion Hcolumn'; subst column'.
  simpl in Hbody. rewrite Hfill in Hbody. simpl in Hbody.
  unfold at_index in Hbody.
  destruct (fetched_columns_ !! i) as [fetched_column|]; [|done].
  simpl in Hbody. by rewrite (for_each_key_known _ _ _ _ _ _ _ Hknown Hbody).
Qed.

(** The filter hands out columns of attributes that the request fills. *)
Lemma attribute_position_Some (structure : DictionaryStructure Field)
    attribute_name i :
  attribute_position structure attribute_name = Some i ->
  ∃ attribute, structure !! i = Some attribute ∧ name attribute = attribute_name.
Proof.
  revert i. induction structure as [|attribute rest IH]; intros i Hi;
    simpl in Hi; [done|].
  destruct (decide (name attribute = attribute_name)) as [Heq|Hne].
  - inversion Hi; subst. by exists attribute.
  - destruct (attribute_position rest attribute_name) as [i'|] eqn:Hrest;
      [|done].
    inversion Hi; subst. destruct (IH i' eq_refl) as (a & Ha & Hname).
    by exists a.
Qed.

Lemma filterRequestedColumns_Forall (P : Column Field -> Prop)
    (request_ : DictionaryStorageFetchRequest Field)
    (columns result : list (Column Field)) :
  filterRequestedColumns request_ columns = Ok result ->
  (∀ i column,
     shouldFillResultColumnWithIndex request_ i = true ->
     columns !! i = Some column -> P column) ->
  Forall P result.
Proof.
  unfold filterRequestedColumns. intros Hrun HP.
  assert (Hnames : ∀ attribute_name,
    attribute_name ∈ attributes_to_fetch request_ ->
    attribute_name ∈ attributes_to_fetch request_) by done.
  revert result Hrun Hnames.
  generalize (attributes_to_fetch request_) at 1 2 as names.
  induction names as [|attribute_name rest IH]; intros result Hrun Hnames;
    simpl in Hrun.
  - inversion Hrun; subst. constructor.
  - assert (Hrest : ∀ n, n ∈ rest -> n ∈ attributes_to_fetch request_).
    { intros n Hn. apply Hnames. by right. }
    destruct (attribute_position (request_structure request_) attribute_name)
      as [i|] eqn:Hposition; [|by apply IH].
    unfold at_index in Hrun.
    destruct (columns !! i) as [column|] eqn:Hcolumn; [|done].
    simpl in Hrun.
    destruct (filter_names _ columns rest) as [others|e|] eqn:Hothers;
      simpl in Hrun; try done.
    inversion Hrun; subst. constructor; [|by apply IH].
    apply (HP i); [|done].
    destruct (attribute_position_Some _ _ _ Hposition) as (a & Ha & Hname).
    unfold shouldFillResultColumnWithIndex, containsAttribute.
    rewrite Ha, Hname. apply bool_decide_eq_true_2, Hnames. by left.
Qed.

(** The filter, name by name: for names of the structure, the column of
    the name at the position [j] is the column at the position of the
    attribute in the structure. *)
Lemma attribute_position_is_Some (structure : list (DictionaryAttribute Field))
    attribute_name :
  attribute_name ∈ name <$> structure ->
  is_Some (attribute_position structure attribute_name).
Proof.
  induction structure as [|attribute rest IH]; simpl; intros Hin.
  - by apply elem_of_nil in Hin.
  - destruct (decide (name attribute = attribute_name)); [by eexists|].
    apply elem_of_cons in Hin as [Heq|Hin]; [done|].
    destruct (IH Hin) as [i ->]. by eexists.
Qed.

Lemma filter_names_lookup (structure : list (DictionaryAttribute Field))
    (columns : list (Column Field)) :
  ∀ names result,
    filter_names structure columns names = Ok result ->
    Forall (fun attribute_name => attribute_name ∈ name <$> structure) names ->
    length result = length names ∧
    ∀ j attribute_name i,
      names !! j = Some attribute_name ->
      attribute_position structure attribute_name = Some i ->
      ∃ column, result !! j = Some column ∧ columns !! i = Some column.
Proof.
  induction names as [|attribute_name rest IH]; intros result Hrun Hall;
    simpl in Hrun.
  - inversion Hrun; subst. split; [done|]. intros j n i Hj. by destruct j.
  - apply Forall_cons in Hall as [Hfirst Hrest].
    destruct (attribute_position_is_Some _ _ Hfirst) as [i Hi].
    rewrite Hi in Hrun. unfold at_index in Hrun.
    destruct (columns !! i) as [column|] eqn:Hcolumn; [|done].
    simpl in Hrun.
    destruct (filter_names structure columns rest) as [others|e|] eqn:Hothers;
      simpl in Hrun; try done.
    inversion Hrun; subst. destruct (IH _ eq_refl Hrest) as [Hlen Hlookup].
    split; [simpl; lia|]. intros [|j] n i' Hj Hi'; simpl in Hj.
    + inversion Hj; subst. rewrite Hi in Hi'. inversion Hi'; subst.
      by exists column.
    + by apply Hlookup with n.
Qed.




End MergeFacts.

(** ** The query pipeline *)

Section QueryFacts.

Context {Field Key : Type} `{Countable Key}.
Context {World : Type} {query_world : CacheDictionaryWorld Field Key World}.
Context `{!DictionaryKeysExtractor Field Key}.

Variable config : CacheDictionaryConfiguration Field.

(** The three branches of [getColumnsImpl], once the lookup has answered. *)
Lemma getColumnsImpl_branch attribute_names key_columns (keys : list Key)
    default_values_columns world result world1 :
  let request_ := {| request_structure := dict_struct config;
                     attributes_to_fetch := attribute_names |} in
  let update_unit := make_update_unit config key_columns result request_ in
  fetchColumnsForKeys keys request_ world = (Ok result, world1) ->
  getColumnsImpl config attribute_names key_columns keys
    default_values_columns world =
  match classify (allow_read_expired_keys config) keys result with
  | AllFound =>
      (columns_from_storage keys request_ result
         (returnsFetchedColumnsInOrderOfRequestedKeys world1), world1)
  | AsyncRefresh =>
      (do_ tryPushToUpdateQueueOrThrow update_unit;
       exec_lift
         (columns_from_storage keys request_ result
            (returnsFetchedColumnsInOrderOfRequestedKeys world1)))%exec world1
  | SyncUpdate =>
      (do_ tryPushToUpdateQueueOrThrow update_unit;
       do updated_unit <- waitForCurrentUpdateFinish update_unit;
       exec_lift
         (merge_after_update config keys request_ result
            (fetched_columns_during_update updated_unit)
            (requested_keys_to_fetched_columns_during_update_index updated_unit)
            default_values_columns))%exec world1
  end.
Proof.
  intros request_ update_unit Hfetch.
  unfold getColumnsImpl, exec_bind at 1. fold request_. rewrite Hfetch.
  unfold classify. fold update_unit.
  destruct ((_ =? 0) && (_ =? 0)); [done|].
  by destruct ((_ =? 0) && (0 <? _) && allow_read_expired_keys config).
Qed.

(** The branches of [hasKeys]: the sync update only when a key is neither
    found nor expired. *)
Lemma hasKeys_branch key_columns world result world1 :
  let keys := getKeys key_columns in
  let request_ := {| request_structure := dict_struct config;
                     attributes_to_fetch := [] |} in
  let update_unit := make_update_unit config key_columns result request_ in
  let not_found_keys_size :=
    size_t_sub (Z.of_nat (length keys))
      (Z.of_nat (size (found_keys_to_fetched_columns_index result)) +
       Z.of_nat (size (expired_keys_to_fetched_columns_index result))) in
  fetchColumnsForKeys keys request_ world = (Ok result, world1) ->
  hasKeys config key_columns world =
  match classify (allow_read_expired_keys config) keys result with
  | AllFound => (Ok (replicate (length keys) true), world1)
  | AsyncRefresh =>
      (do_ tryPushToUpdateQueueOrThrow update_unit;
       exec_ret (replicate (length keys) true))%exec world1
  | SyncUpdate =>
      if 0 <? not_found_keys_size then
        (do_ tryPushToUpdateQueueOrThrow update_unit;
         do updated_unit <- waitForCurrentUpdateFinish update_unit;
         exec_ret
           (map (has_key (found_keys_to_fetched_columns_index result)
                   (requested_keys_to_fetched_columns_during_update_index
                      updated_unit)) keys))%exec world1
      else
        (Ok (map (has_key (found_keys_to_fetched_columns_index result) ∅) keys),
         world1)
  end.
Proof.
  intros keys request_ update_unit not_found_keys_size Hfetch.
  unfold hasKeys, exec_bind at 1. fold keys request_. rewrite Hfetch.
  unfold classify. fold update_unit.
  rewrite (Z.add_comm (Z.of_nat (size (expired_keys_to_fetched_columns_index
                                         result)))).
  fold not_found_keys_size.
  destruct ((_ =? 0) && (_ =? 0)); [done|].
  destruct ((_ =? 0) && (0 <? _) && allow_read_expired_keys config); [done|].
  by destruct (0 <? not_found_keys_size).
Qed.

(** What the filter returns for a request of names of the structure: one
    column per name, the one of the attribute. *)
Lemma filterRequestedColumns_lookup attribute_names
    (columns result : list (Column Field)) :
  let request_ := {| request_structure := dict_struct config;
                     attributes_to_fetch := attribute_names |} in
  filterRequestedColumns request_ columns = Ok result ->
  Forall (fun attribute_name => attribute_name ∈ name <$> dict_struct config)
    attribute_names ->
  length result = length attribute_names ∧
  ∀ j attribute_name,
    attribute_names !! j = Some attribute_name ->
    ∃ i attribute column,
      attribute_position (dict_struct config) attribute_name = Some i ∧
      dict_struct config !! i = Some attribute ∧
      name attribute = attribute_name ∧
      shouldFillResultColumnWithIndex request_ i = true ∧
      result !! j = Some column ∧ columns !! i = Some column.
Proof.
  intros request_ Hrun Hnames. unfold filterRequestedColumns in Hrun.
  destruct (filter_names_lookup _ _ _ _ Hrun Hnames) as [Hlength Hlookup].
  split; [done|]. intros j attribute_name Hj.
  assert (Hin : attribute_name ∈ attribute_names)
    by (by eapply list_elem_of_lookup_2).
  destruct (attribute_position_is_Some (dict_struct config) attribute_name)
    as [i Hi]; [exact (proj1 (Forall_forall _ _) Hnames _ Hin)|].
  destruct (attribute_position_Some _ _ _ Hi) as (attribute & Hattribute & Hname).
  destruct (Hlookup j attribute_name i Hj Hi) as (column & Hresult & Hcolumn).
  exists i, attribute, column. repeat split; try done.
  unfold shouldFillResultColumnWithIndex, containsAttribute. simpl.
  rewrite Hattribute, Hname. by apply bool_decide_eq_true_2.
Qed.


Lemma classify_without_update allow (keys : list Key)
    (result : FetchResult Field Key) :
  classify allow keys result ≠ SyncUpdate ->
  size_t_sub (Z.of_nat (length keys))
    (Z.of_nat (size (expired_keys_to_fetched_columns_index result)) +
     Z.of_nat (size (found_keys_to_fetched_columns_index result))) = 0.
Proof.
  unfold classify. intros Hbranch.
  destruct (size_t_sub _ _ =? 0) eqn:Hzero; [by apply Z.eqb_eq|].
  by simpl in Hbranch.
Qed.

(** No key is absent: with distinct keys, every key is in one of the two
    indexes of a well-formed result, and the storage's columns have one row
    per key. *)
Lemma all_keys_known (keys : list Key) request_
    (result : FetchResult Field Key) :
  FetchResult_wf keys request_ result ->
  NoDup keys ->
  Z.of_nat (length keys) < 2 ^ 64 ->
  size_t_sub (Z.of_nat (length keys))
    (Z.of_nat (size (expired_keys_to_fetched_columns_index result)) +
     Z.of_nat (size (found_keys_to_fetched_columns_index result))) = 0 ->
  (size (found_keys_to_fetched_columns_index result) +
   size (expired_keys_to_fetched_columns_index result))%nat = length keys ∧
  ∀ key, key ∈ keys ->
    is_Some (expired_keys_to_fetched_columns_index result !! key) ∨
    is_Some (found_keys_to_fetched_columns_index result !! key).
Proof.
  intros [Hkeys Hdisjoint _ _] Hnodup Hbound Hzero.
  set (found := found_keys_to_fetched_columns_index result) in *.
  set (expired := expired_keys_to_fetched_columns_index result) in *.
  assert (Hsize : size (dom found ∪ dom expired)
                  = (size found + size expired)%nat).
  { rewrite size_union by done. by rewrite !size_dom. }
  assert (Hall : size (list_to_set keys : gset Key) = length keys).
  { by apply size_list_to_set. }
  assert (Hle : (size found + size expired ≤ length keys)%nat).
  { rewrite <- Hsize, <- Hall. by apply subseteq_size. }
  assert (Heq : (size found + size expired)%nat = length keys).
  { unfold size_t_sub in Hzero.
    rewrite Z.mod_small in Hzero by lia. lia. }
  split; [done|]. intros key Hkey.
  assert (Hsets : dom found ∪ dom expired = list_to_set keys).
  { apply set_subseteq_size_eq; [done|]. rewrite Hsize, Hall. lia. }
  assert (Hin : key ∈ dom found ∪ dom expired).
  { rewrite Hsets. by apply elem_of_list_to_set. }
  apply elem_of_union in Hin as [Hin|Hin]; apply elem_of_dom in Hin; auto.
Qed.

Lemma columns_from_storage_lengths (keys : list Key) request_
    (result : FetchResult Field Key) in_order columns :
  FetchResult_wf keys request_ result ->
  (size (found_keys_to_fetched_columns_index result) +
   size (expired_keys_to_fetched_columns_index result))%nat = length keys ->
  (∀ key, key ∈ keys ->
     is_Some (expired_keys_to_fetched_columns_index result !! key) ∨
     is_Some (found_keys_to_fetched_columns_index result !! key)) ->
  columns_from_storage keys request_ result in_order = Ok columns ->
  Forall (fun column => length column = length keys) columns.
Proof.
  intros Hwf Hsize Hknown Hrun. unfold columns_from_storage in Hrun.
  destruct in_order.
  - apply (filterRequestedColumns_Forall _ _ _ _ Hrun).
    intros i column Hfill Hcolumn.
    by rewrite (wf_rows _ _ _ Hwf i column Hfill Hcolumn).
  - destruct (aggregateColumnsInOrderOfKeys _ _ _ _ _)
      as [aggregated|e|] eqn:Hmerge; simpl in Hrun; try done.
    apply (filterRequestedColumns_Forall _ _ _ _ Hrun).
    intros i column Hfill Hcolumn.
    by apply (aggregateColumnsInOrderOfKeys_lengths
                _ _ _ _ _ _ _ _ Hknown Hmerge Hfill Hcolumn).
Qed.

Lemma merge_after_update_lengths (keys : list Key) request_
    (result : FetchResult Field Key) columns_during_update update_index
    default_values_columns columns :
  merge_after_update config keys request_ result columns_during_update
    update_index default_values_columns = Ok columns ->
  Forall (fun column => length column = length keys) columns.
Proof.
  unfold merge_after_update. intros Hrun.
  destruct (make_default_value_providers _ _ _ _) as [providers|e|];
    simpl in Hrun; try done.
  destruct (aggregateColumns _ _ _ _ _ _ _) as [aggregated|e|] eqn:Hmerge;
    simpl in Hrun; try done.
  apply (filterRequestedColumns_Forall _ _ _ _ Hrun).
  intros i column Hfill Hcolumn.
  destruct (aggregateColumns_rows _ _ _ _ _ _ _ _ _ Hmerge Hfill)
    as (column' & cs & cu & p & Hcolumn' & _ & _ & _ & Hlength & _).
  rewrite Hcolumn in Hcolumn'. by inversion Hcolumn'; subst.
Qed.

Lemma columns_from_storage_names attribute_names (keys : list Key)
    (result : FetchResult Field Key) in_order columns :
  columns_from_storage keys
    {| request_structure := dict_struct config;
       attributes_to_fetch := attribute_names |} result in_order = Ok columns ->
  Forall (fun attribute_name => attribute_name ∈ name <$> dict_struct config)
    attribute_names ->
  length columns = length attribute_names.
Proof.
  unfold columns_from_storage. intros Hrun Hnames. destruct in_order.
  - by destruct (filterRequestedColumns_lookup _ _ _ Hrun Hnames).
  - destruct (aggregateColumnsInOrderOfKeys _ _ _ _ _) as [aggregated|e|];
      simpl in Hrun; try done.
    by destruct (filterRequestedColumns_lookup _ _ _ Hrun Hnames).
Qed.

(** C6.  For distinct keys, names of attributes of the structure and a
    lookup that keeps the promises of the storage, [getColumnsImpl] returns
    one column per requested name, and the column of every requested name
    has one row per key, whichever of the three branches the query
    takes. *)
Theorem getColumnsImpl_one_row_per_key attribute_names key_columns
    (keys : list Key) default_values_columns world result world1
    columns world' :
  let request_ := {| request_structure := dict_struct config;
                     attributes_to_fetch := attribute_names |} in
  fetchColumnsForKeys keys request_ world = (Ok result, world1) ->
  FetchResult_wf keys request_ result ->
  NoDup keys ->
  Z.of_nat (length keys) < 2 ^ 64 ->
  Forall (fun attribute_name => attribute_name ∈ name <$> dict_struct config)
    attribute_names ->
  getColumnsImpl config attribute_names key_columns keys
    default_values_columns world = (Ok columns, world') ->
  length columns = length attribute_names ∧
  ∀ j attribute_name,
    attribute_names !! j = Some attribute_name ->
    ∃ column, columns !! j = Some column ∧ length column = length keys.
Proof.
  intros request_ Hfetch Hwf Hnodup Hbound Hnames Hrun.
  assert (Hcolumns :
    length columns = length attribute_names ∧
    Forall (fun column => length column = length keys) columns).
  { rewrite (getColumnsImpl_branch _ _ _ _ _ _ _ Hfetch) in Hrun.
    fold request_ in Hrun.
    destruct (classify (allow_read_expired_keys config) keys result)
      eqn:Hbranch.
    - assert (Hzero := classify_without_update
                         (allow_read_expired_keys config) keys result).
      rewrite Hbranch in Hzero. specialize (Hzero ltac:(done)).
      destruct (all_keys_known _ _ _ Hwf Hnodup Hbound Hzero)
        as [Hsize Hknown].
      inversion Hrun as [[Hreturned Hworld]]. split.
      + by apply (columns_from_storage_names _ _ _ _ _ Hreturned).
      + by apply (columns_from_storage_lengths
                    _ _ _ _ _ Hwf Hsize Hknown Hreturned).
    - assert (Hzero := classify_without_update
                         (allow_read_expired_keys config) keys result).
      rewrite Hbranch in Hzero. specialize (Hzero ltac:(done)).
      destruct (all_keys_known _ _ _ Hwf Hnodup Hbound Hzero)
        as [Hsize Hknown].
      unfold exec_bind, exec_lift in Hrun.
      destruct (tryPushToUpdateQueueOrThrow _ world1) as [[[]|e|] world2];
        try done.
      inversion Hrun as [[Hreturned Hworld]]. split.
      + by apply (columns_from_storage_names _ _ _ _ _ Hreturned).
      + by apply (columns_from_storage_lengths
                    _ _ _ _ _ Hwf Hsize Hknown Hreturned).
    - unfold exec_bind, exec_lift in Hrun.
      destruct (tryPushToUpdateQueueOrThrow _ world1) as [[[]|e|] world2];
        try done.
      destruct (waitForCurrentUpdateFinish _ world2)
        as [[updated|e|] world3]; try done.
      inversion Hrun as [[Hreturned Hworld]]. split.
      + unfold merge_after_update in Hreturned.
        destruct (make_default_value_providers _ _ _ _) as [providers|e|];
          simpl in Hreturned; try done.
        destruct (aggregateColumns _ _ _ _ _ _ _) as [aggregated|e|];
          simpl in Hreturned; try done.
        by destruct (filterRequestedColumns_lookup _ _ _ Hreturned Hnames).
      + by apply (merge_after_update_lengths _ _ _ _ _ _ _ Hreturned). }
  destruct Hcolumns as [Hlength Hrows]. split; [done|].
  intros j attribute_name Hj.
  destruct (lookup_lt_is_Some_2 columns j) as [column Hcolumn].
  { rewrite Hlength. by eapply lookup_lt_Some. }
  exists column. split; [done|].
  by apply (Forall_lookup_1 _ _ _ _ Hrows Hcolumn).
Qed.

(** C9.  [getColumn] is the first column of [getColumns] for the one
    attribute, the one type and the one column of defaults, with the same
    effects. *)
Theorem getColumn_is_front_of_getColumns attribute_name result_type
    key_columns key_types default_values_column (world : World) :
  getColumn config attribute_name result_type key_columns key_types
    default_values_column world =
  let '(columns, world') :=
    getColumns config [attribute_name] [result_type] key_columns key_types
      [default_values_column] world in
  (columns ≫= front, world').
Proof.
  unfold getColumn, exec_bind, exec_lift.
  by destruct (getColumns _ _ _ _ _ _ _) as [[columns|e|] world'].
Qed.

End QueryFacts.

(** ** Hierarchy *)

Section HierarchyFacts.

Context {World : Type}.
Variable toParent : list Z -> Exec World (list Z).
Variable null_value : Z.
Variable MAX_DEPTH : nat.



Lemma scan_positions_stable ancestor_ids parents :
  ∀ out children parents_idx new_children_idx out' children' n,
    scan_positions null_value ancestor_ids parents out children
      parents_idx new_children_idx = Ok (out', children', n) ->
    length out' = length out ∧
    ∀ i v, out !! i = Some v -> v ≠ not_calculated -> out' !! i = Some v.
Proof.
  induction out as [|out_value out_rest IH];
    intros children parents_idx new_children_idx out' children' n Hrun;
    simpl in Hrun.
  - inversion Hrun; subst. split; [done|]. intros i v Hi. by destruct i.
  - assert (Hcons : ∀ value children0 parents_idx0 new_children_idx0,
      (value = out_value ∨ out_value = not_calculated) ->
      ('(out0, children1, n0) ←
         scan_positions null_value ancestor_ids parents out_rest children0
           parents_idx0 new_children_idx0;
       Ok (value :: out0, children1, n0)) = Ok (out', children', n) ->
      length out' = length (out_value :: out_rest) ∧
      ∀ i v, (out_value :: out_rest) !! i = Some v ->
             v ≠ not_calculated -> out' !! i = Some v).
    { intros value children0 parents_idx0 new_children_idx0 Hvalue Hbind.
      destruct (scan_positions null_value ancestor_ids parents out_rest
                  children0 parents_idx0 new_children_idx0)
        as [[[out0 children1] n0]|e|] eqn:Hrest; simpl in Hbind; try done.
      inversion Hbind; subst. destruct (IH _ _ _ _ _ _ Hrest) as [Hlen Hstable].
      split; [simpl; lia|]. intros [|i] v Hi Hv; simpl in Hi |- *.
      - inversion Hi; subst. destruct Hvalue as [->|Hnot]; done.
      - by apply Hstable. }
    destruct (decide (out_value ≠ not_calculated)) as [Hdone|Hnot].
    { eapply Hcons; [|exact Hrun]. by left. }
    assert (Hout : out_value = not_calculated)
      by (destruct (decide (out_value = not_calculated)); [done|contradiction]).
    destruct (at_index parents parents_idx) as [parent|e|];
      simpl in Hrun; try done.
    destruct (decide (parent = null_value)) as [_|_].
    { eapply Hcons; [|exact Hrun]. by right. }
    destruct (getAt ancestor_ids parents_idx) as [ancestor|e|];
      simpl in Hrun; try done.
    destruct (decide (parent = ancestor)) as [_|_].
    { eapply Hcons; [|exact Hrun]. by right. }
    destruct (at_index children new_children_idx) as [child|e|];
      simpl in Hrun; try done.
    destruct (decide (child = parent)) as [_|_].
    { eapply Hcons; [|exact Hrun]. by right. }
    eapply Hcons; [|exact Hrun]. by left.
Qed.

Lemma isIn_iterations_stable ancestor_ids :
  ∀ remaining out children parents world out' world',
    isIn_iterations toParent null_value remaining ancestor_ids
      out children parents world = (Ok out', world') ->
    length out' = length out ∧
    ∀ i v, out !! i = Some v -> v ≠ not_calculated -> out' !! i = Some v.
Proof.
  induction remaining as [|remaining IH];
    intros out children parents world out' world' Hrun; simpl in Hrun.
  - inversion Hrun; subst. done.
  - unfold exec_bind, exec_lift, exec_ret in Hrun.
    destruct (scan_positions null_value ancestor_ids parents out children 0 0)
      as [[[out1 children1] new_children_idx]|e|] eqn:Hscan; try done.
    destruct (scan_positions_stable _ _ _ _ _ _ _ _ _ Hscan) as [Hlen Hstable].
    destruct (decide (new_children_idx = O)) as [_|_].
    { inversion Hrun; subst. done. }
    destruct (toParent (take new_children_idx children1) world)
      as [[parents'|e|] world1]; try done.
    destruct (IH _ _ _ _ _ _ Hrun) as [Hlen' Hstable'].
    split; [lia|]. intros i v Hi Hv. apply Hstable'; [|done]. by apply Hstable.
Qed.






Lemma find_all_ancestors_keeps :
  ∀ remaining child ancestors world result world',
    find_all_ancestors toParent null_value remaining child ancestors world
      = (Ok result, world') ->
    ∀ a, a ∈ ancestors -> a ∈ result.
Proof.
  induction remaining as [|remaining IH];
    intros child ancestors world result world' Hrun a Ha; simpl in Hrun.
  - by inversion Hrun; subst.
  - unfold exec_bind, exec_lift, exec_ret in Hrun.
    destruct (toParent child world) as [[parent|e|] world1]; try done.
    destruct (at_index parent 0) as [parent_0|e|]; try done.
    destruct (decide (parent_0 = null_value)) as [_|_].
    + by inversion Hrun; subst.
    + apply (IH _ _ _ _ _ Hrun). apply elem_of_app. by left.
Qed.

Lemma find_all_ancestors_returns :
  (∀ ids world, ∃ parents world',
     toParent ids world = (Ok parents, world') ∧ parents ≠ []) ->
  ∀ remaining child ancestors world,
    ∃ result world',
      find_all_ancestors toParent null_value remaining child ancestors world
        = (Ok result, world').
Proof.
  intros Htotal. induction remaining as [|remaining IH];
    intros child ancestors world; simpl.
  - by eexists _, _.
  - unfold exec_bind, exec_lift, exec_ret.
    destruct (Htotal child world) as (parents & world1 & -> & Hparents).
    destruct parents as [|parent_0 parents]; [done|]. simpl.
    destruct (decide (parent_0 = null_value)) as [_|_]; [by eexists _, _|].
    apply IH.
Qed.

Lemma search_ancestors_spec (ancestors ancestor_ids : list Z) :
  ∀ out_size i out,
    search_ancestors ancestors ancestor_ids i out_size = Ok out ->
    length out = out_size ∧
    ∀ j a, (j < out_size)%nat -> ancestor_ids !! (i + j)%nat = Some a ->
      out !! j = Some (if decide (a ∈ ancestors) then 1 else 0).
Proof.
  induction out_size as [|out_size IH]; intros i out Hrun; simpl in Hrun.
  - inversion Hrun; subst. split; [done|]. intros j a Hj. lia.
  - unfold at_index in Hrun.
    destruct (ancestor_ids !! i) as [ancestor_id|] eqn:Hi; simpl in Hrun;
      [|done].
    destruct (search_ancestors ancestors ancestor_ids (S i) out_size)
      as [rest|e|] eqn:Hrest; simpl in Hrun; try done.
    inversion Hrun; subst. destruct (IH _ _ Hrest) as [Hlen Hrows].
    split; [simpl; lia|]. intros [|j] a Hj Ha.
    + rewrite Nat.add_0_r in Ha. rewrite Hi in Ha. by inversion Ha; subst.
    + simpl. apply Hrows; [lia|].
      by replace (S i + j)%nat with (i + S j)%nat by lia.
Qed.

Lemma search_ancestors_returns (ancestors ancestor_ids : list Z) :
  ∀ out_size i,
    (i + out_size ≤ length ancestor_ids)%nat ->
    ∃ out, search_ancestors ancestors ancestor_ids i out_size = Ok out.
Proof.
  induction out_size as [|out_size IH]; intros i Hlen; simpl.
  - by eexists.
  - unfold at_index.
    destruct (lookup_lt_is_Some_2 ancestor_ids i ltac:(lia)) as [a ->]. simpl.
    destruct (IH (S i) ltac:(lia)) as [rest ->]. simpl. by eexists.
Qed.

(** C10.  [isInConstantVector] puts the child into [ancestors] before the
    first call of [toParent]: whenever it returns, whatever [toParent]
    answered, the output has [out_size] rows and is [1] at every position
    whose ancestor is the child; and it does return when the calls of
    [toParent] return a parent and [ancestor_ids] has [out_size] rows. *)
Theorem isInConstantVector_child_is_own_ancestor child_id ancestor_ids
    out_size world :
  (∀ out world',
     isInConstantVector toParent null_value MAX_DEPTH child_id ancestor_ids
       out_size world = (Ok out, world') ->
     length out = out_size ∧
     ∀ i, (i < out_size)%nat -> ancestor_ids !! i = Some child_id ->
          out !! i = Some 1) ∧
  ((∀ ids world0, ∃ parents world1,
      toParent ids world0 = (Ok parents, world1) ∧ parents ≠ []) ->
   (out_size ≤ length ancestor_ids)%nat ->
   ∃ out world',
     isInConstantVector toParent null_value MAX_DEPTH child_id ancestor_ids
       out_size world = (Ok out, world')).
Proof.
  unfold isInConstantVector, exec_bind, exec_lift. split.
  - intros out world' Hrun.
    destruct (find_all_ancestors toParent null_value MAX_DEPTH [child_id]
                [child_id] world) as [[ancestors|e|] world1] eqn:Hfind;
      try done.
    inversion Hrun as [[Hsearch Hworld]].
    destruct (search_ancestors_spec _ _ _ _ _ Hsearch) as [Hlen Hrows].
    split; [done|]. intros i Hi Hchild.
    rewrite (Hrows i child_id Hi Hchild).
    destruct (decide (child_id ∈ ancestors)) as [_|Hnot]; [done|].
    exfalso. apply Hnot.
    apply (find_all_ancestors_keeps _ _ _ _ _ _ Hfind). by left.
  - intros Htotal Hlen.
    destruct (find_all_ancestors_returns Htotal MAX_DEPTH [child_id] [child_id]
                world) as (ancestors & world1 & ->).
    destruct (search_ancestors_returns ancestors ancestor_ids out_size O
                ltac:(lia)) as [out ->].
    by eexists _, _.
Qed.

End HierarchyFacts.

(** ** The properties at concrete dictionaries *)

Module Instances.

Import UInt64Dictionary Examples MoreExamples.


(** C2, at the failing input.  The key [9] is expired in the storage,
    expired reads are not allowed, the source knows [9]: the lookup is
    classified for the sync update.  [hasKeys] answers [false] and leaves
    the world as the lookup left it: no unit in the queue, nothing asked
    from the source, nothing inserted.  [getColumns] on the same key and
    world pushes the unit and waits: the source is asked, its row is
    inserted and returned. *)
Theorem hasKeys_skips_update_of_expired_keys :
  classify false [9]
    (expired_result {| request_structure := structure_a;
                       attributes_to_fetch := [] |}) = SyncUpdate ∧
  hasKeys (CacheDictionaryWorld0 := world_of (config_a false))
    (config_a false) [[9]] expired_world = (Ok [false], expired_world) ∧
  let after :=
    getColumns (CacheDictionaryWorld0 := world_of (config_a false))
      (config_a false) ["a"%string] [DataTypeUInt64] [[9]] [DataTypeUInt64]
      [Some [-1]] expired_world in
  after.1 = Ok [[91]] ∧
  inserted (cache_storage (world_dictionary after.2)) = [([9], [[91]])].
Proof. repeat split; reflexivity. Qed.

(** C3, at the failing input of C2.  For the expired key [9], [hasKeys]
    answers [false], while [getColumns] on the same key and world returns
    the value [91] that the update fetched, not the default [-1]: the unit
    that its worker filled has the key in its index, so that the key was
    fetched during the update. *)
Theorem hasKeys_disagrees_with_getColumns_on_expired_key :
  (hasKeys (CacheDictionaryWorld0 := world_of (config_a false))
     (config_a false) [[9]] expired_world).1 = Ok [false] ∧
  (getColumns (CacheDictionaryWorld0 := world_of (config_a false))
     (config_a false) ["a"%string] [DataTypeUInt64] [[9]] [DataTypeUInt64]
     [Some [-1]] expired_world).1 = Ok [[91]] ∧
  let updated_unit :=
    (update_a 100 source_689 (world_dictionary expired_world) (unit_for [9])).2 in
  map (has_key
         (found_keys_to_fetched_columns_index (expired_result request_a))
         (requested_keys_to_fetched_columns_during_update_index updated_unit))
    [9] = [true].
Proof. repeat split; reflexivity. Qed.

(** Inside the window that a failure at the time [100] opened, the worker
    is refused with the deadline, and nothing changes. *)
Lemma update_backoff_window_witness :
  200 <= backoff_end_time dictionary_in_backoff ∧
  update_a 200 source_689 dictionary_in_backoff (unit_for [6]) =
    (Throw (UpdateSuppressed 1000000100), dictionary_in_backoff, unit_for [6]).
Proof.
  assert (Hnow : 200 <= backoff_end_time dictionary_in_backoff)
    by (vm_compute; congruence).
  split; [exact Hnow|].
  destruct (update_backoff_window backoff_without_jitter (config_a false) 1
              200 source_689 dictionary_in_backoff (unit_for [6]) Hnow)
    as [Hsuppressed _].
  exact (Hsuppressed source_689).
Defined.

(** C4 as stated fails at the deadline itself: the time is not before
    [backoff_end_time], the source would answer, and the worker is still
    refused. *)
Lemma update_at_the_deadline_is_suppressed :
  let now := backoff_end_time dictionary_in_backoff in
  ¬ (now < backoff_end_time dictionary_in_backoff) ∧
  (fetch_a source_689 (cache_storage dictionary_in_backoff) (unit_for [6])).1.1
    = Ok 1%nat ∧
  (update_a now source_689 dictionary_in_backoff (unit_for [6])).1.1
    = Throw (UpdateSuppressed now).
Proof. repeat split; [lia|reflexivity..]. Qed.

(** C5 as stated fails for a source that sends a key it was not asked
    for: the unit asked for [1] and its index gains [2]. *)
Lemma update_index_gains_key_never_requested :
  let update_unit' :=
    (update_a 100 stubborn_source fresh_dictionary (unit_for [1])).2 in
  requested_simple_keys update_unit' = [1] ∧
  requested_keys_to_fetched_columns_during_update_index update_unit' !! 2
    = Some O ∧
  2 ∉ requested_simple_keys update_unit'.
Proof.
  repeat split; [reflexivity..|].
  intros Hin. apply list_elem_of_singleton in Hin. discriminate.
Qed.

(** The unit for [6; 8]: the entry of [8] is the second row of the one
    column. *)
Lemma update_index_entries_witness :
  let update_unit' :=
    (update_a 100 source_689 fresh_dictionary (unit_for [6; 8])).2 in
  requested_keys_to_fetched_columns_during_update_index update_unit' !! 8
    = Some 1%nat ∧
  fetched_columns_during_update update_unit' = [[60; 81]] ∧
  8 ∈ source_keys (config_a false) 1 source_689 (unit_for [6; 8]).
Proof.
  assert (Hfresh : filled_columns_have O (unit_for [6; 8])).
  { intros [|i] column Hfill Hcolumn; [|done]. by inversion Hcolumn. }
  assert (Hrow :
    requested_keys_to_fetched_columns_during_update_index
      (update_a 100 source_689 fresh_dictionary (unit_for [6; 8])).2 !! 8
    = Some 1%nat) by reflexivity.
  repeat split; [reflexivity..|].
  destruct (update_index_entries backoff_without_jitter (config_a false) 1
              100 source_689 fresh_dictionary (unit_for [6; 8]) 8 1%nat
              eq_refl Hfresh Hrow) as [Hin _].
  exact Hin.
Defined.

(** The lookups of the three examples keep the promises of a storage. *)
Lemma found_result_wf : FetchResult_wf [5] request_a (found_result request_a).
Proof.
  split; simpl.
  - rewrite dom_empty_L, dom_singleton_L. set_solver.
  - rewrite dom_empty_L. set_solver.
  - intros [|i] column Hfill Hcolumn; [|done]. by inversion Hcolumn.
  - intros key row [Hrow|Hrow]; [|by rewrite lookup_empty in Hrow].
    apply lookup_singleton_Some in Hrow as [_ <-].
    rewrite map_size_empty, map_size_singleton. lia.
Qed.

Lemma expired_result_wf :
  FetchResult_wf [9] request_a (expired_result request_a).
Proof.
  split; simpl.
  - rewrite dom_empty_L, dom_singleton_L. set_solver.
  - rewrite dom_empty_L. set_solver.
  - intros [|i] column Hfill Hcolumn; [|done]. by inversion Hcolumn.
  - intros key row [Hrow|Hrow]; [by rewrite lookup_empty in Hrow|].
    apply lookup_singleton_Some in Hrow as [_ <-].
    rewrite map_size_empty, map_size_singleton. lia.
Qed.

Lemma mixed_result_wf :
  FetchResult_wf mixed_keys request_a (mixed_result request_a).
Proof.
  split.
  - cbn [mixed_result found_keys_to_fetched_columns_index
           expired_keys_to_fetched_columns_index].
    rewrite !dom_singleton_L. intros key Hkey.
    apply elem_of_list_to_set. unfold mixed_keys.
    apply elem_of_union in Hkey as [Hkey|Hkey];
      apply elem_of_singleton in Hkey as ->.
    + apply list_elem_of_here.
    + do 3 apply list_elem_of_further. apply list_elem_of_here.
  - cbn [mixed_result found_keys_to_fetched_columns_index
           expired_keys_to_fetched_columns_index].
    rewrite !dom_singleton_L. apply disjoint_singleton_l.
    rewrite elem_of_singleton. discriminate.
  - simpl. intros [|i] column Hfill Hcolumn; [|done]. by inversion Hcolumn.
  - simpl. intros key row [Hrow|Hrow];
      apply lookup_singleton_Some in Hrow as [_ <-];
      rewrite !map_size_singleton; lia.
Qed.

Lemma mixed_keys_NoDup : NoDup mixed_keys.
Proof.
  unfold mixed_keys. apply NoDup_ListNoDup. repeat constructor; simpl; lia.
Qed.

Lemma names_of_structure_a allow :
  Forall (fun attribute_name : string =>
            attribute_name ∈ name <$> dict_struct (config_a allow))
    ["a"%string].
Proof.
  apply Forall_cons. split; [apply list_elem_of_here|apply Forall_nil_2].
Qed.

(** The three branches, for the attribute [a]: the key [5] found (all-hit),
    the key [9] expired with expired reads allowed (async refresh), and the
    keys [5; 6; 7; 8] (sync update). *)
Lemma getColumnsImpl_one_row_per_key_witness :
  (classify false [5] (found_result request_a) = AllFound ∧
   ∃ column, [[50]] !! 0%nat = Some column ∧ length column = length [5]) ∧
  (classify true [9] (expired_result request_a) = AsyncRefresh ∧
   ∃ column, [[90]] !! 0%nat = Some column ∧ length column = length [9]) ∧
  (classify false mixed_keys (mixed_result request_a) = SyncUpdate ∧
   ∃ column, [[50; 60; -1; 81]] !! 0%nat = Some column ∧
             length column = length mixed_keys).
Proof.
  assert (Hbound : ∀ keys : list Z,
    (length keys ≤ 4)%nat -> Z.of_nat (length keys) < 2 ^ 64) by (intros; lia).
  split; [|split]; (split; [reflexivity|]).
  - assert (Hrun :
      getColumnsImpl (CacheDictionaryWorld0 := world_of (config_a false))
        (config_a false) ["a"%string] [[5]] [5] [Some [-1]] found_world
      = (Ok [[50]], found_world)) by reflexivity.
    destruct (getColumnsImpl_one_row_per_key
                (query_world := world_of (config_a false))
                (config_a false) ["a"%string] [[5]] [5] [Some [-1]]
                found_world (found_result request_a) found_world [[50]]
                found_world eq_refl found_result_wf (NoDup_singleton 5)
                (Hbound [5] ltac:(simpl; lia)) (names_of_structure_a false)
                Hrun) as [_ Hrows].
    exact (Hrows 0%nat "a"%string eq_refl).
  - assert (Hrun :
      getColumnsImpl (CacheDictionaryWorld0 := world_of (config_a true))
        (config_a true) ["a"%string] [[9]] [9] [Some [-1]] expired_world
      = (Ok [[90]],
         (getColumnsImpl (CacheDictionaryWorld0 := world_of (config_a true))
            (config_a true) ["a"%string] [[9]] [9] [Some [-1]]
            expired_world).2)) by reflexivity.
    destruct (getColumnsImpl_one_row_per_key
                (query_world := world_of (config_a true))
                (config_a true) ["a"%string] [[9]] [9] [Some [-1]]
                expired_world (expired_result request_a) expired_world [[90]]
                _ eq_refl expired_result_wf (NoDup_singleton 9)
                (Hbound [9] ltac:(simpl; lia)) (names_of_structure_a true)
                Hrun) as [_ Hrows].
    exact (Hrows 0%nat "a"%string eq_refl).
  - assert (Hrun :
      getColumnsImpl (CacheDictionaryWorld0 := world_of (config_a false))
        (config_a false) ["a"%string] [mixed_keys] mixed_keys
        [Some [-1; -1; -1; -1]] mixed_world
      = (Ok [[50; 60; -1; 81]],
         (getColumnsImpl (CacheDictionaryWorld0 := world_of (config_a false))
            (config_a false) ["a"%string] [mixed_keys] mixed_keys
            [Some [-1; -1; -1; -1]] mixed_world).2)) by reflexivity.
    destruct (getColumnsImpl_one_row_per_key
                (query_world := world_of (config_a false))
                (config_a false) ["a"%string] [mixed_keys] mixed_keys
                [Some [-1; -1; -1; -1]] mixed_world (mixed_result request_a)
                mixed_world [[50; 60; -1; 81]] _ eq_refl mixed_result_wf
                mixed_keys_NoDup (Hbound mixed_keys ltac:(simpl; lia))
                (names_of_structure_a false) Hrun) as [_ Hrows].
    exact (Hrows 0%nat "a"%string eq_refl).
Defined.

(** A fetch that completes and a fetch that throws, both at the time [100]
    from the fresh dictionary. *)
Lemma update_backoff_state_witness :
  let completed :=
    (update_a 100 source_689 fresh_dictionary (unit_for [6])).1.2 in
  let failed :=
    (update_a 100 failing_source fresh_dictionary (unit_for [6])).1.2 in
  (error_count completed = 0 ∧ last_exception completed = None ∧
   backoff_end_time completed = 0) ∧
  (error_count failed = 1 ∧
   last_exception failed = Some (ForeignException "down") ∧
   backoff_end_time failed = 100 + seconds 1).
Proof.
  assert (Hnow : 100 > backoff_end_time fresh_dictionary)
    by (vm_compute; congruence).
  split.
  - pose proof (update_backoff_state backoff_without_jitter (config_a false) 1
                  100 source_689 fresh_dictionary (unit_for [6]) (Ok 1%nat)
                  (fetch_a source_689 (cache_storage fresh_dictionary)
                     (unit_for [6])).1.2
                  (fetch_a source_689 (cache_storage fresh_dictionary)
                     (unit_for [6])).2
                  Hnow eq_refl) as (_ & Hcount & Hexception & Htime).
    split; [exact Hcount|split; [exact Hexception|exact Htime]].
  - pose proof (update_backoff_state backoff_without_jitter (config_a false) 1
                  100 failing_source fresh_dictionary (unit_for [6])
                  (Throw (ForeignException "down"))
                  (fetch_a failing_source (cache_storage fresh_dictionary)
                     (unit_for [6])).1.2
                  (fetch_a failing_source (cache_storage fresh_dictionary)
                     (unit_for [6])).2
                  Hnow eq_refl) as (_ & Hcount & Hexception & Htime).
    split; [exact Hcount|split; [exact Hexception|exact Htime]].
Defined.


(** With several positions the cursors of [isInImpl] part from the
    position once an earlier position is calculated: for [2 -> 3 -> 4] and
    the children [1; 2], the second position is compared with the ancestor
    of the first.  Asked for [4], an ancestor of [2], it answers [0]; asked
    for [7], with [4] asked at the first position, it answers [1]. *)
Lemma isInVectorVector_reads_ancestor_of_other_position :
  (isInVectorVector toParent_of_dictionary 0
     DBMS_HIERARCHICAL_DICTIONARY_MAX_DEPTH [1; 2] [9; 4] 2
     (hierarchy_world chain_234)).1 = Ok [0; 0] ∧
  (isInVectorVector toParent_of_dictionary 0
     DBMS_HIERARCHICAL_DICTIONARY_MAX_DEPTH [1; 2] [4; 7] 2
     (hierarchy_world chain_234)).1 = Ok [0; 1].
Proof. split; vm_compute; reflexivity. Qed.

(** The filler [0] of [children] takes part in the first round: with a
    null value other than [0], the child [0] that is neither the null value
    nor the ancestor is taken for a loop at once, without a lookup. *)
Lemma isIn_takes_child_zero_for_a_loop :
  let run :=
    isInVectorConstant (counting (toParent_of_function chain_321)) 7
      DBMS_HIERARCHICAL_DICTIONARY_MAX_DEPTH [0] 9 1 (tt, O) in
  run.1 = Ok [1] ∧ run.2.2 = O.
Proof. split; vm_compute; reflexivity. Qed.


(** The child [3] asked against [3; 1; 7], through the dictionary. *)
Lemma isInConstantVector_child_is_own_ancestor_witness :
  let run :=
    isInConstantVector toParent_of_dictionary 0
      DBMS_HIERARCHICAL_DICTIONARY_MAX_DEPTH 3 [3; 1; 7] 3
      (hierarchy_world chain_321) in
  run.1 = Ok [1; 1; 0] ∧ [1; 1; 0] !! O = Some 1.
Proof.
  split; [vm_compute; reflexivity|].
  destruct (isInConstantVector_child_is_own_ancestor toParent_of_dictionary 0
              DBMS_HIERARCHICAL_DICTIONARY_MAX_DEPTH 3 [3; 1; 7] 3
              (hierarchy_world chain_321)) as [Hown _].
  destruct (Hown [1; 1; 0]
              (isInConstantVector toParent_of_dictionary 0
                 DBMS_HIERARCHICAL_DICTIONARY_MAX_DEPTH 3 [3; 1; 7] 3
                 (hierarchy_world chain_321)).2) as [_ Hrows].
  - vm_compute. reflexivity.
  - apply (Hrows O); [lia|reflexivity].
Defined.

End Instances.

(** * Further properties *)

(** ** What a completed fetch leaves in the unit *)

Section FetchFacts.

Context {Field Key : Type} `{Countable Key}.
Context {Storage Rnd Source : Type}.
Context `{!ICacheDictionaryStorage Field Key Storage}.
Context `{!IDictionarySource Field Key Source}.
Context `{!DictionaryKeysExtractor Field Key}.

Variable calculateDurationWithBackoff : Rnd -> Z -> Z * Rnd.
Variable config : CacheDictionaryConfiguration Field.
Variable keys_size_of_structure : nat.

#[local] Abbreviation update_ :=
  (update calculateDurationWithBackoff config keys_size_of_structure).
#[local] Abbreviation fetch_ := (fetch_from_source config keys_size_of_structure).
#[local] Abbreviation keys_of_ := (keys_of_blocks keys_size_of_structure).
#[local] Abbreviation rows_of_ := (rows_of_blocks keys_size_of_structure).

Lemma last_occurrence_app (previous keys : list Key) key row :
  last_occurrence (previous ++ keys) key row ↔
  ((∃ place, last_occurrence keys key place ∧
               row = (length previous + place)%nat) ∨
   ((key ∉ keys) ∧ last_occurrence previous key row)).
Proof.
  unfold last_occurrence. split.
  - intros [Hrow Hlast].
    destruct (decide (row < length previous)%nat) as [Hlt|Hge].
    + right. rewrite lookup_app_l in Hrow by done.
      assert (Hnot : key ∉ keys).
      { intros Hin. apply list_elem_of_lookup in Hin as [p Hp].
        apply (Hlast (length previous + p)%nat); [lia|].
        rewrite lookup_app_r by lia.
        by replace (length previous + p - length previous)%nat with p by lia. }
      split; [done|]. split; [done|]. intros row' Hrow' Hkey.
      apply (Hlast row' Hrow').
      destruct (decide (row' < length previous)%nat) as [Hlt'|Hge'].
      * by rewrite lookup_app_l.
      * rewrite lookup_ge_None_2 in Hkey by lia. done.
    + left. exists (row - length previous)%nat.
      rewrite lookup_app_r in Hrow by lia. split; [|lia].
      split; [done|]. intros row' Hrow' Hkey.
      apply (Hlast (length previous + row')%nat); [lia|].
      rewrite lookup_app_r by lia.
      by replace (length previous + row' - length previous)%nat with row' by lia.
  - intros [(p & [Hp Hlast] & ->)|(Hnot & Hrow & Hlast)].
    + split.
      * rewrite lookup_app_r by lia.
        by replace (length previous + p - length previous)%nat with p by lia.
      * intros row' Hrow'. rewrite lookup_app_r by lia.
        apply Hlast. lia.
    + assert (Hlt : (row < length previous)%nat).
      { by eapply lookup_lt_Some. }
      split; [by rewrite lookup_app_l|]. intros row' Hrow'.
      destruct (decide (row' < length previous)%nat) as [Hlt'|Hge'].
      * rewrite lookup_app_l by done. by apply Hlast.
      * rewrite lookup_app_r by lia. intros Hkey. apply Hnot.
        apply list_elem_of_lookup. eauto.
Qed.

(** The index after [record_fetched_keys]: a key of the block is at its
    last row in the block, another key is where it was. *)
Lemma record_fetched_keys_last (found_num : nat) (keys : list Key) :
  ∀ i (index : gmap Key nat) key row,
    record_fetched_keys found_num i keys index !! key = Some row ↔
    ((∃ place, last_occurrence keys key place ∧
                 row = (found_num + i + place)%nat) ∨
     ((key ∉ keys) ∧ index !! key = Some row)).
Proof.
  induction keys as [|k rest IH]; intros i index key row; simpl.
  - split.
    + intros Hrow. right. split; [|done]. by apply not_elem_of_nil.
    + intros [(p & [Hp _] & _)|[_ Hrow]]; [by destruct p|done].
  - rewrite IH. split.
    + intros [(p & [Hp Hlast] & ->)|(Hnot & Hrow)].
      * left. exists (S p). split; [|lia]. split; [done|].
        intros [|row'] Hrow'; [lia|]. simpl. apply Hlast. lia.
      * destruct (decide (k = key)) as [->|Hne].
        -- rewrite lookup_insert_eq in Hrow. inversion Hrow; subst.
           left. exists O. split; [|lia]. split; [done|].
           intros [|row'] Hrow'; [lia|]. simpl. intros Hkey. apply Hnot.
           apply list_elem_of_lookup. eauto.
        -- rewrite lookup_insert_ne in Hrow by done. right. split; [|done].
           intros Hin. apply elem_of_cons in Hin as [Heq|Hin]; [congruence|done].
    + intros [(p & [Hp Hlast] & ->)|(Hnot & Hrow)].
      * destruct p as [|p]; simpl in Hp.
        -- inversion Hp; subst. right. split.
           ++ intros Hin. apply list_elem_of_lookup in Hin as [q Hq].
              apply (Hlast (S q)); [lia|done].
           ++ rewrite lookup_insert_eq. f_equal. lia.
        -- left. exists p. split; [|lia]. split; [done|].
           intros row' Hrow'. apply (Hlast (S row')). lia.
      * right. apply not_elem_of_cons in Hnot as [Hne Hnot]. split; [done|].
        by rewrite lookup_insert_ne.
Qed.

(** What [insert_block_columns] appends when it completes. *)
Lemma insert_block_columns_Ok (fetch_request : DictionaryStorageFetchRequest Field)
    (block : list (list Field)) (skip n : nat) (columns : list (list Field)) :
  ∀ i columns',
    insert_block_columns fetch_request block skip n i columns
      = (Ok tt, columns') ->
    ∀ j c', columns' !! j = Some c' ->
      ∃ c, columns !! j = Some c ∧
           if shouldFillResultColumnWithIndex fetch_request (i + j)
           then c' = c ++ take n (default [] (block !! (skip + (i + j))%nat)) ∧
                (n ≤ length (default [] (block !! (skip + (i + j))%nat)))%nat
           else c' = c.
Proof.
  induction columns as [|column rest IH]; intros i columns' Hrun j c' Hj;
    simpl in Hrun.
  - inversion Hrun; subst. by destruct j.
  - destruct (shouldFillResultColumnWithIndex fetch_request i) eqn:Hfill.
    + destruct (block !! (skip + i)%nat) as [source_column|] eqn:Hblock;
        [|done].
      unfold insertRangeFrom in Hrun.
      destruct (decide (n ≤ length source_column)%nat) as [Hn|Hn]; [|done].
      destruct (insert_block_columns fetch_request block skip n (S i) rest)
        as [outcome0 rest'] eqn:Hrest.
      inversion Hrun; subst. destruct j as [|j]; simpl in Hj.
      * inversion Hj; subst. exists column. split; [done|].
        rewrite Nat.add_0_r, Hfill, Hblock. done.
      * destruct (IH _ _ Hrest j c' Hj) as (c & Hc & Hspec).
        exists c. split; [done|].
        by replace (i + S j)%nat with (S i + j)%nat by lia.
    + destruct (insert_block_columns fetch_request block skip n (S i) rest)
        as [outcome0 rest'] eqn:Hrest.
      inversion Hrun; subst. destruct j as [|j]; simpl in Hj.
      * inversion Hj; subst. exists c'. split; [done|].
        by rewrite Nat.add_0_r, Hfill.
      * destruct (IH _ _ Hrest j c' Hj) as (c & Hc & Hspec).
        exists c. split; [done|].
        by replace (i + S j)%nat with (S i + j)%nat by lia.
Qed.

Lemma process_block_holds (block : list (list Field)) (blocks : list (list (list Field)))
    (storage : Storage) (update_unit : CacheDictionaryUpdateUnit Field Key)
    found_num' storage' update_unit' :
  process_block keys_size_of_structure block (length (keys_of_ blocks))
    storage update_unit = (Ok found_num', storage', update_unit') ->
  holds_blocks keys_size_of_structure blocks update_unit ->
  found_num' = length (keys_of_ (blocks ++ [block])) ∧
  request update_unit' = request update_unit ∧
  holds_blocks keys_size_of_structure (blocks ++ [block]) update_unit'.
Proof.
  intros Hrun [Hrows Hindex]. unfold process_block in Hrun.
  destruct (decide (length block < keys_size_of_structure)%nat) as [|_];
    [done|].
  destruct (insert_block_columns _ _ _ _ _ _) as [outcome columns'] eqn:Hcols.
  destruct outcome as [[]|e|]; inversion Hrun; subst; clear Hrun.
  assert (Hkeys : keys_of_ (blocks ++ [block])
                  = keys_of_ blocks ++ getKeys (take keys_size_of_structure block)).
  { unfold keys_of_blocks. rewrite map_app, concat_app. simpl.
    by rewrite app_nil_r. }
  split; [|split; [done|split]].
  - rewrite Hkeys, length_app. done.
  - simpl. intros i column' Hfill Hcolumn'.
    destruct (insert_block_columns_Ok _ _ _ _ _ _ _ Hcols i column' Hcolumn')
      as (column & Hcolumn & Hspec).
    simpl in Hspec. rewrite Hfill in Hspec. destruct Hspec as [-> Hlen].
    destruct (Hrows i column Hfill Hcolumn) as [Hcontent Hlength]. split.
    + rewrite Hcontent at 1.
      unfold rows_of_blocks. rewrite map_app, concat_app. simpl.
      by rewrite app_nil_r.
    + rewrite Hkeys, !length_app, length_take, Hlength. lia.
  - simpl. intros key row. rewrite record_fetched_keys_last, Hkeys.
    rewrite last_occurrence_app. rewrite Nat.add_0_r.
    split; (intros [Hnew|[Hnot Hold]]; [by left|right; split; [done|]]);
      by apply Hindex.
Qed.

Lemma read_blocks_holds (stream : BlockInputStream Field) :
  ∀ (blocks : list (list (list Field))) (storage : Storage)
    (update_unit : CacheDictionaryUpdateUnit Field Key)
    found_num' storage' update_unit',
    read_blocks keys_size_of_structure stream (length (keys_of_ blocks))
      storage update_unit = (Ok found_num', storage', update_unit') ->
    holds_blocks keys_size_of_structure blocks update_unit ->
    found_num' = length (keys_of_ (blocks ++ stream_blocks stream)) ∧
    request update_unit' = request update_unit ∧
    holds_blocks keys_size_of_structure (blocks ++ stream_blocks stream) update_unit'.
Proof.
  induction stream as [|event rest IH];
    intros blocks storage update_unit found_num' storage' update_unit'
      Hrun Hholds; simpl in Hrun.
  - inversion Hrun; subst. simpl. by rewrite app_nil_r.
  - destruct event as [block|e]; [|done].
    destruct block as [|column block].
    { inversion Hrun; subst. simpl. by rewrite app_nil_r. }
    destruct (process_block _ (column :: block) _ _ _)
      as [[outcome1 storage1] unit1] eqn:Hblock.
    destruct outcome1 as [found_num1|e|]; try done.
    destruct (process_block_holds _ _ _ _ _ _ _ Hblock Hholds)
      as (-> & Hreq & Hholds1).
    destruct (IH _ _ _ _ _ _ Hrun Hholds1) as (Hfound & Hreq' & Hholds').
    cbn [stream_blocks]. rewrite <- app_assoc in Hfound, Hholds'.
    split; [done|]. split; [congruence|done].
Qed.

Lemma fetch_from_source_holds_what_the_source_sent source storage
    (update_unit : CacheDictionaryUpdateUnit Field Key)
    stream found_num storage' update_unit' :
  requested_keys_to_fetched_columns_during_update_index update_unit = ∅ ->
  filled_columns_have O update_unit ->
  load config source update_unit = Ok stream ->
  fetch_ source storage update_unit = (Ok found_num, storage', update_unit') ->
  found_num = length (keys_of_ (stream_blocks stream)) ∧
  (∀ i column,
     shouldFillResultColumnWithIndex (request update_unit) i = true ->
     fetched_columns_during_update update_unit' !! i = Some column ->
     column = rows_of_ i (stream_blocks stream) ∧
     length column = found_num) ∧
  (∀ key row,
     requested_keys_to_fetched_columns_during_update_index update_unit'
       !! key = Some row ↔
     last_occurrence (keys_of_ (stream_blocks stream)) key row).
Proof.
  intros Hempty Hfresh Hload Hfetch. unfold fetch_from_source in Hfetch.
  rewrite Hload in Hfetch.
  assert (Hholds : holds_blocks keys_size_of_structure [] update_unit).
  { split.
    - intros i column Hfill Hcolumn. specialize (Hfresh i column Hfill Hcolumn).
      by destruct column.
    - intros key row. rewrite Hempty, lookup_empty. split; [done|].
      intros [Hrow _]. by destruct row. }
  destruct (read_blocks_holds stream [] _ _ _ _ _ Hfetch Hholds)
    as (-> & Hreq & [Hrows Hindex]).
  simpl in *. split; [done|]. split; [|done].
  intros i column Hfill Hcolumn. rewrite <- Hreq in Hfill.
  by apply Hrows.
Qed.

Lemma update_Ok now source dictionary
    (update_unit : CacheDictionaryUpdateUnit Field Key) dictionary' update_unit' :
  update_ now source dictionary update_unit = (Ok tt, dictionary', update_unit') ->
  now > backoff_end_time dictionary ∧
  ∃ found_num,
    fetch_ source (cache_storage dictionary) update_unit
      = (Ok found_num, cache_storage dictionary', update_unit').
Proof.
  unfold update.
  destruct (decide (now > backoff_end_time dictionary)) as [Hnow|_]; [|done].
  destruct (fetch_ source (cache_storage dictionary) update_unit)
    as [[[n|e|] storage'] unit'] eqn:Hfetch; simpl; try done.
  - intros Heq. inversion Heq; subst. split; [done|]. by exists n.
  - by destruct (calculateDurationWithBackoff _ _).
Qed.

(** X1.  When [update] completes for a fresh unit, the unit holds what the
    source sent: every output column that the request fills is the rows of
    that attribute in the blocks read, block after block, one row per key
    read; and the index sends a key to a row exactly when that row is the
    last one that the source sent for the key. *)
Theorem update_holds_what_the_source_sent now source dictionary
    (update_unit : CacheDictionaryUpdateUnit Field Key)
    stream dictionary' update_unit' :
  requested_keys_to_fetched_columns_during_update_index update_unit = ∅ ->
  filled_columns_have O update_unit ->
  load config source update_unit = Ok stream ->
  update_ now source dictionary update_unit = (Ok tt, dictionary', update_unit') ->
  (∀ i column,
     shouldFillResultColumnWithIndex (request update_unit) i = true ->
     fetched_columns_during_update update_unit' !! i = Some column ->
     column = rows_of_ i (stream_blocks stream) ∧
     length column = length (keys_of_ (stream_blocks stream))) ∧
  (∀ key row,
     requested_keys_to_fetched_columns_during_update_index update_unit'
       !! key = Some row ↔
     last_occurrence (keys_of_ (stream_blocks stream)) key row).
Proof.
  intros Hempty Hfresh Hload Hupdate.
  destruct (update_Ok _ _ _ _ _ _ Hupdate) as (_ & found_num & Hfetch).
  destruct (fetch_from_source_holds_what_the_source_sent
              _ _ _ _ _ _ _ Hempty Hfresh Hload Hfetch)
    as (-> & Hrows & Hindex).
  split; [|done]. intros i column Hfill Hcolumn.
  by apply Hrows.
Qed.

Lemma process_block_inserts (block : list (list Field)) found_num
    (storage : Storage) (update_unit : CacheDictionaryUpdateUnit Field Key)
    outcome storage' update_unit' :
  process_block keys_size_of_structure block found_num storage update_unit
    = (outcome, storage', update_unit') ->
  outcome ≠ Undefined ->
  storage' = insert_blocks keys_size_of_structure storage [block].
Proof.
  unfold process_block. intros Hblock Hdefined.
  destruct (decide (length block < keys_size_of_structure)%nat);
    [by inversion Hblock; subst|].
  destruct (insert_block_columns _ _ _ _ _ _) as [[[]|e|] columns'];
    by inversion Hblock; subst.
Qed.

Lemma read_blocks_inserts (stream : BlockInputStream Field) :
  ∀ found_num (storage : Storage)
    (update_unit : CacheDictionaryUpdateUnit Field Key)
    outcome storage' update_unit',
    read_blocks keys_size_of_structure stream found_num storage update_unit
      = (outcome, storage', update_unit') ->
    outcome ≠ Undefined ->
    ∃ n, storage' = insert_blocks keys_size_of_structure storage (take n (stream_blocks stream)) ∧
         (stream_blocks stream ≠ [] -> (0 < n)%nat) ∧
         ∀ found_num', outcome = Ok found_num' ->
           (length (stream_blocks stream) ≤ n)%nat.
Proof.
  induction stream as [|event rest IH];
    intros found_num storage update_unit outcome storage' update_unit'
      Hrun Hdefined; simpl in Hrun.
  - inversion Hrun; subst. exists O. repeat split; simpl; try lia. done.
  - destruct event as [block|e].
    2: { inversion Hrun; subst. exists O. repeat split; simpl; try done. }
    destruct block as [|column block].
    { inversion Hrun; subst. exists O. repeat split; simpl; try lia. done. }
    cbn [stream_blocks].
    destruct (process_block _ (column :: block) _ _ _)
      as [[outcome1 storage1] unit1] eqn:Hblock.
    destruct outcome1 as [found_num1|e|].
    + destruct (IH _ _ _ _ _ _ Hrun Hdefined) as (n & -> & _ & Hall).
      exists (S n).
      rewrite (process_block_inserts _ _ _ _ _ _ _ Hblock) by done.
      split; [done|]. split; [lia|]. intros found_num' ->.
      specialize (Hall _ eq_refl). simpl. lia.
    + inversion Hrun; subst. exists 1%nat.
      rewrite (process_block_inserts _ _ _ _ _ _ _ Hblock) by done.
      split; [by simpl; rewrite ?take_0|]. split; [lia|done].
    + inversion Hrun; subst. done.
Qed.

(** X2.  [update] gives the storage one block at a time, before it appends
    the rows of the block to the unit.  After an update that completed the
    storage was given every block read, in order; after one that failed it
    was given the blocks up to the failure, the first block among them
    when the source sent one. *)
Theorem update_inserts_block_by_block now source dictionary
    (update_unit : CacheDictionaryUpdateUnit Field Key) stream :
  now > backoff_end_time dictionary ->
  load config source update_unit = Ok stream ->
  let '(outcome, dictionary', _) :=
    update_ now source dictionary update_unit in
  outcome ≠ Undefined ->
  ∃ n,
    cache_storage dictionary' =
      insert_blocks keys_size_of_structure (cache_storage dictionary) (take n (stream_blocks stream)) ∧
    (stream_blocks stream ≠ [] -> (0 < n)%nat) ∧
    (outcome = Ok tt -> (length (stream_blocks stream) ≤ n)%nat).
Proof.
  intros Hnow Hload. unfold update.
  destruct (decide (now > backoff_end_time dictionary)) as [_|]; [|lia].
  unfold fetch_from_source. rewrite Hload.
  destruct (read_blocks _ stream _ _ _) as [[outcome storage'] unit']
    eqn:Hread.
  destruct outcome as [found_num|e|]; simpl.
  - intros _.
    destruct (read_blocks_inserts _ _ _ _ _ _ _ Hread ltac:(done))
      as (n & -> & Hfirst & Hall).
    exists n. split; [done|]. split; [done|]. intros _. by eapply Hall.
  - destruct (calculateDurationWithBackoff _ _). simpl. intros _.
    destruct (read_blocks_inserts _ _ _ _ _ _ _ Hread ltac:(done))
      as (n & -> & Hfirst & Hall).
    exists n. split; [done|]. split; [done|]. done.
  - done.
Qed.

End FetchFacts.

(** ** The backoff over several calls *)

Section AttemptFacts.

Context {Field Key : Type} `{Countable Key}.
Context {Storage Rnd Source : Type}.
Context `{!ICacheDictionaryStorage Field Key Storage}.
Context `{!IDictionarySource Field Key Source}.
Context `{!DictionaryKeysExtractor Field Key}.

Variable calculateDurationWithBackoff : Rnd -> Z -> Z * Rnd.
Variable config : CacheDictionaryConfiguration Field.
Variable keys_size_of_structure : nat.

#[local] Abbreviation update_ :=
  (update calculateDurationWithBackoff config keys_size_of_structure).
#[local] Abbreviation run_updates_ :=
  (run_updates calculateDurationWithBackoff config keys_size_of_structure).

Lemma update_counts now (source : Source)
    (dictionary : CacheDictionary Storage Rnd)
    (update_unit : CacheDictionaryUpdateUnit Field Key) :
  let '(outcome, dictionary', _) := update_ now source dictionary update_unit in
  error_count dictionary' = count_outcome (error_count dictionary) outcome ∧
  last_exception dictionary' = keep_exception (last_exception dictionary) outcome.
Proof.
  unfold update.
  destruct (decide (now > backoff_end_time dictionary)) as [_|_]; [|done].
  destruct (fetch_from_source _ _ _ _ _) as [[[n|e|] storage'] unit'];
    simpl; try done.
  by destruct (calculateDurationWithBackoff _ _).
Qed.

(** X3.  Over any sequence of calls of [update], [error_count] is the
    number of fetches that failed since the last fetch that completed (on
    [size_t]), and [last_exception] is the exception of the latest of them,
    or empty after a fetch that completed: a call that the backoff
    suppresses counts nothing and keeps the stored exception. *)
Theorem run_updates_counts_failed_fetches
    (attempts : list (Z * Source * CacheDictionaryUpdateUnit Field Key)) :
  ∀ dictionary : CacheDictionary Storage Rnd,
    let '(outcomes, dictionary') := run_updates_ attempts dictionary in
    error_count dictionary'
      = foldl count_outcome (error_count dictionary) outcomes ∧
    last_exception dictionary'
      = foldl keep_exception (last_exception dictionary) outcomes.
Proof.
  induction attempts as [|[[now source] update_unit] rest IH];
    intros dictionary; simpl; [done|].
  pose proof (update_counts now source dictionary update_unit) as Hstep.
  destruct (update_ now source dictionary update_unit)
    as [[outcome dictionary1] unit1].
  destruct Hstep as [Hcount Hexception].
  specialize (IH dictionary1).
  destruct (run_updates_ rest dictionary1) as [outcomes dictionary2].
  simpl. by rewrite <- Hcount, <- Hexception.
Qed.

End AttemptFacts.

(** ** The hierarchy searches *)

Section MoreHierarchyFacts.

Context {World : Type}.
Variable toParent : list Z -> Exec World (list Z).
Variable null_value : Z.
Variable MAX_DEPTH : nat.

Lemma find_all_ancestors_chain parent_of :
  (∀ ids world, toParent ids world = (Ok (map parent_of ids), world)) ->
  ∀ remaining child ancestors world,
    find_all_ancestors toParent null_value remaining [child] ancestors world =
    (Ok (ancestors ++ ancestors_chain null_value parent_of remaining child),
     world).
Proof.
  intros Hpure. induction remaining as [|remaining IH];
    intros child ancestors world; simpl.
  - by rewrite app_nil_r.
  - unfold exec_bind, exec_lift, exec_ret. rewrite Hpure. simpl.
    destruct (decide (parent_of child = null_value)) as [_|_].
    + by rewrite app_nil_r.
    + rewrite IH. by rewrite <- app_assoc.
Qed.

Lemma ancestors_chain_reaches parent_of ancestor :
  ∀ remaining child,
    ancestor ∈ ancestors_chain null_value parent_of remaining child ↔
    ∃ steps, (1 ≤ steps ≤ remaining)%nat ∧
      Nat.iter steps parent_of child = ancestor ∧
      ∀ step, (1 ≤ step ≤ steps)%nat ->
        Nat.iter step parent_of child ≠ null_value.
Proof.
  induction remaining as [|remaining IH]; intros child; simpl.
  - split; [by intros Hin%elem_of_nil|]. intros (steps & Hsteps & _). lia.
  - destruct (decide (parent_of child = null_value)) as [Hnull|Hparent].
    + split; [by intros Hin%elem_of_nil|].
      intros (steps & Hsteps & _ & Hchain). exfalso.
      apply (Hchain 1%nat); [lia|done].
    + rewrite elem_of_cons, IH. split.
      * intros [->|(steps & Hsteps & Hiter & Hchain)].
        -- exists 1%nat. split; [lia|]. split; [done|].
           intros step Hstep. by replace step with 1%nat by lia.
        -- exists (S steps). split; [lia|]. rewrite Nat.iter_succ_r.
           split; [done|]. intros [|step] Hstep; [lia|].
           rewrite Nat.iter_succ_r. destruct step as [|step]; [done|].
           apply Hchain. lia.
      * intros (steps & Hsteps & Hiter & Hchain).
        destruct steps as [|[|steps]]; [lia|by left|]. right.
        exists (S steps). split; [lia|]. rewrite <- Nat.iter_succ_r.
        split; [done|]. intros step Hstep. rewrite <- Nat.iter_succ_r.
        apply Hchain. lia.
Qed.

(** X4.  Over parents that the lookups answer from a function,
    [isInConstantVector] decides reachability: it returns, with [1] at the
    positions whose ancestor is the child or one of its parents within
    [MAX_DEPTH] steps, none of them the null value, and [0] at the
    others. *)
Theorem isInConstantVector_decides_reachability parent_of child_id
    ancestor_ids out_size world :
  (∀ ids world0, toParent ids world0 = (Ok (map parent_of ids), world0)) ->
  (out_size ≤ length ancestor_ids)%nat ->
  ∃ out,
    isInConstantVector toParent null_value MAX_DEPTH child_id ancestor_ids
      out_size world = (Ok out, world) ∧
    length out = out_size ∧
    ∀ i ancestor_id,
      (i < out_size)%nat -> ancestor_ids !! i = Some ancestor_id ->
      (reaches null_value parent_of MAX_DEPTH child_id ancestor_id ->
       out !! i = Some 1) ∧
      (¬ reaches null_value parent_of MAX_DEPTH child_id ancestor_id ->
       out !! i = Some 0).
Proof.
  intros Hpure Hsize. unfold isInConstantVector, exec_bind, exec_lift.
  rewrite (find_all_ancestors_chain parent_of Hpure).
  destruct (search_ancestors_returns
              ([child_id] ++ ancestors_chain null_value parent_of MAX_DEPTH
                                child_id)
              ancestor_ids out_size O ltac:(lia)) as [out Hout].
  rewrite Hout. exists out. split; [done|].
  destruct (search_ancestors_spec _ _ _ _ _ Hout) as [Hlen Hrows].
  split; [done|]. intros i ancestor_id Hi Hancestor.
  rewrite (Hrows i ancestor_id Hi Hancestor).
  assert (Hiff :
    ancestor_id ∈ [child_id] ++ ancestors_chain null_value parent_of MAX_DEPTH
                                  child_id ↔
    reaches null_value parent_of MAX_DEPTH child_id ancestor_id).
  { simpl. rewrite elem_of_cons, ancestors_chain_reaches. unfold reaches.
    split.
    - intros [->|(steps & Hsteps & Hiter & Hchain)].
      + exists O. split; [lia|]. split; [done|]. intros step Hstep. lia.
      + exists steps. split; [lia|]. done.
    - intros (steps & Hsteps & Hiter & Hchain).
      destruct steps as [|steps]; [by left|]. right.
      exists (S steps). split; [lia|]. done. }
  destruct (decide (ancestor_id ∈ _)) as [Hin|Hnot]; split; try done.
  - intros Hno. exfalso. apply Hno. by apply Hiff.
  - intros Hyes. exfalso. apply Hnot. by apply Hiff.
Qed.

(** The first round of [isInImpl], over an [out] that is not calculated
    anywhere: every position reads its own child and its own ancestor. *)
Lemma scan_positions_first_round ancestor_ids parents :
  ∀ n children parents_idx new_children_idx out' children' new_children_idx',
    scan_positions null_value ancestor_ids parents
      (replicate n not_calculated) children parents_idx new_children_idx
      = Ok (out', children', new_children_idx') ->
    ∀ j parent,
      (j < n)%nat -> parents !! (parents_idx + j)%nat = Some parent ->
      (parent = null_value -> out' !! j = Some 0) ∧
      (parent ≠ null_value ->
       getAt ancestor_ids (parents_idx + j) = Ok parent ->
       out' !! j = Some 1).
Proof.
  induction n as [|n IH];
    intros children parents_idx new_children_idx out' children'
      new_children_idx' Hrun j parent Hj Hparent; [lia|].
  simpl in Hrun.
  destruct (decide (not_calculated ≠ not_calculated)) as [|_]; [done|].
  assert (Hrest : ∀ value children0 new_children_idx0,
    ('(out0, children1, n0) ←
       scan_positions null_value ancestor_ids parents
         (replicate n not_calculated) children0 (S parents_idx)
         new_children_idx0;
     Ok (value :: out0, children1, n0))
      = Ok (out', children', new_children_idx') ->
    out' !! O = Some value ∧
    ∀ j' parent',
      (j' < n)%nat -> parents !! (S parents_idx + j')%nat = Some parent' ->
      (parent' = null_value -> out' !! S j' = Some 0) ∧
      (parent' ≠ null_value ->
       getAt ancestor_ids (S parents_idx + j') = Ok parent' ->
       out' !! S j' = Some 1)).
  { intros value children0 new_children_idx0 Hbind.
    destruct (scan_positions null_value ancestor_ids parents
                (replicate n not_calculated) children0 (S parents_idx)
                new_children_idx0)
      as [[[out0 children1] n0]|e|] eqn:Hscan; simpl in Hbind; try done.
    inversion Hbind; subst. split; [done|]. intros j' parent' Hj' Hparent'.
    exact (IH _ _ _ _ _ _ Hscan j' parent' Hj' Hparent'). }
  assert (Hlater : ∀ value,
    (out' !! O = Some value ∧
     ∀ j' parent',
       (j' < n)%nat -> parents !! (S parents_idx + j')%nat = Some parent' ->
       (parent' = null_value -> out' !! S j' = Some 0) ∧
       (parent' ≠ null_value ->
        getAt ancestor_ids (S parents_idx + j') = Ok parent' ->
        out' !! S j' = Some 1)) ->
    (j ≠ O ->
     (parent = null_value -> out' !! j = Some 0) ∧
     (parent ≠ null_value ->
      getAt ancestor_ids (parents_idx + j) = Ok parent ->
      out' !! j = Some 1))).
  { intros value [_ Hall] Hnonzero. destruct j as [|j]; [done|].
    replace (parents_idx + S j)%nat with (S parents_idx + j)%nat in * by lia.
    apply Hall; [lia|done]. }
  destruct (at_index parents parents_idx) as [parent0|e|] eqn:Hparent0;
    simpl in Hrun; try done.
  assert (Hfirst : j = O -> parent0 = parent).
  { intros ->. rewrite Nat.add_0_r in Hparent. unfold at_index in Hparent0.
    rewrite Hparent in Hparent0. by inversion Hparent0. }
  destruct (decide (parent0 = null_value)) as [Hnull|Hnotnull].
  { pose proof (Hrest _ _ _ Hrun) as Hr.
    destruct (decide (j = O)) as [Hzero|Hnonzero]; [|by eapply Hlater].
    specialize (Hfirst Hzero). subst. split; [by intros _; apply Hr|done]. }
  destruct (getAt ancestor_ids parents_idx) as [ancestor|e|] eqn:Hancestor;
    simpl in Hrun; try done.
  destruct (decide (parent0 = ancestor)) as [Hmatch|Hnomatch].
  { pose proof (Hrest _ _ _ Hrun) as Hr.
    destruct (decide (j = O)) as [Hzero|Hnonzero]; [|by eapply Hlater].
    specialize (Hfirst Hzero). subst. split; [done|]. intros _ _. apply Hr. }
  destruct (at_index children new_children_idx) as [child|e|];
    simpl in Hrun; try done.
  destruct (decide (child = parent0)) as [Hloop|Hnoloop].
  { pose proof (Hrest _ _ _ Hrun) as Hr.
    destruct (decide (j = O)) as [Hzero|Hnonzero]; [|by eapply Hlater].
    specialize (Hfirst Hzero). subst. split; [done|]. intros _ _. apply Hr. }
  pose proof (Hrest _ _ _ Hrun) as Hr.
  destruct (decide (j = O)) as [Hzero|Hnonzero]; [|by eapply Hlater].
  specialize (Hfirst Hzero). subst. split; [done|].
  intros _ Hget. rewrite Nat.add_0_r in Hget. rewrite Hancestor in Hget.
  by inversion Hget.
Qed.

Lemma scan_positions_values ancestor_ids parents :
  ∀ out children parents_idx new_children_idx out' children' n,
    scan_positions null_value ancestor_ids parents out children
      parents_idx new_children_idx = Ok (out', children', n) ->
    Forall (fun value => value = 0 ∨ value = 1 ∨ value = not_calculated) out ->
    Forall (fun value => value = 0 ∨ value = 1 ∨ value = not_calculated) out'.
Proof.
  induction out as [|out_value out_rest IH];
    intros children parents_idx new_children_idx out' children' n Hrun Hvalues;
    simpl in Hrun.
  - inversion Hrun; subst. constructor.
  - apply Forall_cons in Hvalues as [Hvalue Hvalues].
    assert (Hcons : ∀ value children0 parents_idx0 new_children_idx0,
      (value = 0 ∨ value = 1 ∨ value = not_calculated) ->
      ('(out0, children1, n0) ←
         scan_positions null_value ancestor_ids parents out_rest children0
           parents_idx0 new_children_idx0;
       Ok (value :: out0, children1, n0)) = Ok (out', children', n) ->
      Forall (fun value => value = 0 ∨ value = 1 ∨ value = not_calculated)
        out').
    { intros value children0 parents_idx0 new_children_idx0 Hv Hbind.
      destruct (scan_positions null_value ancestor_ids parents out_rest
                  children0 parents_idx0 new_children_idx0)
        as [[[out0 children1] n0]|e|] eqn:Hrest; simpl in Hbind; try done.
      inversion Hbind; subst. constructor; [done|]. by eapply IH. }
    destruct (decide (out_value ≠ not_calculated)) as [_|_].
    { by eapply Hcons. }
    destruct (at_index parents parents_idx) as [parent|e|];
      simpl in Hrun; try done.
    destruct (decide (parent = null_value)) as [_|_].
    { eapply Hcons; [|exact Hrun]. by left. }
    destruct (getAt ancestor_ids parents_idx) as [ancestor|e|];
      simpl in Hrun; try done.
    destruct (decide (parent = ancestor)) as [_|_].
    { eapply Hcons; [|exact Hrun]. right. by left. }
    destruct (at_index children new_children_idx) as [child|e|];
      simpl in Hrun; try done.
    destruct (decide (child = parent)) as [_|_].
    { eapply Hcons; [|exact Hrun]. right. by left. }
    by eapply Hcons.
Qed.

Lemma isIn_iterations_values ancestor_ids :
  ∀ remaining out children parents world out' world',
    isIn_iterations toParent null_value remaining ancestor_ids
      out children parents world = (Ok out', world') ->
    Forall (fun value => value = 0 ∨ value = 1 ∨ value = not_calculated) out ->
    Forall (fun value => value = 0 ∨ value = 1 ∨ value = not_calculated) out'.
Proof.
  induction remaining as [|remaining IH];
    intros out children parents world out' world' Hrun Hvalues; simpl in Hrun.
  - by inversion Hrun; subst.
  - unfold exec_bind, exec_lift, exec_ret in Hrun.
    destruct (scan_positions null_value ancestor_ids parents out children 0 0)
      as [[[out1 children1] new_children_idx]|e|] eqn:Hscan; try done.
    pose proof (scan_positions_values _ _ _ _ _ _ _ _ _ Hscan Hvalues) as Hv.
    destruct (decide (new_children_idx = O)) as [_|_].
    { by inversion Hrun; subst. }
    destruct (toParent (take new_children_idx children1) world)
      as [[parents'|e|] world1]; try done.
    by eapply IH.
Qed.

(** X5.  [isInImpl] with at least one round: the output has [out_size]
    rows, each [0], [1] or not calculated; a position whose child is the
    null value is [0], whatever its ancestor; and a position whose child is
    its own ancestor, and not the null value, is [1]. *)
Theorem isInImpl_first_round child_ids ancestor_ids out_size world out world' :
  (0 < MAX_DEPTH)%nat ->
  isInImpl toParent null_value MAX_DEPTH child_ids ancestor_ids out_size world
    = (Ok out, world') ->
  length out = out_size ∧
  Forall (fun value => value = 0 ∨ value = 1 ∨ value = not_calculated) out ∧
  ∀ i child,
    (i < out_size)%nat -> child_ids !! i = Some child ->
    (child = null_value -> out !! i = Some 0) ∧
    (child ≠ null_value -> getAt ancestor_ids i = Ok child ->
     out !! i = Some 1).
Proof.
  intros Hdepth Hrun. unfold isInImpl in Hrun.
  destruct (isIn_iterations_stable _ _ _ _ _ _ _ _ _ _ Hrun) as [Hlen _].
  rewrite length_replicate in Hlen. split; [done|]. split.
  { apply (isIn_iterations_values _ _ _ _ _ _ _ _ Hrun).
    apply Forall_replicate. right. by right. }
  intros i child Hi Hchild.
  destruct MAX_DEPTH as [|remaining]; [lia|]. simpl in Hrun.
  unfold exec_bind, exec_lift, exec_ret in Hrun.
  destruct (scan_positions null_value ancestor_ids child_ids
              (replicate out_size not_calculated) (replicate out_size 0) 0 0)
    as [[[out1 children1] new_children_idx]|e|] eqn:Hscan; try done.
  destruct (scan_positions_first_round _ _ _ _ _ _ _ _ _ Hscan i child Hi Hchild)
    as [Hnull Hown].
  assert (Hkept : ∀ value,
    out1 !! i = Some value -> value ≠ not_calculated -> out !! i = Some value).
  { intros value Hvalue Hcalculated.
    destruct (decide (new_children_idx = O)) as [_|_].
    - by inversion Hrun; subst.
    - destruct (toParent (take new_children_idx children1) world)
        as [[parents'|e|] world1]; try done.
      destruct (isIn_iterations_stable _ _ _ _ _ _ _ _ _ _ Hrun)
        as [_ Hstable].
      by apply Hstable. }
  split.
  - intros Hc. apply Hkept; [by apply Hnull|done].
  - intros Hc Hget. apply Hkept; [by apply Hown|done].
Qed.

End MoreHierarchyFacts.

(** ** More on the merges and the queries *)

Section MoreMergeFacts.

Context {Field Key : Type} `{Countable Key}.

Lemma for_each_key_in_order (fetched_column : list Field)
    (found_index expired_index : gmap Key nat) :
  ∀ (keys : list Key) i (column column' : list Field),
    for_each_key
      (fun _ key column =>
         match expired_index !! key with
         | Some row => insertFrom column fetched_column row
         | None =>
             match found_index !! key with
             | Some row => insertFrom column fetched_column row
             | None => Ok column
             end
         end) i keys column = Ok column' ->
    ∃ rows,
      column' = column ++ rows ∧
      Forall2 (fun row value => fetched_column !! row = Some value)
        (omap (row_in_order_of_keys found_index expired_index) keys) rows.
Proof.
  induction keys as [|key rest IH]; intros i column column' Hrun;
    simpl in Hrun.
  - inversion Hrun; subst. exists []. by rewrite app_nil_r.
  - assert (Hstep : ∀ row,
      row_in_order_of_keys found_index expired_index key = Some row ->
      (insertFrom column fetched_column row ≫=
         for_each_key
           (fun _ key column =>
              match expired_index !! key with
              | Some row => insertFrom column fetched_column row
              | None =>
                  match found_index !! key with
                  | Some row => insertFrom column fetched_column row
                  | None => Ok column
                  end
              end) (S i) rest) = Ok column' ->
      ∃ rows,
        column' = column ++ rows ∧
        Forall2 (fun row value => fetched_column !! row = Some value)
          (omap (row_in_order_of_keys found_index expired_index) (key :: rest))
          rows).
    { intros row Hrow Hr. unfold insertFrom, at_index in Hr.
      destruct (fetched_column !! row) as [value|] eqn:Hvalue;
        simpl in Hr; [|done].
      destruct (IH _ _ _ Hr) as (rows & -> & Hrows).
      exists (value :: rows). rewrite <- app_assoc. split; [done|].
      simpl. rewrite Hrow. by constructor. }
    destruct (expired_index !! key) as [row|] eqn:Hexpired.
    { apply (Hstep row); [|done]. unfold row_in_order_of_keys.
      by rewrite Hexpired. }
    destruct (found_index !! key) as [row|] eqn:Hfound.
    { apply (Hstep row); [|done]. unfold row_in_order_of_keys.
      by rewrite Hexpired. }
    destruct (IH _ _ _ Hrun) as (rows & -> & Hrows).
    exists rows. split; [done|]. simpl.
    unfold row_in_order_of_keys at 1. by rewrite Hexpired, Hfound.
Qed.

(** X6.  A column that [aggregateColumnsInOrderOfKeys] fills is, key after
    key, the row of the storage's column that the expired index names for
    the key, else the one that the found index names; a key that neither
    index knows gets no row, so that the rows of the keys after it move
    up. *)
Theorem aggregateColumnsInOrderOfKeys_rows (keys : list Key)
    (request_ : DictionaryStorageFetchRequest Field)
    (fetched_columns_ : list (list Field))
    (found_index expired_index : gmap Key nat) aggregated i :
  aggregateColumnsInOrderOfKeys keys request_ fetched_columns_
    found_index expired_index = Ok aggregated ->
  shouldFillResultColumnWithIndex request_ i = true ->
  ∃ column fetched_column,
    aggregated !! i = Some column ∧
    fetched_columns_ !! i = Some fetched_column ∧
    Forall2 (fun row value => fetched_column !! row = Some value)
      (omap (row_in_order_of_keys found_index expired_index) keys) column ∧
    length column =
      length (filter (fun key =>
                        is_Some (row_in_order_of_keys found_index
                                   expired_index key)) keys).
Proof.
  intros Hrun Hfill. unfold aggregateColumnsInOrderOfKeys in Hrun.
  destruct (for_each_attribute_columns _ _ _ _ Hrun) as [_ Hcols].
  destruct (Hcols i [] (makeAttributesResultColumns_lookup _ _ Hfill))
    as (column & Hcolumn & Hbody).
  simpl in Hbody. rewrite Hfill in Hbody. simpl in Hbody.
  unfold at_index in Hbody.
  destruct (fetched_columns_ !! i) as [fetched_column|] eqn:Hfetched; [|done].
  simpl in Hbody.
  destruct (for_each_key_in_order _ _ _ _ _ _ _ Hbody) as (rows & -> & Hrows).
  exists rows, fetched_column. rewrite app_nil_l in Hcolumn.
  repeat split; try done.
  rewrite <- (Forall2_length _ _ _ Hrows). clear.
  induction keys as [|key rest IH]; [done|]. simpl.
  rewrite filter_cons.
  destruct (row_in_order_of_keys found_index expired_index key) as [row|];
    simpl.
  - destruct (decide (is_Some (Some row))) as [_|Hno]; [simpl; by f_equal|].
    exfalso. apply Hno. by eexists.
  - destruct (decide (is_Some (@None nat))) as [[? ?]|_]; done.
Qed.

End MoreMergeFacts.

Section MoreQueryFacts.

Context {Field Key : Type} `{Countable Key}.
Context {World : Type} {query_world : CacheDictionaryWorld Field Key World}.
Context `{!DictionaryKeysExtractor Field Key}.

Variable config : CacheDictionaryConfiguration Field.

(** X7.  A query that is answered without waiting for an update (every
    key found, or only expired keys with expired reads allowed) returns
    rows of the storage only: each column is a column of the storage that
    the request fills, as it is when the storage answers in the order of
    the keys, and else read key after key through the expired and the found
    index. *)
Theorem getColumnsImpl_answers_from_storage attribute_names key_columns
    (keys : list Key) default_values_columns world result world1
    columns world' :
  let request_ := {| request_structure := dict_struct config;
                     attributes_to_fetch := attribute_names |} in
  fetchColumnsForKeys keys request_ world = (Ok result, world1) ->
  classify (allow_read_expired_keys config) keys result ≠ SyncUpdate ->
  getColumnsImpl config attribute_names key_columns keys
    default_values_columns world = (Ok columns, world') ->
  Forall
    (fun column =>
       ∃ i fetched_column,
         shouldFillResultColumnWithIndex request_ i = true ∧
         fetched_columns result !! i = Some fetched_column ∧
         if returnsFetchedColumnsInOrderOfRequestedKeys world1
         then column = fetched_column
         else Forall2 (fun row value => fetched_column !! row = Some value)
                (omap (row_in_order_of_keys
                         (found_keys_to_fetched_columns_index result)
                         (expired_keys_to_fetched_columns_index result)) keys)
                column)
    columns.
Proof.
  intros request_ Hfetch Hbranch Hrun.
  rewrite (getColumnsImpl_branch _ _ _ _ _ _ _ _ Hfetch) in Hrun.
  fold request_ in Hrun.
  assert (Hcolumns :
    columns_from_storage keys request_ result
      (returnsFetchedColumnsInOrderOfRequestedKeys world1) = Ok columns).
  { destruct (classify (allow_read_expired_keys config) keys result);
      [by inversion Hrun| |done].
    unfold exec_bind, exec_lift in Hrun.
    destruct (tryPushToUpdateQueueOrThrow _ world1) as [[[]|e|] world2];
      try done.
    by inversion Hrun. }
  clear Hrun. unfold columns_from_storage in Hcolumns.
  destruct (returnsFetchedColumnsInOrderOfRequestedKeys world1).
  - apply (filterRequestedColumns_Forall _ _ _ _ Hcolumns).
    intros i column Hfill Hcolumn. by exists i, column.
  - destruct (aggregateColumnsInOrderOfKeys _ _ _ _ _)
      as [aggregated|e|] eqn:Hmerge; simpl in Hcolumns; try done.
    apply (filterRequestedColumns_Forall _ _ _ _ Hcolumns).
    intros i column Hfill Hcolumn.
    destruct (aggregateColumnsInOrderOfKeys_rows _ _ _ _ _ _ _ Hmerge Hfill)
      as (column' & fetched_column & Hcolumn' & Hfetched & Hrows & _).
    rewrite Hcolumn in Hcolumn'. inversion Hcolumn'; subst column'.
    by exists i, fetched_column.
Qed.

(** X8.  After a sync update every returned column has one row per key,
    for any list of keys, repeated keys included, and whatever the storage
    and the unit hold. *)
Theorem getColumnsImpl_sync_update_one_row_per_key attribute_names key_columns
    (keys : list Key) default_values_columns world result world1
    columns world' :
  let request_ := {| request_structure := dict_struct config;
                     attributes_to_fetch := attribute_names |} in
  fetchColumnsForKeys keys request_ world = (Ok result, world1) ->
  classify (allow_read_expired_keys config) keys result = SyncUpdate ->
  getColumnsImpl config attribute_names key_columns keys
    default_values_columns world = (Ok columns, world') ->
  Forall (fun column => length column = length keys) columns.
Proof.
  intros request_ Hfetch Hbranch Hrun.
  rewrite (getColumnsImpl_branch _ _ _ _ _ _ _ _ Hfetch), Hbranch in Hrun.
  unfold exec_bind, exec_lift in Hrun.
  destruct (tryPushToUpdateQueueOrThrow _ world1) as [[[]|e|] world2];
    try done.
  destruct (waitForCurrentUpdateFinish _ world2) as [[updated|e|] world3];
    try done.
  inversion Hrun as [[Hcolumns Hworld]].
  by apply (merge_after_update_lengths _ _ _ _ _ _ _ _ Hcolumns).
Qed.

(** A lookup of no key that keeps the promises of the storage has two
    empty indexes. *)
Lemma no_keys_classified (request_ : DictionaryStorageFetchRequest Field)
    (result : FetchResult Field Key) allow :
  FetchResult_wf [] request_ result ->
  classify allow [] result = AllFound ∧
  found_keys_to_fetched_columns_index result = ∅ ∧
  expired_keys_to_fetched_columns_index result = ∅.
Proof.
  intros [Hkeys _ _ _]. simpl in Hkeys.
  assert (Hfound : found_keys_to_fetched_columns_index result = ∅).
  { apply dom_empty_iff_L. set_solver. }
  assert (Hexpired : expired_keys_to_fetched_columns_index result = ∅).
  { apply dom_empty_iff_L. set_solver. }
  split; [|done]. unfold classify. by rewrite Hfound, Hexpired.
Qed.

(** X9.  A query for no key, over a storage that keeps its promises, is
    answered at once: [getColumnsImpl] leaves the world as the lookup left
    it, with nothing pushed to the queue, and every column it returns is
    empty. *)
Theorem getColumnsImpl_for_no_key attribute_names key_columns
    default_values_columns world result world1 :
  let request_ := {| request_structure := dict_struct config;
                     attributes_to_fetch := attribute_names |} in
  fetchColumnsForKeys [] request_ world = (Ok result, world1) ->
  FetchResult_wf [] request_ result ->
  ∃ outcome,
    getColumnsImpl config attribute_names key_columns []
      default_values_columns world = (outcome, world1) ∧
    ∀ columns, outcome = Ok columns ->
      Forall (fun column => column = []) columns.
Proof.
  intros request_ Hfetch Hwf.
  destruct (no_keys_classified request_ result
              (allow_read_expired_keys config) Hwf)
    as (Hbranch & Hfound & Hexpired).
  rewrite (getColumnsImpl_branch _ _ _ _ _ _ _ _ Hfetch), Hbranch.
  fold request_. eexists. split; [done|]. intros columns Hcolumns.
  assert (Hlengths : Forall (fun column => length column = length (@nil Key))
                       columns).
  { apply (columns_from_storage_lengths [] request_ result
             (returnsFetchedColumnsInOrderOfRequestedKeys world1) columns Hwf);
      [by rewrite Hfound, Hexpired| |done].
    intros key Hkey. by apply elem_of_nil in Hkey. }
  eapply Forall_impl; [exact Hlengths|]. intros column Hlength.
  by destruct column.
Qed.

(** X10.  [hasKeys] for no key, over a storage that keeps its promises,
    returns the empty column and leaves the world as the lookup left it. *)
Theorem hasKeys_for_no_key key_columns world result world1 :
  let request_ := {| request_structure := dict_struct config;
                     attributes_to_fetch := [] |} in
  getKeys key_columns = [] ->
  fetchColumnsForKeys [] request_ world = (Ok result, world1) ->
  FetchResult_wf [] request_ result ->
  hasKeys config key_columns world = (Ok [], world1).
Proof.
  intros request_ Hnokeys Hfetch Hwf.
  destruct (no_keys_classified _ result (allow_read_expired_keys config) Hwf)
    as (Hbranch & _ & _).
  pose proof (hasKeys_branch config key_columns world result world1) as Hhas.
  simpl in Hhas. rewrite Hnokeys in Hhas. specialize (Hhas Hfetch).
  rewrite Hhas, Hbranch. done.
Qed.

(** X11.  Whenever [hasKeys] returns, it returns one row per key, and the
    row of a key that the lookup found fresh is [true]; a row is [false]
    only after the last loop, for a key that the found index does not
    have. *)
Theorem hasKeys_rows key_columns world result world1 out world' :
  let keys := getKeys key_columns in
  fetchColumnsForKeys keys
    {| request_structure := dict_struct config; attributes_to_fetch := [] |}
    world = (Ok result, world1) ->
  hasKeys config key_columns world = (Ok out, world') ->
  length out = length keys ∧
  ∀ j key, keys !! j = Some key ->
    (is_Some (found_keys_to_fetched_columns_index result !! key) ->
     out !! j = Some true) ∧
    (out !! j = Some false ->
     found_keys_to_fetched_columns_index result !! key = None ∧
     classify (allow_read_expired_keys config) keys result = SyncUpdate).
Proof.
  intros keys Hfetch Hrun.
  pose proof (hasKeys_branch config key_columns world result world1) as Hhas.
  simpl in Hhas. fold keys in Hhas. specialize (Hhas Hfetch).
  rewrite Hhas in Hrun. clear Hhas.
  assert (Hall : ∀ out0,
    out0 = replicate (length keys) true ->
    length out0 = length keys ∧
    ∀ j key, keys !! j = Some key ->
      (is_Some (found_keys_to_fetched_columns_index result !! key) ->
       out0 !! j = Some true) ∧
      (out0 !! j = Some false -> False)).
  { intros out0 ->. split; [by rewrite length_replicate|].
    intros j key Hj. apply lookup_lt_Some in Hj as Hlt.
    rewrite lookup_replicate_2 by done. done. }
  assert (Hloop : ∀ update_index out0,
    out0 = map (has_key (found_keys_to_fetched_columns_index result)
                  update_index) keys ->
    length out0 = length keys ∧
    ∀ j key, keys !! j = Some key ->
      (is_Some (found_keys_to_fetched_columns_index result !! key) ->
       out0 !! j = Some true) ∧
      (out0 !! j = Some false ->
       found_keys_to_fetched_columns_index result !! key = None)).
  { intros update_index out0 ->. split; [by rewrite length_map|].
    intros j key Hj. rewrite list_lookup_fmap, Hj. simpl. unfold has_key.
    destruct (found_keys_to_fetched_columns_index result !! key) as [row|].
    - split; [done|]. intros Heq. by inversion Heq.
    - split; [by intros [? ?]|done]. }
  destruct (classify (allow_read_expired_keys config) keys result) eqn:Hbranch.
  - inversion Hrun; subst. destruct (Hall _ eq_refl) as [Hlen Hrows].
    split; [done|]. intros j key Hj. destruct (Hrows j key Hj) as [Htrue Hfalse].
    split; [done|]. intros Hf. by destruct (Hfalse Hf).
  - unfold exec_bind, exec_ret in Hrun.
    destruct (tryPushToUpdateQueueOrThrow _ world1) as [[[]|e|] world2];
      try done.
    inversion Hrun; subst. destruct (Hall _ eq_refl) as [Hlen Hrows].
    split; [done|]. intros j key Hj. destruct (Hrows j key Hj) as [Htrue Hfalse].
    split; [done|]. intros Hf. by destruct (Hfalse Hf).
  - destruct (0 <? _).
    + unfold exec_bind, exec_ret in Hrun.
      destruct (tryPushToUpdateQueueOrThrow _ world1) as [[[]|e|] world2];
        try done.
      destruct (waitForCurrentUpdateFinish _ world2) as [[updated|e|] world3];
        try done.
      inversion Hrun; subst.
      destruct (Hloop (requested_keys_to_fetched_columns_during_update_index
                         updated) _ eq_refl) as [Hlen Hrows].
      split; [done|]. intros j key Hj.
      destruct (Hrows j key Hj) as [Htrue Hfalse]. by split; [|split; auto].
    + inversion Hrun; subst. destruct (Hloop ∅ _ eq_refl) as [Hlen Hrows].
      split; [done|]. intros j key Hj.
      destruct (Hrows j key Hj) as [Htrue Hfalse]. by split; [|split; auto].
Qed.

End MoreQueryFacts.

(** ** [toParent] *)

Section ToParentFacts.

Context {Field World : Type}.
Context {query_world : CacheDictionaryWorld Field Z World}.

Variable get_UInt64 : Field -> Z.
Variable config : CacheDictionaryConfiguration Field.

(** With the one empty slot of defaults that [toParent] passes, every
    provider falls back on the null value of its attribute. *)
Lemma make_default_value_providers_without_defaults
    (request_ : DictionaryStorageFetchRequest Field) :
  ∀ (attributes : list (DictionaryAttribute Field)) index providers,
    make_default_value_providers attributes request_ [None] index
      = Ok providers ->
    ∀ i attribute, attributes !! i = Some attribute ->
      providers !! i = Some {| default_value := null_value attribute;
                               default_values_column := None |}.
Proof.
  induction attributes as [|attribute0 rest IH];
    intros index providers Hrun i attribute Hi; [by destruct i|].
  simpl in Hrun.
  destruct (containsAttribute request_ (name attribute0)).
  - unfold at_index in Hrun.
    destruct ([None] !! index) as [column|] eqn:Hcolumn; simpl in Hrun;
      [|done].
    assert (column = None) as ->.
    { destruct index as [|index]; simpl in Hcolumn; [by inversion Hcolumn|].
      by destruct index. }
    destruct (make_default_value_providers rest request_ [None] (S index))
      as [others|e|] eqn:Hrest; simpl in Hrun; try done.
    inversion Hrun; subst. destruct i as [|i]; simpl in Hi |- *.
    + by inversion Hi; subst.
    + by eapply IH.
  - destruct (make_default_value_providers rest request_ [None] index)
      as [others|e|] eqn:Hrest; simpl in Hrun; try done.
    inversion Hrun; subst. destruct i as [|i]; simpl in Hi |- *.
    + by inversion Hi; subst.
    + by eapply IH.
Qed.

(** X12.  In a call of [toParent] that goes through the sync update, the
    answer has one row per key, and a key that the lookup did not find
    fresh and that the update did not fetch has no parent: its row is the
    null value of the attribute that the request names (the hierarchical
    attribute itself when the names of the attributes are distinct). *)
Theorem toParent_unknown_key_has_null_parent ids world attribute result
    world1 parents world' :
  let request_ := {| request_structure := dict_struct config;
                     attributes_to_fetch := [name attribute] |} in
  dictionary_key_type config = simple ->
  hierarchical_attribute config = Some attribute ->
  fetchColumnsForKeys ids request_ world = (Ok result, world1) ->
  classify (allow_read_expired_keys config) ids result = SyncUpdate ->
  toParent get_UInt64 config ids world = (Ok parents, world') ->
  length parents = length ids ∧
  ∃ updated_unit world2 named,
    waitForCurrentUpdateFinish (make_update_unit config [[]] result request_)
      world2 = (Ok updated_unit, world') ∧
    named ∈ dict_struct config ∧ name named = name attribute ∧
    (NoDup (name <$> dict_struct config) -> named = attribute) ∧
    ∀ j key,
      ids !! j = Some key ->
      found_keys_to_fetched_columns_index result !! key = None ->
      requested_keys_to_fetched_columns_during_update_index updated_unit
        !! key = None ->
      parents !! j = Some (get_UInt64 (null_value named)).
Proof.
  intros request_ Hsimple Hattribute Hfetch Hbranch Hrun.
  unfold toParent in Hrun. rewrite Hsimple, Hattribute in Hrun.
  unfold exec_bind at 1 in Hrun.
  rewrite (getColumnsImpl_branch _ _ _ _ _ _ _ _ Hfetch), Hbranch in Hrun.
  fold request_ in Hrun. unfold exec_bind, exec_lift, exec_ret in Hrun.
  destruct (tryPushToUpdateQueueOrThrow _ world1) as [[[]|e|] world2];
    try done.
  destruct (waitForCurrentUpdateFinish _ world2)
    as [[updated_unit|e|] world3] eqn:Hwait; try done.
  destruct (merge_after_update _ _ _ _ _ _ _) as [columns|e|] eqn:Hmerge;
    try done.
  destruct (front columns) as [column|e|] eqn:Hfront; try done.
  inversion Hrun; subst parents world'. clear Hrun.
  unfold merge_after_update in Hmerge.
  destruct (make_default_value_providers _ _ _ _) as [providers|e|]
    eqn:Hproviders; simpl in Hmerge; try done.
  destruct (aggregateColumns _ _ _ _ _ _ _) as [aggregated|e|] eqn:Haggregate;
    simpl in Hmerge; try done.
  unfold filterRequestedColumns in Hmerge. simpl in Hmerge.
  destruct (attribute_position (dict_struct config) (name attribute))
    as [p|] eqn:Hposition.
  2: { inversion Hmerge; subst. done. }
  unfold at_index in Hmerge.
  destruct (aggregated !! p) as [column'|] eqn:Hcolumn'; simpl in Hmerge;
    [|done].
  inversion Hmerge; subst columns. simpl in Hfront.
  inversion Hfront; subst column'. clear Hmerge Hfront.
  destruct (attribute_position_Some _ _ _ Hposition) as (named & Hnamed & Hname).
  assert (Hfill : shouldFillResultColumnWithIndex request_ p = true).
  { unfold shouldFillResultColumnWithIndex, containsAttribute, request_.
    simpl. rewrite Hnamed, Hname. apply bool_decide_eq_true_2. by left. }
  destruct (aggregateColumns_rows _ _ _ _ _ _ _ _ _ Haggregate Hfill)
    as (column0 & cs & cu & provider & Hcolumn0 & _ & _ & Hprovider & Hlength
        & Hrows).
  rewrite Hcolumn' in Hcolumn0. inversion Hcolumn0; subst column0.
  rewrite (make_default_value_providers_without_defaults _ _ _ _ Hproviders
             p named Hnamed) in Hprovider.
  inversion Hprovider; subst provider. clear Hprovider.
  split; [by rewrite length_map|].
  exists updated_unit, world2, named.
  split; [done|]. split; [by eapply list_elem_of_lookup_2|].
  split; [done|]. split.
  - intros Hdistinct.
    assert (Hin : attribute ∈ dict_struct config).
    { unfold hierarchical_attribute in Hattribute.
      apply last_Some in Hattribute as [prefix Hfilter].
      assert (attribute ∈ filter (fun a => hierarchical a = true)
                            (dict_struct config)).
      { rewrite Hfilter. apply elem_of_app. right. by left. }
      by eapply list_elem_of_filter. }
    apply list_elem_of_lookup in Hin as [q Hq].
    assert (p = q).
    { eapply (NoDup_lookup _ _ _ (name attribute) Hdistinct).
      - rewrite list_lookup_fmap.
        assert (Hp : (dict_struct config : list (DictionaryAttribute Field))
                       !! p = Some named) by exact Hnamed.
        rewrite Hp. simpl. by rewrite Hname.
      - rewrite list_lookup_fmap.
        assert (Hq' : (dict_struct config : list (DictionaryAttribute Field))
                        !! q = Some attribute) by exact Hq.
        by rewrite Hq'. }
    subst q. pose proof (eq_trans (eq_sym Hnamed) Hq) as Heq.
    by inversion Heq.
  - intros j key Hj Hnotfound Hnotfetched.
    destruct (Hrows j key Hj) as (value & Hvalue & Hrow).
    unfold row_by_precedence in Hrow.
    rewrite Hnotfound, Hnotfetched in Hrow. simpl in Hrow.
    inversion Hrow; subst value.
    by rewrite list_lookup_fmap, Hvalue.
Qed.

End ToParentFacts.

(** ** Configuration and construction *)

Module FactoryFacts.

Import Factory.

Section ParseFacts.

Variable parse_integer : string -> option Z.

Lemma parse_in_range_bounds low high key raw n :
  parse_in_range parse_integer low high key raw = Returned n ->
  low <= n < high.
Proof.
  unfold parse_in_range. destruct (parse_integer raw) as [m|]; [|done].
  destruct (decide (low <= m < high)); [|done]. intros Heq.
  by inversion Heq; subst.
Qed.

Lemma getUInt64_bounds (config : gmap string string) key n :
  getUInt64 parse_integer config key = Returned n -> 0 <= n < 2 ^ 64.
Proof.
  unfold getUInt64. destruct (config !! key); [|done].
  apply parse_in_range_bounds.
Qed.

Lemma getUInt64_or_bounds (config : gmap string string) key default_ n :
  getUInt64_or parse_integer config key default_ = Returned n ->
  0 <= default_ < 2 ^ 64 -> 0 <= n < 2 ^ 64.
Proof.
  unfold getUInt64_or. destruct (config !! key).
  - intros Hparse _. by eapply parse_in_range_bounds.
  - intros Heq. by inversion Heq; subst.
Qed.

(** X13.  [parseCacheStorageConfiguration] keeps the number of cells as it
    is configured, which is not zero, the lifetime it is given and, when
    [strict_max_lifetime_seconds] is not configured, the maximum of the
    lifetime; zero cells are refused with [TOO_SMALL_BUFFER_SIZE]. *)
Theorem parseCacheStorageConfiguration_cells (full_name : string)
    (config : gmap string string) (layout_prefix : string)
    (dict_lifetime : DictionaryLifetime) (is_complex : bool) :
  let prefix :=
    layout_prefix +:+
    (if is_complex then ".complex_key_cache." else ".cache.") in
  (∀ configuration,
     parseCacheStorageConfiguration parse_integer full_name config
       layout_prefix dict_lifetime is_complex = Returned configuration ->
     getUInt64 parse_integer config (prefix +:+ "size_in_cells")
       = Returned (max_size_in_cells configuration) ∧
     0 < max_size_in_cells configuration < 2 ^ 64 ∧
     lifetime configuration = dict_lifetime ∧
     (config !! (prefix +:+ "strict_max_lifetime_seconds") = None ->
      strict_max_lifetime_seconds configuration
        = to_size_t (max_sec dict_lifetime))) ∧
  (getUInt64 parse_integer config (prefix +:+ "size_in_cells") = Returned 0 ->
   parseCacheStorageConfiguration parse_integer full_name config
     layout_prefix dict_lifetime is_complex =
   Raised (DBException
             (full_name +:+ ": dictionary of layout 'cache' cannot have 0 cells")
             TOO_SMALL_BUFFER_SIZE)).
Proof.
  intros prefix. unfold parseCacheStorageConfiguration. fold prefix. split.
  - intros configuration Hrun.
    destruct (getUInt64 parse_integer config (prefix +:+ "size_in_cells"))
      as [size|e|] eqn:Hsize; simpl in Hrun; try done.
    destruct (decide (size = 0)) as [|Hnonzero]; [done|].
    unfold getUInt64_or in Hrun.
    destruct (config !! (prefix +:+ "strict_max_lifetime_seconds"))
      as [raw|] eqn:Hstrict; simpl in Hrun.
    + destruct (parse_in_range _ _ _ _ raw) as [strict|e|]; simpl in Hrun;
        try done.
      inversion Hrun; subst; simpl. pose proof (getUInt64_bounds _ _ _ Hsize).
      repeat split; try done; lia.
    + inversion Hrun; subst; simpl. pose proof (getUInt64_bounds _ _ _ Hsize).
      repeat split; try done; lia.
  - intros ->. simpl. done.
Qed.

(** X14.  A configuration of the update queue that
    [parseCacheDictionaryUpdateQueueConfiguration] returns has a queue size
    and a number of threads that are not zero and a push timeout of at
    least 10 ms; without any of the four properties it is
    (100000, 4, 10, 60000); and the flag [is_complex] changes the text of
    the errors only: both layouts read the properties under [.cache.]. *)
Theorem parseCacheDictionaryUpdateQueueConfiguration_bounds
    (full_name : string) (config : gmap string string)
    (layout_prefix : string) (is_complex : bool) :
  (∀ configuration,
     parseCacheDictionaryUpdateQueueConfiguration parse_integer full_name
       config layout_prefix is_complex = Returned configuration ->
     0 < max_update_queue_size configuration < 2 ^ 64 ∧
     0 < max_threads_for_updates configuration < 2 ^ 64 ∧
     10 <= update_queue_push_timeout_milliseconds configuration < 2 ^ 64 ∧
     0 <= query_wait_timeout_milliseconds configuration < 2 ^ 64) ∧
  (config !! (layout_prefix +:+ ".cache.max_update_queue_size") = None ->
   config !! (layout_prefix +:+ ".cache.update_queue_push_timeout_milliseconds")
     = None ->
   config !! (layout_prefix +:+ ".cache.query_wait_timeout_milliseconds")
     = None ->
   config !! (layout_prefix +:+ ".max_threads_for_updates") = None ->
   parseCacheDictionaryUpdateQueueConfiguration parse_integer full_name
     config layout_prefix is_complex =
   Returned {| max_update_queue_size := 100000;
               max_threads_for_updates := 4;
               update_queue_push_timeout_milliseconds := 10;
               query_wait_timeout_milliseconds := 60000 |}) ∧
  (∀ configuration,
     parseCacheDictionaryUpdateQueueConfiguration parse_integer full_name
       config layout_prefix is_complex = Returned configuration ->
     parseCacheDictionaryUpdateQueueConfiguration parse_integer full_name
       config layout_prefix (negb is_complex) = Returned configuration).
Proof.
  unfold parseCacheDictionaryUpdateQueueConfiguration. split; [|split].
  - intros configuration Hrun.
    destruct (getUInt64_or parse_integer config
                (layout_prefix +:+ ".cache.max_update_queue_size") 100000)
      as [size|e|] eqn:Hsize; simpl in Hrun; try done.
    destruct (decide (size = 0)) as [|Hsize0]; [done|].
    destruct (getUInt64_or parse_integer config
                (layout_prefix +:+ ".cache.update_queue_push_timeout_milliseconds")
                10) as [timeout|e|] eqn:Htimeout; simpl in Hrun; try done.
    destruct (decide (timeout < 10)) as [|Htimeout10]; [done|].
    destruct (getUInt64_or parse_integer config
                (layout_prefix +:+ ".cache.query_wait_timeout_milliseconds")
                60000) as [wait|e|] eqn:Hwait; simpl in Hrun; try done.
    destruct (getUInt64_or parse_integer config
                (layout_prefix +:+ ".max_threads_for_updates") 4)
      as [threads|e|] eqn:Hthreads; simpl in Hrun; try done.
    destruct (decide (threads = 0)) as [|Hthreads0]; [done|].
    inversion Hrun; subst; simpl.
    pose proof (getUInt64_or_bounds _ _ _ _ Hsize ltac:(lia)).
    pose proof (getUInt64_or_bounds _ _ _ _ Htimeout ltac:(lia)).
    pose proof (getUInt64_or_bounds _ _ _ _ Hwait ltac:(lia)).
    pose proof (getUInt64_or_bounds _ _ _ _ Hthreads ltac:(lia)).
    lia.
  - intros Hsize Htimeout Hwait Hthreads. unfold getUInt64_or.
    rewrite Hsize, Htimeout, Hwait, Hthreads. done.
  - intros configuration Hrun.
    destruct (getUInt64_or parse_integer config
                (layout_prefix +:+ ".cache.max_update_queue_size") 100000)
      as [size|e|]; simpl in Hrun |- *; try done.
    destruct (decide (size = 0)) as [|Hsize0]; [done|].
    destruct (getUInt64_or parse_integer config
                (layout_prefix +:+ ".cache.update_queue_push_timeout_milliseconds")
                10) as [timeout|e|]; simpl in Hrun |- *; try done.
    destruct (decide (timeout < 10)) as [|Htimeout10]; [done|].
    destruct (getUInt64_or parse_integer config
                (layout_prefix +:+ ".cache.query_wait_timeout_milliseconds")
                60000) as [wait|e|]; simpl in Hrun |- *; try done.
    destruct (getUInt64_or parse_integer config
                (layout_prefix +:+ ".max_threads_for_updates") 4)
      as [threads|e|]; simpl in Hrun |- *; try done.
    by destruct (decide (threads = 0)).
Qed.

Lemma getInt64_or_defined (config : gmap string string) key default_ :
  getInt64_or parse_integer config key default_ ≠ NotDefined.
Proof.
  unfold getInt64_or, parse_in_range. destruct (config !! key); [|done].
  destruct (parse_integer _); [|done]. by destruct (decide _).
Qed.

Lemma getInt_or_defined (config : gmap string string) key default_ :
  getInt_or parse_integer config key default_ ≠ NotDefined.
Proof.
  unfold getInt_or, parse_in_range. destruct (config !! key); [|done].
  destruct (parse_integer _); [|done]. by destruct (decide _).
Qed.

Lemma getUInt64_or_defined (config : gmap string string) key default_ :
  getUInt64_or parse_integer config key default_ ≠ NotDefined.
Proof.
  unfold getUInt64_or, parse_in_range. destruct (config !! key); [|done].
  destruct (parse_integer _); [|done]. by destruct (decide _).
Qed.

Lemma size_t_mod_exact a b rest quotient :
  size_t_mod a b = Returned rest -> ¬ rest ≠ 0 ->
  size_t_div a b = Returned quotient ->
  b ≠ 0 ∧ quotient * b = a.
Proof.
  unfold size_t_mod, size_t_div. destruct (decide (b = 0)); [done|].
  intros Hrest Hzero Hquotient. inversion Hrest; subst.
  inversion Hquotient; subst. split; [done|].
  assert (a mod b = 0) by (destruct (decide (a mod b = 0)); [done|contradiction]).
  rewrite Z.mul_comm. symmetry. by apply Z.div_exact.
Qed.

Variable DEFAULT_AIO_FILE_BLOCK_SIZE : Z.

(** X15.  A configuration that [parseSSDCacheStorageConfiguration] returns
    has a block size that is not zero and counts the file, the read buffer
    and the write buffer in whole blocks: each count times the block size
    is the size in bytes that was read; and its path is not empty. *)
Theorem parseSSDCacheStorageConfiguration_whole_blocks (full_name : string)
    (config : gmap string string) (layout_prefix : string)
    (dict_lifetime : DictionaryLifetime) (is_complex : bool) configuration :
  let prefix :=
    layout_prefix +:+
    (if is_complex then ".complex_key_ssd_cache." else ".ssd_cache.") in
  parseSSDCacheStorageConfiguration parse_integer DEFAULT_AIO_FILE_BLOCK_SIZE
    full_name config layout_prefix dict_lifetime is_complex
    = Returned configuration ->
  block_size configuration ≠ 0 ∧
  file_path configuration ≠ "" ∧
  (to_size_t <$>
     getInt64_or parse_integer config (prefix +:+ "file_size")
       DEFAULT_FILE_SIZE_BYTES)
    = Returned (file_blocks_size configuration * block_size configuration) ∧
  (to_size_t <$>
     getInt64_or parse_integer config (prefix +:+ "read_buffer_size")
       (DEFAULT_READ_BUFFER_SIZE_BYTES DEFAULT_AIO_FILE_BLOCK_SIZE))
    = Returned (read_buffer_blocks_size configuration
                * block_size configuration) ∧
  (to_size_t <$>
     getInt64_or parse_integer config (prefix +:+ "write_buffer_size")
       (DEFAULT_WRITE_BUFFER_SIZE_BYTES DEFAULT_AIO_FILE_BLOCK_SIZE))
    = Returned (write_buffer_blocks_size configuration
                * block_size configuration).
Proof.
  intros prefix. unfold parseSSDCacheStorageConfiguration. fold prefix.
  intros Hrun.
  destruct (getUInt64_or parse_integer config
              (prefix +:+ "strict_max_lifetime_seconds") _)
    as [strict|e|]; simpl in Hrun; try done.
  destruct (to_size_t <$> getInt_or parse_integer config
              (prefix +:+ "ssd_cache.max_partitions_count") _)
    as [partitions|e|]; simpl in Hrun; try done.
  destruct (to_size_t <$> getInt_or parse_integer config
              (prefix +:+ "block_size") _)
    as [block|e|]; simpl in Hrun; try done.
  destruct (to_size_t <$> getInt64_or parse_integer config
              (prefix +:+ "file_size") _)
    as [file|e|]; simpl in Hrun; try done.
  destruct (size_t_mod file block) as [file_rest|e|] eqn:Hfile;
    simpl in Hrun; try done.
  destruct (decide (file_rest ≠ 0)) as [|Hfile0]; [done|].
  destruct (to_size_t <$> getInt64_or parse_integer config
              (prefix +:+ "read_buffer_size") _)
    as [read|e|]; simpl in Hrun; try done.
  destruct (size_t_mod read block) as [read_rest|e|] eqn:Hread;
    simpl in Hrun; try done.
  destruct (decide (read_rest ≠ 0)) as [|Hread0]; [done|].
  destruct (to_size_t <$> getInt64_or parse_integer config
              (prefix +:+ "write_buffer_size") _)
    as [write|e|]; simpl in Hrun; try done.
  destruct (size_t_mod write block) as [write_rest|e|] eqn:Hwrite;
    simpl in Hrun; try done.
  destruct (decide (write_rest ≠ 0)) as [|Hwrite0]; [done|].
  destruct (getString config (prefix +:+ "path")) as [path|e|];
    simpl in Hrun; try done.
  destruct (decide (path = "")) as [|Hpath]; [done|].
  assert (Hpath' : ∀ path',
    (if is_absolute path then Returned path
     else root ← getString config "path"; Returned (root +:+ path))
      = Returned path' -> path' ≠ "").
  { intros path'. destruct (is_absolute path).
    - intros Heq. by inversion Heq; subst.
    - destruct (getString config "path") as [root|e|]; simpl; try done.
      intros Heq. inversion Heq; subst. destruct root; [done|]. done. }
  destruct (if is_absolute path then _ else _) as [path'|e|] eqn:Hresolved;
    simpl in Hrun; try done.
  specialize (Hpath' path' eq_refl).
  destruct (to_size_t <$> getInt64_or parse_integer config
              (prefix +:+ "max_stored_keys") _)
    as [stored|e|]; simpl in Hrun; try done.
  destruct (size_t_div file block) as [file_blocks|e|] eqn:Hfile_blocks;
    simpl in Hrun; try done.
  destruct (size_t_div read block) as [read_blocks_|e|] eqn:Hread_blocks;
    simpl in Hrun; try done.
  destruct (size_t_div write block) as [write_blocks|e|] eqn:Hwrite_blocks;
    simpl in Hrun; try done.
  inversion Hrun; subst; simpl.
  destruct (size_t_mod_exact _ _ _ _ Hfile Hfile0 Hfile_blocks) as [Hblock ->].
  destruct (size_t_mod_exact _ _ _ _ Hread Hread0 Hread_blocks) as [_ ->].
  destruct (size_t_mod_exact _ _ _ _ Hwrite Hwrite0 Hwrite_blocks) as [_ ->].
  done.
Qed.

(** X16.  Without the properties [block_size] and [write_buffer_size],
    [parseSSDCacheStorageConfiguration] returns no configuration: the block
    size defaults to the default size of the read buffer, sixteen blocks of
    the file system, and the write buffer to one such block, which is not a
    multiple of it. *)
Theorem parseSSDCacheStorageConfiguration_needs_block_size (full_name : string)
    (config : gmap string string) (layout_prefix : string)
    (dict_lifetime : DictionaryLifetime) (is_complex : bool) :
  let prefix :=
    layout_prefix +:+
    (if is_complex then ".complex_key_ssd_cache." else ".ssd_cache.") in
  0 < DEFAULT_AIO_FILE_BLOCK_SIZE ->
  16 * DEFAULT_AIO_FILE_BLOCK_SIZE < 2 ^ 31 ->
  config !! (prefix +:+ "block_size") = None ->
  config !! (prefix +:+ "write_buffer_size") = None ->
  ∃ e,
    parseSSDCacheStorageConfiguration parse_integer DEFAULT_AIO_FILE_BLOCK_SIZE
      full_name config layout_prefix dict_lifetime is_complex = Raised e.
Proof.
  intros prefix Hpositive Hsmall Hblock Hwrite.
  unfold parseSSDCacheStorageConfiguration. fold prefix.
  pose proof (getUInt64_or_defined config
                (prefix +:+ "strict_max_lifetime_seconds")
                (to_size_t (max_sec dict_lifetime))) as Hstrict.
  destruct (getUInt64_or parse_integer config
              (prefix +:+ "strict_max_lifetime_seconds") _)
    as [strict|e|]; simpl; [|by eexists|done].
  pose proof (getInt_or_defined config
                (prefix +:+ "ssd_cache.max_partitions_count")
                (to_int DEFAULT_PARTITIONS_COUNT)) as Hpartitions.
  destruct (getInt_or parse_integer config
              (prefix +:+ "ssd_cache.max_partitions_count") _)
    as [partitions|e|]; simpl; [|by eexists|done].
  assert (Hblock' : ∀ default_,
    getInt_or parse_integer config (prefix +:+ "block_size") default_
    = Returned default_) by (intros; unfold getInt_or; by rewrite Hblock).
  rewrite Hblock'. simpl.
  assert (Hdefault :
    to_size_t (to_int (DEFAULT_READ_BUFFER_SIZE_BYTES DEFAULT_AIO_FILE_BLOCK_SIZE))
    = 16 * DEFAULT_AIO_FILE_BLOCK_SIZE).
  { unfold DEFAULT_READ_BUFFER_SIZE_BYTES, DEFAULT_SSD_BLOCK_SIZE_BYTES,
      to_size_t, to_int.
    rewrite (Z.mod_small (16 * _) (2 ^ 64)) by lia.
    rewrite (Z.mod_small (16 * _) (2 ^ 32)) by lia.
    destruct (decide (16 * DEFAULT_AIO_FILE_BLOCK_SIZE < 2 ^ 31)); [|lia].
    apply Z.mod_small. lia. }
  rewrite Hdefault.
  pose proof (getInt64_or_defined config (prefix +:+ "file_size")
                DEFAULT_FILE_SIZE_BYTES) as Hfile.
  destruct (getInt64_or parse_integer config (prefix +:+ "file_size") _)
    as [file|e|]; simpl; [|by eexists|done].
  unfold size_t_mod.
  destruct (decide (16 * DEFAULT_AIO_FILE_BLOCK_SIZE = 0)) as [|_]; [lia|].
  simpl. destruct (decide (_ ≠ 0)) as [|_]; [by eexists|].
  pose proof (getInt64_or_defined config (prefix +:+ "read_buffer_size")
                (DEFAULT_READ_BUFFER_SIZE_BYTES DEFAULT_AIO_FILE_BLOCK_SIZE))
    as Hread.
  destruct (getInt64_or parse_integer config (prefix +:+ "read_buffer_size") _)
    as [read|e|]; simpl; [|by eexists|done].
  destruct (decide (_ ≠ 0)) as [|_]; [by eexists|].
  assert (Hwrite' : ∀ default_,
    getInt64_or parse_integer config (prefix +:+ "write_buffer_size") default_
    = Returned default_) by (intros; unfold getInt64_or; by rewrite Hwrite).
  rewrite Hwrite'. simpl.
  destruct (decide (_ ≠ 0)) as [|Hmultiple]; [by eexists|].
  exfalso. apply Hmultiple.
  unfold DEFAULT_WRITE_BUFFER_SIZE_BYTES, DEFAULT_SSD_BLOCK_SIZE_BYTES,
    to_size_t.
  rewrite (Z.mod_small DEFAULT_AIO_FILE_BLOCK_SIZE (2 ^ 64)) by lia.
  rewrite Z.mod_small by lia. lia.
Qed.

End ParseFacts.

Section ConstructionFacts.

Context {Field DictId : Type}.

Variable parse_integer : string -> option Z.
Variable parse_bool : string -> option bool.
Variable fromDictionaryConfig : gmap string string -> string -> Outcome DictId.
Variable makeDictionaryLifetime :
  gmap string string -> string -> Outcome DictionaryLifetime.

Lemma setupHierarchicalAttribute_from_Returned full_name
    (attributes : list (DictionaryAttribute Field * AttributeUnderlyingType))
    so_far :
  Forall hierarchical_is_UInt64 attributes ->
  setupHierarchicalAttribute_from full_name attributes so_far =
  Returned
    match last (filter (fun attribute => hierarchical attribute = true)
                  attributes.*1) with
    | Some attribute => Some attribute
    | None => so_far
    end.
Proof.
  revert so_far. induction attributes as [|[attribute type] rest IH];
    intros so_far Htyped; [done|].
  apply Forall_cons in Htyped as [Hfirst Hrest]. simpl.
  rewrite filter_cons. simpl.
  destruct (hierarchical attribute) eqn:Hhierarchical.
  - pose proof (Hfirst Hhierarchical) as Htype. simpl in Htype. subst type.
    rewrite IH by done.
    destruct (decide (true = true)) as [_|]; [|done].
    change (list_fmap _ _ fst rest) with (fst <$> rest).
    destruct (filter _ _) as [|next others]; [done|].
    rewrite last_cons_cons.
    destruct (last (next :: others)) eqn:Hlast; [done|].
    by apply last_None in Hlast.
  - destruct (decide (false = true)) as [|_]; [done|]. by apply IH.
Qed.

Lemma setupHierarchicalAttribute_from_Raised full_name
    (attributes : list (DictionaryAttribute Field * AttributeUnderlyingType))
    so_far :
  ¬ Forall hierarchical_is_UInt64 attributes ->
  setupHierarchicalAttribute_from full_name attributes so_far =
  Raised (DBException (full_name +:+ ": hierarchical attribute must be UInt64.")
            TYPE_MISMATCH).
Proof.
  revert so_far. induction attributes as [|[attribute type] rest IH];
    intros so_far Htyped.
  - by destruct Htyped.
  - simpl. destruct (hierarchical attribute) eqn:Hhierarchical.
    + destruct type; [|done]. apply IH. intros Hrest. apply Htyped.
      by constructor.
    + apply IH. intros Hrest. apply Htyped. constructor; [|done].
      unfold hierarchical_is_UInt64. simpl. by rewrite Hhierarchical.
Qed.

(** X17.  [setupHierarchicalAttribute] returns exactly when every
    hierarchical attribute of the structure is of type UInt64, and then
    keeps the last of them, which for the structure of a configuration is
    the attribute that [toParent] asks for; otherwise it throws
    [TYPE_MISMATCH]. *)
Theorem setupHierarchicalAttribute_keeps_last_hierarchical (full_name : string)
    (dict_struct_ : DeclaredStructure (Field := Field)) :
  (Forall hierarchical_is_UInt64 (typed_attributes dict_struct_) ->
   ∀ config : CacheDictionaryConfiguration Field,
     dict_struct config = (typed_attributes dict_struct_).*1 ->
     setupHierarchicalAttribute full_name dict_struct_
       = Returned (hierarchical_attribute config)) ∧
  (¬ Forall hierarchical_is_UInt64 (typed_attributes dict_struct_) ->
   setupHierarchicalAttribute full_name dict_struct_ =
   Raised (DBException (full_name +:+ ": hierarchical attribute must be UInt64.")
             TYPE_MISMATCH)).
Proof.
  unfold setupHierarchicalAttribute. split.
  - intros Htyped config Hstructure.
    rewrite setupHierarchicalAttribute_from_Returned by done.
    unfold hierarchical_attribute. rewrite Hstructure.
    by destruct (last _).
  - apply setupHierarchicalAttribute_from_Raised.
Qed.

Lemma setupHierarchicalAttribute_Returned full_name
    (dict_struct_ : DeclaredStructure (Field := Field)) result :
  setupHierarchicalAttribute full_name dict_struct_ = Returned result ->
  Forall hierarchical_is_UInt64 (typed_attributes dict_struct_) ∧
  result = last (filter (fun attribute => hierarchical attribute = true)
                   (typed_attributes dict_struct_).*1).
Proof.
  unfold setupHierarchicalAttribute. intros Hrun.
  destruct (decide (Forall hierarchical_is_UInt64
                      (typed_attributes dict_struct_))) as [Htyped|Htyped].
  - split; [done|].
    rewrite setupHierarchicalAttribute_from_Returned in Hrun by done.
    inversion Hrun. by destruct (last _).
  - by rewrite setupHierarchicalAttribute_from_Raised in Hrun.
Qed.

(** X18.  The constructor returns a dictionary exactly for a source that
    supports selective load and a structure whose hierarchical attributes
    are UInt64; a source without selective load is refused with
    [UNSUPPORTED_METHOD] whatever the structure is, and what is constructed
    keeps the arguments as they are given. *)
Theorem construct_checks_source_first (full_name : string)
    (supportsSelectiveLoad : bool) (dict_id : DictId)
    (dict_struct_ : DeclaredStructure (Field := Field))
    storage_configuration update_queue_configuration dict_lifetime
    (allow_read_expired_keys_ : bool) :
  let constructed :=
    construct full_name supportsSelectiveLoad dict_id dict_struct_
      storage_configuration update_queue_configuration dict_lifetime
      allow_read_expired_keys_ in
  (supportsSelectiveLoad = false ->
   constructed =
   Raised (DBException
             (full_name +:+ ": source cannot be used with CacheDictionary")
             UNSUPPORTED_METHOD)) ∧
  ((∃ dictionary, constructed = Returned dictionary) <->
   supportsSelectiveLoad = true ∧
   Forall hierarchical_is_UInt64 (typed_attributes dict_struct_)) ∧
  (∀ dictionary, constructed = Returned dictionary ->
     constructed_id dictionary = dict_id ∧
     constructed_structure dictionary = dict_struct_ ∧
     constructed_storage dictionary = storage_configuration ∧
     constructed_update_queue dictionary = update_queue_configuration ∧
     constructed_lifetime dictionary = dict_lifetime ∧
     constructed_allow_read_expired_keys dictionary
       = allow_read_expired_keys_ ∧
     constructed_hierarchical_attribute dictionary
       = last (filter (fun attribute => hierarchical attribute = true)
                 (typed_attributes dict_struct_).*1)).
Proof.
  intros constructed. unfold construct in constructed. subst constructed.
  split; [by intros ->|]. split.
  - split.
    + intros [dictionary Hrun]. destruct supportsSelectiveLoad; [|done].
      split; [done|]. simpl in Hrun.
      destruct (setupHierarchicalAttribute full_name dict_struct_)
        as [result|e|] eqn:Hsetup; try done.
      by apply setupHierarchicalAttribute_Returned in Hsetup as [? _].
    + intros [-> Htyped]. simpl. unfold setupHierarchicalAttribute.
      rewrite setupHierarchicalAttribute_from_Returned by done. simpl.
      by eexists.
  - intros dictionary Hrun. destruct supportsSelectiveLoad; [|done].
    simpl in Hrun.
    destruct (setupHierarchicalAttribute full_name dict_struct_)
      as [result|e|] eqn:Hsetup; try done.
    apply setupHierarchicalAttribute_Returned in Hsetup as [_ ->].
    simpl in Hrun. by inversion Hrun; subst.
Qed.

Lemma construct_Returned (full_name : string)
    (supportsSelectiveLoad : bool) (dict_id : DictId)
    (dict_struct_ : DeclaredStructure (Field := Field))
    storage_configuration update_queue_configuration dict_lifetime
    (allow_read_expired_keys_ : bool) dictionary :
  construct full_name supportsSelectiveLoad dict_id dict_struct_
    storage_configuration update_queue_configuration dict_lifetime
    allow_read_expired_keys_ = Returned dictionary ->
  supportsSelectiveLoad = true ∧
  Forall hierarchical_is_UInt64 (typed_attributes dict_struct_) ∧
  constructed_structure dictionary = dict_struct_ ∧
  constructed_storage dictionary = storage_configuration ∧
  constructed_update_queue dictionary = update_queue_configuration ∧
  constructed_allow_read_expired_keys dictionary = allow_read_expired_keys_.
Proof.
  unfold construct. intros Hrun. destruct supportsSelectiveLoad; [|done].
  simpl in Hrun.
  destruct (setupHierarchicalAttribute full_name dict_struct_)
    as [result|e|] eqn:Hsetup; try done.
  apply setupHierarchicalAttribute_Returned in Hsetup as [Htyped _].
  simpl in Hrun. by inversion Hrun; subst.
Qed.

Lemma parseCacheStorageConfiguration_Returned full_name
    (config : gmap string string) layout_prefix dict_lifetime is_complex
    configuration :
  parseCacheStorageConfiguration parse_integer full_name config layout_prefix
    dict_lifetime is_complex = Returned configuration ->
  0 < max_size_in_cells configuration.
Proof.
  unfold parseCacheStorageConfiguration. intros Hrun.
  destruct (getUInt64 parse_integer config _) as [size|e|] eqn:Hsize;
    simpl in Hrun; try done.
  destruct (decide (size = 0)) as [|Hnonzero]; [done|].
  destruct (getUInt64_or parse_integer config _ _) as [strict|e|];
    simpl in Hrun; try done.
  inversion Hrun; subst; simpl. pose proof (getUInt64_bounds _ _ _ _ Hsize).
  lia.
Qed.

Lemma parseCacheDictionaryUpdateQueueConfiguration_Returned full_name
    (config : gmap string string) layout_prefix is_complex configuration :
  parseCacheDictionaryUpdateQueueConfiguration parse_integer full_name config
    layout_prefix is_complex = Returned configuration ->
  0 < max_update_queue_size configuration ∧
  0 < max_threads_for_updates configuration ∧
  10 <= update_queue_push_timeout_milliseconds configuration.
Proof.
  unfold parseCacheDictionaryUpdateQueueConfiguration. intros Hrun.
  destruct (getUInt64_or parse_integer config
              (layout_prefix +:+ ".cache.max_update_queue_size") 100000)
    as [size|e|] eqn:Hsize; simpl in Hrun; try done.
  destruct (decide (size = 0)) as [|Hsize0]; [done|].
  destruct (getUInt64_or parse_integer config
              (layout_prefix +:+ ".cache.update_queue_push_timeout_milliseconds")
              10) as [timeout|e|] eqn:Htimeout; simpl in Hrun; try done.
  destruct (decide (timeout < 10)) as [|Htimeout10]; [done|].
  destruct (getUInt64_or parse_integer config
              (layout_prefix +:+ ".cache.query_wait_timeout_milliseconds")
              60000) as [wait|e|] eqn:Hwait; simpl in Hrun; try done.
  destruct (getUInt64_or parse_integer config
              (layout_prefix +:+ ".max_threads_for_updates") 4)
    as [threads|e|] eqn:Hthreads; simpl in Hrun; try done.
  destruct (decide (threads = 0)) as [|Hthreads0]; [done|].
  inversion Hrun; subst; simpl.
  pose proof (getUInt64_or_bounds _ _ _ _ _ Hsize ltac:(lia)).
  pose proof (getUInt64_or_bounds _ _ _ _ _ Hthreads ltac:(lia)).
  lia.
Qed.

(** X19.  A dictionary that the layout [cache] creates has a structure
    without key and without range, all of whose hierarchical attributes are
    UInt64, a source that supports selective load, a storage of at least
    one cell, an update queue of at least one place and one thread with a
    push timeout of at least 10 ms, and it allows reading expired keys as
    [layout.cache.allow_read_expired_keys] says; [require_nonempty] is not
    set. *)
Theorem create_simple_cache_layout_creates_valid_dictionary
    (full_name : string) (dict_struct_ : DeclaredStructure (Field := Field))
    (config : gmap string string) (config_prefix : string)
    (source_supportsSelectiveLoad : bool) dictionary :
  create_simple_cache_layout parse_integer parse_bool fromDictionaryConfig
    makeDictionaryLifetime full_name dict_struct_ config config_prefix
    source_supportsSelectiveLoad = Returned dictionary ->
  declares_key dict_struct_ = false ∧
  declares_range_min dict_struct_ = false ∧
  declares_range_max dict_struct_ = false ∧
  Forall hierarchical_is_UInt64 (typed_attributes dict_struct_) ∧
  source_supportsSelectiveLoad = true ∧
  getBool_or parse_bool config (config_prefix +:+ ".require_nonempty") false
    = Returned false ∧
  constructed_structure dictionary = dict_struct_ ∧
  0 < max_size_in_cells (constructed_storage dictionary) ∧
  0 < max_update_queue_size (constructed_update_queue dictionary) ∧
  0 < max_threads_for_updates (constructed_update_queue dictionary) ∧
  10 <= update_queue_push_timeout_milliseconds
          (constructed_update_queue dictionary) ∧
  getBool_or parse_bool config
    ((config_prefix +:+ ".layout") +:+ ".cache.allow_read_expired_keys") false
    = Returned (constructed_allow_read_expired_keys dictionary).
Proof.
  unfold create_simple_cache_layout. intros Hrun.
  destruct (declares_key dict_struct_); [done|].
  destruct (declares_range_min dict_struct_); [done|].
  destruct (declares_range_max dict_struct_); [done|]. simpl in Hrun.
  destruct (getBool_or parse_bool config (config_prefix +:+ ".require_nonempty")
              false) as [[|]|e|]; simpl in Hrun; try done.
  destruct (fromDictionaryConfig config config_prefix) as [dict_id|e|];
    simpl in Hrun; try done.
  destruct (makeDictionaryLifetime config _) as [dict_lifetime|e|];
    simpl in Hrun; try done.
  destruct (getBool_or parse_bool config _ false) as [allow|e|];
    simpl in Hrun; try done.
  destruct (parseCacheStorageConfiguration _ _ _ _ _ _) as [storage|e|]
    eqn:Hstorage; simpl in Hrun; try done.
  destruct (parseCacheDictionaryUpdateQueueConfiguration _ _ _ _ _)
    as [queue|e|] eqn:Hqueue; simpl in Hrun; try done.
  apply parseCacheStorageConfiguration_Returned in Hstorage.
  apply parseCacheDictionaryUpdateQueueConfiguration_Returned in Hqueue
    as (? & ? & ?).
  apply construct_Returned in Hrun as (-> & ? & -> & -> & -> & ->).
  done.
Qed.

(** X20.  A dictionary that the layout [complex_key_cache] creates has a
    structure without id and without range and a source that supports
    selective load; its storage has the cells of
    [layout.complex_key_cache.size_in_cells], while whether it allows
    reading expired keys and its update queue are read from the properties
    of the layout [cache]. *)
Theorem create_complex_key_cache_layout_reads_cache_properties
    (full_name : string) (dict_struct_ : DeclaredStructure (Field := Field))
    (config : gmap string string) (config_prefix : string)
    (source_supportsSelectiveLoad : bool) dictionary :
  create_complex_key_cache_layout parse_integer parse_bool fromDictionaryConfig
    makeDictionaryLifetime full_name dict_struct_ config config_prefix
    source_supportsSelectiveLoad = Returned dictionary ->
  declares_id dict_struct_ = false ∧
  declares_range_min dict_struct_ = false ∧
  declares_range_max dict_struct_ = false ∧
  Forall hierarchical_is_UInt64 (typed_attributes dict_struct_) ∧
  source_supportsSelectiveLoad = true ∧
  constructed_structure dictionary = dict_struct_ ∧
  getUInt64 parse_integer config
    (((config_prefix +:+ ".layout") +:+ ".complex_key_cache.")
     +:+ "size_in_cells")
    = Returned (max_size_in_cells (constructed_storage dictionary)) ∧
  0 < max_size_in_cells (constructed_storage dictionary) ∧
  getBool_or parse_bool config
    ((config_prefix +:+ ".layout") +:+ ".cache.allow_read_expired_keys") false
    = Returned (constructed_allow_read_expired_keys dictionary) ∧
  parseCacheDictionaryUpdateQueueConfiguration parse_integer full_name config
    (config_prefix +:+ ".layout") false
    = Returned (constructed_update_queue dictionary).
Proof.
  unfold create_complex_key_cache_layout. intros Hrun.
  destruct (declares_id dict_struct_); [done|].
  destruct (declares_range_min dict_struct_); [done|].
  destruct (declares_range_max dict_struct_); [done|]. simpl in Hrun.
  destruct (getBool_or parse_bool config (config_prefix +:+ ".require_nonempty")
              false) as [[|]|e|]; simpl in Hrun; try done.
  destruct (fromDictionaryConfig config config_prefix) as [dict_id|e|];
    simpl in Hrun; try done.
  destruct (makeDictionaryLifetime config _) as [dict_lifetime|e|];
    simpl in Hrun; try done.
  destruct (getBool_or parse_bool config _ false) as [allow|e|];
    simpl in Hrun; try done.
  destruct (parseCacheStorageConfiguration _ _ _ _ _ _) as [storage|e|]
    eqn:Hstorage; simpl in Hrun; try done.
  destruct (parseCacheDictionaryUpdateQueueConfiguration _ _ _ _ true)
    as [queue|e|] eqn:Hqueue; simpl in Hrun; try done.
  pose proof (parseCacheStorageConfiguration_Returned _ _ _ _ _ _ Hstorage).
  apply construct_Returned in Hrun as (-> & ? & -> & -> & -> & ->).
  repeat (split; [done|]). split; [|split; [done|]].
  - unfold parseCacheStorageConfiguration in Hstorage.
    destruct (getUInt64 parse_integer config _) as [size|e|] eqn:Hsize;
      simpl in Hstorage; try done.
    destruct (decide (size = 0)); [done|].
    destruct (getUInt64_or parse_integer config _ _) as [strict|e|];
      simpl in Hstorage; try done.
    by inversion Hstorage; subst.
  - unfold parseCacheDictionaryUpdateQueueConfiguration in Hqueue |- *.
    destruct (getUInt64_or parse_integer config
                ((config_prefix +:+ ".layout") +:+ ".cache.max_update_queue_size")
                100000) as [size|e|]; simpl in Hqueue |- *; try done.
    destruct (decide (size = 0)); [done|].
    destruct (getUInt64_or parse_integer config
                ((config_prefix +:+ ".layout") +:+
                 ".cache.update_queue_push_timeout_milliseconds") 10)
      as [timeout|e|]; simpl in Hqueue |- *; try done.
    destruct (decide (timeout < 10)); [done|].
    destruct (getUInt64_or parse_integer config
                ((config_prefix +:+ ".layout") +:+
                 ".cache.query_wait_timeout_milliseconds") 60000)
      as [wait|e|]; simpl in Hqueue |- *; try done.
    destruct (getUInt64_or parse_integer config
                ((config_prefix +:+ ".layout") +:+ ".max_threads_for_updates") 4)
      as [threads|e|]; simpl in Hqueue |- *; try done.
    by destruct (decide (threads = 0)).
Qed.

End ConstructionFacts.

End FactoryFacts.

(** * Instances of the further properties *)

Module MoreInstances.

Import UInt64Dictionary Examples Factory MoreExamples.

(** The source sends [6] twice, in two blocks: the unit holds the three
    rows, and the index sends [6] to the last of them. *)
Lemma update_holds_what_the_source_sent_witness :
  let updated :=
    update_a 100 source_in_two_blocks fresh_dictionary (unit_for [6; 8]) in
  updated.1.1 = Ok tt ∧
  fetched_columns_during_update updated.2 = [[60; 81; 61]] ∧
  requested_keys_to_fetched_columns_during_update_index updated.2 !! 6
    = Some 2%nat.
Proof.
  assert (Hfresh : filled_columns_have O (unit_for [6; 8])).
  { intros [|i] column Hfill Hcolumn; [|done]. by inversion Hcolumn. }
  assert (Hload :
    load (config_a false) source_in_two_blocks (unit_for [6; 8])
    = Ok [Read [[6; 8]; [60; 81]]; Read [[6]; [61]]]) by reflexivity.
  assert (Hupdate :
    update_a 100 source_in_two_blocks fresh_dictionary (unit_for [6; 8])
    = (Ok tt,
       (update_a 100 source_in_two_blocks fresh_dictionary
          (unit_for [6; 8])).1.2,
       (update_a 100 source_in_two_blocks fresh_dictionary
          (unit_for [6; 8])).2)) by reflexivity.
  split; [reflexivity|]. split; [reflexivity|].
  destruct (update_holds_what_the_source_sent backoff_without_jitter
              (config_a false) 1 100 source_in_two_blocks fresh_dictionary
              (unit_for [6; 8]) [Read [[6; 8]; [60; 81]]; Read [[6]; [61]]]
              _ _ eq_refl Hfresh Hload Hupdate) as [_ Hindex].
  apply (Hindex 6 2%nat). change (last_occurrence [6; 8; 6] 6 2%nat).
  split; [reflexivity|]. intros [|[|[|row']]] Hrow'; try lia. done.
Defined.

(** The source sends one block and then throws: the storage was given that
    block. *)
Lemma update_inserts_block_by_block_witness :
  100 > backoff_end_time fresh_dictionary ∧
  let '(outcome, dictionary', _) :=
    update_a 100 source_that_breaks fresh_dictionary (unit_for [6; 8]) in
  outcome ≠ Undefined ->
  ∃ n,
    cache_storage dictionary' =
      insert_blocks 1 (cache_storage fresh_dictionary)
        (take n [[[6]; [60]]]) ∧
    ([[[6]; [60]]] ≠ ([] : list (list (list Z))) -> (0 < n)%nat) ∧
    (outcome = Ok tt -> (length [[[6]; [60]]] ≤ n)%nat).
Proof.
  assert (Hnow : 100 > backoff_end_time fresh_dictionary)
    by (vm_compute; congruence).
  assert (Hload :
    load (config_a false) source_that_breaks (unit_for [6; 8])
    = Ok [Read [[6]; [60]]; ReadThrows (ForeignException "lost")])
    by reflexivity.
  split; [exact Hnow|].
  exact (update_inserts_block_by_block backoff_without_jitter (config_a false)
           1 100 source_that_breaks fresh_dictionary (unit_for [6; 8]) _
           Hnow Hload).
Defined.

(** [3 -> 2 -> 1], asked for [3; 1; 7]. *)
Lemma isInConstantVector_decides_reachability_witness :
  ∃ out,
    isInConstantVector (toParent_of_function chain_321) 0
      DBMS_HIERARCHICAL_DICTIONARY_MAX_DEPTH 3 [3; 1; 7] 3 tt = (Ok out, tt) ∧
    length out = 3%nat ∧
    ∀ i ancestor_id,
      (i < 3)%nat -> [3; 1; 7] !! i = Some ancestor_id ->
      (reaches 0 chain_321 DBMS_HIERARCHICAL_DICTIONARY_MAX_DEPTH 3 ancestor_id ->
       out !! i = Some 1) ∧
      (¬ reaches 0 chain_321 DBMS_HIERARCHICAL_DICTIONARY_MAX_DEPTH 3
           ancestor_id ->
       out !! i = Some 0).
Proof.
  apply (isInConstantVector_decides_reachability
           (toParent_of_function chain_321) 0
           DBMS_HIERARCHICAL_DICTIONARY_MAX_DEPTH chain_321 3 [3; 1; 7] 3 tt).
  - intros ids world. reflexivity.
  - simpl. lia.
Defined.

(** The children [3; 0] against the ancestors [3; 5]: [3] is its own
    ancestor, [0] is the null value. *)
Lemma isInImpl_first_round_witness :
  isInImpl (toParent_of_function chain_321) 0
    DBMS_HIERARCHICAL_DICTIONARY_MAX_DEPTH [3; 0] (AncestorVector [3; 5]) 2 tt
    = (Ok [1; 0], tt) ∧
  [1; 0] !! 0%nat = Some 1 ∧ [1; 0] !! 1%nat = Some 0.
Proof.
  assert (Hdepth : (0 < DBMS_HIERARCHICAL_DICTIONARY_MAX_DEPTH)%nat)
    by (unfold DBMS_HIERARCHICAL_DICTIONARY_MAX_DEPTH; lia).
  assert (Hrun :
    isInImpl (toParent_of_function chain_321) 0
      DBMS_HIERARCHICAL_DICTIONARY_MAX_DEPTH [3; 0] (AncestorVector [3; 5]) 2
      tt = (Ok [1; 0], tt)) by (vm_compute; reflexivity).
  split; [exact Hrun|].
  destruct (isInImpl_first_round (toParent_of_function chain_321) 0
              DBMS_HIERARCHICAL_DICTIONARY_MAX_DEPTH [3; 0]
              (AncestorVector [3; 5]) 2 tt [1; 0] tt Hdepth Hrun)
    as (_ & _ & Hrows).
  split.
  - apply (Hrows 0%nat 3); [lia|reflexivity|discriminate|reflexivity].
  - apply (Hrows 1%nat 0); [lia|reflexivity|reflexivity].
Defined.

(** The keys [5; 6; 7; 8] over the column [50; 80]: [5] is found at the
    row [0], [8] is expired at the row [1], [6] and [7] get no row. *)
Lemma aggregateColumnsInOrderOfKeys_rows_witness :
  ∃ column fetched_column,
    [[50; 80]] !! 0%nat = Some column ∧
    [[50; 80]] !! 0%nat = Some fetched_column ∧
    Forall2 (fun row value => fetched_column !! row = Some value)
      (omap (row_in_order_of_keys {[ 5 := 0%nat ]} {[ 8 := 1%nat ]})
         mixed_keys) column ∧
    length column =
      length (filter (fun key =>
                        is_Some (row_in_order_of_keys {[ 5 := 0%nat ]}
                                   {[ 8 := 1%nat ]} key)) mixed_keys).
Proof.
  assert (Hrun :
    aggregateColumnsInOrderOfKeys mixed_keys request_a [[50; 80]]
      {[ 5 := 0%nat ]} {[ 8 := 1%nat ]} = Ok [[50; 80]]) by reflexivity.
  exact (aggregateColumnsInOrderOfKeys_rows mixed_keys request_a [[50; 80]]
           {[ 5 := 0%nat ]} {[ 8 := 1%nat ]} [[50; 80]] 0%nat Hrun eq_refl).
Defined.

(** The async branch: [9] is expired, expired reads are allowed, and the
    row [90] is the row of the storage that the expired index names. *)
Lemma getColumnsImpl_answers_from_storage_witness :
  classify true [9] (expired_result request_a) ≠ SyncUpdate ∧
  ∃ i fetched_column,
    shouldFillResultColumnWithIndex request_a i = true ∧
    fetched_columns (expired_result request_a) !! i = Some fetched_column ∧
    Forall2 (fun row value => fetched_column !! row = Some value)
      (omap (row_in_order_of_keys ∅ {[ 9 := 0%nat ]}) [9]) [90].
Proof.
  assert (Hbranch : classify true [9] (expired_result request_a) ≠ SyncUpdate)
    by (vm_compute; congruence).
  assert (Hfetch :
    fetchColumnsForKeys (CacheDictionaryWorld := world_of (config_a true))
      [9] request_a expired_world
    = (Ok (expired_result request_a), expired_world)) by reflexivity.
  assert (Hrun :
    getColumnsImpl (CacheDictionaryWorld0 := world_of (config_a true))
      (config_a true) ["a"%string] [[9]] [9] [Some [-1]] expired_world
    = (Ok [[90]],
       (getColumnsImpl (CacheDictionaryWorld0 := world_of (config_a true))
          (config_a true) ["a"%string] [[9]] [9] [Some [-1]]
          expired_world).2)) by reflexivity.
  split; [exact Hbranch|].
  exact (Forall_inv
           (getColumnsImpl_answers_from_storage
              (query_world := world_of (config_a true))
              (config_a true) ["a"%string] [[9]] [9] [Some [-1]] expired_world
              (expired_result request_a) expired_world [[90]] _
              Hfetch Hbranch Hrun)).
Defined.

(** The sync branch for [5; 6; 7; 8]: four rows. *)
Lemma getColumnsImpl_sync_update_one_row_per_key_witness :
  classify false mixed_keys (mixed_result request_a) = SyncUpdate ∧
  Forall (fun column : list Z => length column = length mixed_keys)
    [[50; 60; -1; 81]].
Proof.
  assert (Hfetch :
    fetchColumnsForKeys (CacheDictionaryWorld := world_of (config_a false))
      mixed_keys request_a mixed_world
    = (Ok (mixed_result request_a), mixed_world)) by reflexivity.
  assert (Hrun :
    getColumnsImpl (CacheDictionaryWorld0 := world_of (config_a false))
      (config_a false) ["a"%string] [mixed_keys] mixed_keys
      [Some [-1; -1; -1; -1]] mixed_world
    = (Ok [[50; 60; -1; 81]],
       (getColumnsImpl (CacheDictionaryWorld0 := world_of (config_a false))
          (config_a false) ["a"%string] [mixed_keys] mixed_keys
          [Some [-1; -1; -1; -1]] mixed_world).2)) by reflexivity.
  split; [reflexivity|].
  exact (getColumnsImpl_sync_update_one_row_per_key
           (query_world := world_of (config_a false))
           (config_a false) ["a"%string] [mixed_keys] mixed_keys
           [Some [-1; -1; -1; -1]] mixed_world (mixed_result request_a)
           mixed_world [[50; 60; -1; 81]] _ Hfetch eq_refl Hrun).
Defined.

(** The lookups of no key in the storage of a hierarchy keep the promises
    of a storage. *)
Lemma lookup_of_no_key_wf (request_ : DictionaryStorageFetchRequest Z) :
  FetchResult_wf []
    request_ (script (hierarchy_storage chain_321) [] request_).
Proof.
  split; simpl.
  - rewrite dom_empty_L. set_solver.
  - rewrite dom_empty_L. set_solver.
  - intros [|i] column Hfill Hcolumn; [|done]. inversion Hcolumn.
    by destruct (shouldFillResultColumnWithIndex request_ 0).
  - intros key row [Hrow|Hrow]; by rewrite lookup_empty in Hrow.
Qed.

(** No key asked from the hierarchy [3 -> 2 -> 1]: one empty column, and
    the world as it was. *)
Lemma getColumnsImpl_for_no_key_witness :
  ∃ outcome,
    getColumnsImpl (CacheDictionaryWorld0 := world_of config_parent)
      config_parent ["parent"%string] [[]] [] [None]
      (hierarchy_world chain_321)
    = (outcome, hierarchy_world chain_321) ∧
    ∀ columns, outcome = Ok columns ->
      Forall (fun column : list Z => column = []) columns.
Proof.
  assert (Hfetch :
    fetchColumnsForKeys (CacheDictionaryWorld := world_of config_parent)
      [] {| request_structure := dict_struct config_parent;
            attributes_to_fetch := ["parent"%string] |}
      (hierarchy_world chain_321)
    = (Ok (script (hierarchy_storage chain_321) []
             {| request_structure := dict_struct config_parent;
                attributes_to_fetch := ["parent"%string] |}),
       hierarchy_world chain_321)) by reflexivity.
  exact (getColumnsImpl_for_no_key (query_world := world_of config_parent)
           config_parent ["parent"%string] [[]] [None]
           (hierarchy_world chain_321) _ (hierarchy_world chain_321)
           Hfetch (lookup_of_no_key_wf _)).
Defined.

(** [hasKeys] for the empty key column. *)
Lemma hasKeys_for_no_key_witness :
  hasKeys (CacheDictionaryWorld0 := world_of config_parent) config_parent
    [[]] (hierarchy_world chain_321)
  = (Ok [], hierarchy_world chain_321).
Proof.
  assert (Hfetch :
    fetchColumnsForKeys (CacheDictionaryWorld := world_of config_parent)
      [] {| request_structure := dict_struct config_parent;
            attributes_to_fetch := [] |}
      (hierarchy_world chain_321)
    = (Ok (script (hierarchy_storage chain_321) []
             {| request_structure := dict_struct config_parent;
                attributes_to_fetch := [] |}),
       hierarchy_world chain_321)) by reflexivity.
  exact (hasKeys_for_no_key (query_world := world_of config_parent)
           config_parent [[]] (hierarchy_world chain_321) _
           (hierarchy_world chain_321) eq_refl Hfetch
           (lookup_of_no_key_wf _)).
Defined.

(** [hasKeys] for [5; 6; 7; 8]: [5] is found fresh, and its row is
    [true]. *)
Lemma hasKeys_rows_witness :
  (hasKeys (CacheDictionaryWorld0 := world_of (config_a false))
     (config_a false) [mixed_keys] mixed_world).1
  = Ok [true; true; false; true] ∧
  length [true; true; false; true] = length mixed_keys ∧
  [true; true; false; true] !! 0%nat = Some true.
Proof.
  assert (Hfetch :
    fetchColumnsForKeys (CacheDictionaryWorld := world_of (config_a false))
      mixed_keys
      {| request_structure := dict_struct (config_a false);
         attributes_to_fetch := [] |} mixed_world
    = (Ok (mixed_result {| request_structure := structure_a;
                           attributes_to_fetch := [] |}), mixed_world))
    by reflexivity.
  assert (Hrun :
    hasKeys (CacheDictionaryWorld0 := world_of (config_a false))
      (config_a false) [mixed_keys] mixed_world
    = (Ok [true; true; false; true],
       (hasKeys (CacheDictionaryWorld0 := world_of (config_a false))
          (config_a false) [mixed_keys] mixed_world).2)) by reflexivity.
  split; [reflexivity|].
  destruct (hasKeys_rows (query_world := world_of (config_a false))
              (config_a false) [mixed_keys] mixed_world _ mixed_world
              [true; true; false; true] _ Hfetch Hrun) as [Hlength Hrows].
  split; [exact Hlength|].
  apply (Hrows 0%nat 5); [reflexivity|]. exists 0%nat. reflexivity.
Defined.

(** The parents of [5] and [7], which neither the storage nor the source
    knows: the null value [0]. *)
Lemma toParent_unknown_key_has_null_parent_witness :
  hierarchical_attribute config_parent = Some parent_attribute ∧
  (toParent (CacheDictionaryWorld0 := world_of config_parent)
     (fun value => value) config_parent [5; 7] unknowing_world).1
  = Ok [0; 0] ∧
  length [0; 0] = length [5; 7].
Proof.
  assert (Hfetch :
    fetchColumnsForKeys (CacheDictionaryWorld := world_of config_parent)
      [5; 7]
      {| request_structure := dict_struct config_parent;
         attributes_to_fetch := [name parent_attribute] |} unknowing_world
    = (Ok (script unknowing_storage [5; 7]
             {| request_structure := dict_struct config_parent;
                attributes_to_fetch := [name parent_attribute] |}),
       unknowing_world)) by reflexivity.
  assert (Hrun :
    toParent (CacheDictionaryWorld0 := world_of config_parent)
      (fun value => value) config_parent [5; 7] unknowing_world
    = (Ok [0; 0],
       (toParent (CacheDictionaryWorld0 := world_of config_parent)
          (fun value => value) config_parent [5; 7] unknowing_world).2))
    by reflexivity.
  split; [reflexivity|]. split; [reflexivity|].
  destruct (toParent_unknown_key_has_null_parent
              (query_world := world_of config_parent)
              (fun value => value) config_parent [5; 7] unknowing_world
              parent_attribute _ unknowing_world [0; 0] _
              eq_refl eq_refl Hfetch eq_refl Hrun) as [Hlength _].
  exact Hlength.
Defined.

(** The layout [cache] with 1024 cells and a lifetime of at most 360 s. *)
Lemma parseCacheStorageConfiguration_cells_witness :
  parseCacheStorageConfiguration parse_decimal "regions" cache_configuration
    "dictionary.layout" lifetime_300_360 false
  = Returned storage_of_1024_cells ∧
  0 < max_size_in_cells storage_of_1024_cells < 2 ^ 64 ∧
  strict_max_lifetime_seconds storage_of_1024_cells = 360.
Proof.
  assert (Hrun :
    parseCacheStorageConfiguration parse_decimal "regions" cache_configuration
      "dictionary.layout" lifetime_300_360 false
    = Returned storage_of_1024_cells) by reflexivity.
  split; [exact Hrun|].
  destruct (FactoryFacts.parseCacheStorageConfiguration_cells parse_decimal
              "regions" cache_configuration "dictionary.layout"
              lifetime_300_360 false) as [Hreturned _].
  destruct (Hreturned storage_of_1024_cells Hrun)
    as (_ & Hcells & _ & Hstrict).
  split; [exact Hcells|]. apply Hstrict. reflexivity.
Defined.

(** A queue of 500 places, the other properties by default; and the
    defaults, for a configuration without any of the four properties. *)
Lemma parseCacheDictionaryUpdateQueueConfiguration_bounds_witness :
  parseCacheDictionaryUpdateQueueConfiguration parse_decimal "regions"
    cache_configuration "dictionary.layout" true
  = Returned update_queue_of_500 ∧
  0 < max_update_queue_size update_queue_of_500 < 2 ^ 64 ∧
  parseCacheDictionaryUpdateQueueConfiguration parse_decimal "regions"
    ssd_cache_configuration "dictionary.layout" false
  = Returned {| max_update_queue_size := 100000;
                max_threads_for_updates := 4;
                update_queue_push_timeout_milliseconds := 10;
                query_wait_timeout_milliseconds := 60000 |}.
Proof.
  assert (Hrun :
    parseCacheDictionaryUpdateQueueConfiguration parse_decimal "regions"
      cache_configuration "dictionary.layout" false
    = Returned update_queue_of_500) by reflexivity.
  destruct (FactoryFacts.parseCacheDictionaryUpdateQueueConfiguration_bounds
              parse_decimal "regions" cache_configuration "dictionary.layout"
              false) as (Hbounds & _ & Hsame).
  destruct (FactoryFacts.parseCacheDictionaryUpdateQueueConfiguration_bounds
              parse_decimal "regions" ssd_cache_configuration
              "dictionary.layout" false) as (_ & Hdefaults & _).
  split; [exact (Hsame update_queue_of_500 Hrun)|].
  split; [exact (proj1 (Hbounds update_queue_of_500 Hrun))|].
  apply Hdefaults; reflexivity.
Defined.

(** The layout [ssd_cache] with blocks of 4096 bytes: a file of 4096
    blocks, a read buffer of 32 and a write buffer of 2. *)
Lemma parseSSDCacheStorageConfiguration_whole_blocks_witness :
  parseSSDCacheStorageConfiguration parse_decimal DEFAULT_AIO_FILE_BLOCK_SIZE
    "regions" ssd_cache_configuration "dictionary.layout" lifetime_300_360
    false
  = Returned ssd_storage_of_4096_blocks ∧
  block_size ssd_storage_of_4096_blocks ≠ 0 ∧
  file_path ssd_storage_of_4096_blocks ≠ ""%string.
Proof.
  assert (Hrun :
    parseSSDCacheStorageConfiguration parse_decimal
      DEFAULT_AIO_FILE_BLOCK_SIZE "regions" ssd_cache_configuration
      "dictionary.layout" lifetime_300_360 false
    = Returned ssd_storage_of_4096_blocks) by reflexivity.
  split; [exact Hrun|].
  destruct (FactoryFacts.parseSSDCacheStorageConfiguration_whole_blocks
              parse_decimal DEFAULT_AIO_FILE_BLOCK_SIZE "regions"
              ssd_cache_configuration "dictionary.layout" lifetime_300_360
              false ssd_storage_of_4096_blocks Hrun)
    as (Hblock & Hpath & _).
  split; [exact Hblock|exact Hpath].
Defined.

(** The layout [ssd_cache] with its path only. *)
Lemma parseSSDCacheStorageConfiguration_needs_block_size_witness :
  0 < DEFAULT_AIO_FILE_BLOCK_SIZE ∧
  16 * DEFAULT_AIO_FILE_BLOCK_SIZE < 2 ^ 31 ∧
  ∃ e,
    parseSSDCacheStorageConfiguration parse_decimal
      DEFAULT_AIO_FILE_BLOCK_SIZE "regions" ssd_cache_configuration_of_path
      "dictionary.layout" lifetime_300_360 false = Raised e.
Proof.
  assert (Hpositive : 0 < DEFAULT_AIO_FILE_BLOCK_SIZE) by reflexivity.
  assert (Hsmall : 16 * DEFAULT_AIO_FILE_BLOCK_SIZE < 2 ^ 31) by reflexivity.
  split; [exact Hpositive|]. split; [exact Hsmall|].
  apply (FactoryFacts.parseSSDCacheStorageConfiguration_needs_block_size
           parse_decimal DEFAULT_AIO_FILE_BLOCK_SIZE "regions"
           ssd_cache_configuration_of_path "dictionary.layout"
           lifetime_300_360 false Hpositive Hsmall); reflexivity.
Defined.

(** The parent of [regions] is UInt64 and is kept; a parent of type String
    is refused. *)
Lemma setupHierarchicalAttribute_keeps_last_hierarchical_witness :
  setupHierarchicalAttribute "regions" structure_of_regions
    = Returned (hierarchical_attribute config_parent) ∧
  setupHierarchicalAttribute "regions" structure_with_String_parent
    = Raised (DBException "regions: hierarchical attribute must be UInt64."
                TYPE_MISMATCH).
Proof.
  split.
  - destruct (FactoryFacts.setupHierarchicalAttribute_keeps_last_hierarchical
                "regions" structure_of_regions) as [Htyped _].
    apply Htyped; [|reflexivity].
    constructor; [intros _; reflexivity|constructor].
  - destruct (FactoryFacts.setupHierarchicalAttribute_keeps_last_hierarchical
                "regions" structure_with_String_parent) as [_ Hrefused].
    apply Hrefused. intros Htyped. apply Forall_cons in Htyped as [Hfirst _].
    specialize (Hfirst eq_refl). discriminate Hfirst.
Defined.

(** A source with selective load and the structure of [regions]; and a
    source without it. *)
Lemma construct_checks_source_first_witness :
  (∃ dictionary,
     construct "regions" true "regions"%string structure_of_regions
       storage_of_1024_cells update_queue_of_500 lifetime_300_360 true
     = Returned dictionary) ∧
  construct "regions" false "regions"%string structure_with_String_parent
    storage_of_1024_cells update_queue_of_500 lifetime_300_360 true
  = Raised (DBException "regions: source cannot be used with CacheDictionary"
              UNSUPPORTED_METHOD).
Proof.
  split.
  - destruct (FactoryFacts.construct_checks_source_first "regions" true
                "regions"%string structure_of_regions storage_of_1024_cells
                update_queue_of_500 lifetime_300_360 true)
      as (_ & Hreturns & _).
    apply Hreturns. split; [reflexivity|].
    constructor; [intros _; reflexivity|constructor].
  - destruct (FactoryFacts.construct_checks_source_first "regions" false
                "regions"%string structure_with_String_parent
                storage_of_1024_cells update_queue_of_500 lifetime_300_360
                true) as (Hrefused & _).
    apply Hrefused. reflexivity.
Defined.

(** The dictionary [regions] of layout [cache]. *)
Lemma create_simple_cache_layout_creates_valid_dictionary_witness :
  create_simple_cache_layout parse_decimal parse_true_false id_of_name
    lifetime_of_min_max "regions" structure_of_regions cache_configuration
    "dictionary" true
  = Returned regions_dictionary ∧
  0 < max_size_in_cells (constructed_storage regions_dictionary) ∧
  0 < max_update_queue_size (constructed_update_queue regions_dictionary).
Proof.
  assert (Hrun :
    create_simple_cache_layout parse_decimal parse_true_false id_of_name
      lifetime_of_min_max "regions" structure_of_regions cache_configuration
      "dictionary" true
    = Returned regions_dictionary) by reflexivity.
  split; [exact Hrun|].
  destruct (FactoryFacts.create_simple_cache_layout_creates_valid_dictionary
              parse_decimal parse_true_false id_of_name lifetime_of_min_max
              "regions" structure_of_regions cache_configuration "dictionary"
              true regions_dictionary Hrun)
    as (_ & _ & _ & _ & _ & _ & _ & Hcells & Hqueue & _).
  split; [exact Hcells|exact Hqueue].
Defined.

(** The dictionary [regions] of layout [complex_key_cache]: 2048 cells
    from the properties of its layout, and expired keys allowed as the
    layout [cache] says, whatever its own layout says. *)
Lemma create_complex_key_cache_layout_reads_cache_properties_witness :
  create_complex_key_cache_layout parse_decimal parse_true_false id_of_name
    lifetime_of_min_max "regions" structure_of_keyed_regions
    complex_key_cache_configuration "dictionary" true
  = Returned keyed_regions_dictionary ∧
  complex_key_cache_configuration
    !! "dictionary.layout.complex_key_cache.allow_read_expired_keys"%string
  = Some "false"%string ∧
  getBool_or parse_true_false complex_key_cache_configuration
    "dictionary.layout.cache.allow_read_expired_keys" false
  = Returned (constructed_allow_read_expired_keys keyed_regions_dictionary).
Proof.
  assert (Hrun :
    create_complex_key_cache_layout parse_decimal parse_true_false id_of_name
      lifetime_of_min_max "regions" structure_of_keyed_regions
      complex_key_cache_configuration "dictionary" true
    = Returned keyed_regions_dictionary) by reflexivity.
  split; [exact Hrun|]. split; [reflexivity|].
  destruct (FactoryFacts.create_complex_key_cache_layout_reads_cache_properties
              parse_decimal parse_true_false id_of_name lifetime_of_min_max
              "regions" structure_of_keyed_regions
              complex_key_cache_configuration "dictionary" true
              keyed_regions_dictionary Hrun)
    as (_ & _ & _ & _ & _ & _ & _ & _ & Hallow & _).
  exact Hallow.
Defined.

End MoreInstances.
